(** * go-taskflow: the executor and the execution graph

    A shallow embedding of [graph.go] (execution graph and inner nodes) and
    [executor.go] (scheduler, invokers, dispatcher loop).

    Go objects reached through pointers ([*innerNode], [*eGraph]) live in two
    stores keyed by reference; a method that mutates its receiver becomes a
    computation in a state monad over [World].  A Go panic is an outcome of
    the monad that keeps the state reached so far, so that [defer]/[recover]
    can be written as the source has them. *)

From stdpp Require Import gmap strings list sorting.
From Stdlib Require Import ZArith.

Local Open Scope Z_scope.

(** ** Data model *)

(** [type nodeType string] *)
Definition nodeType : Type := string.
Definition nodeSubflow : nodeType := "subflow".
Definition nodeStatic : nodeType := "static".
Definition nodeCondition : nodeType := "condition".

(** Node states, [int32] constants of graph.go. *)
Definition kNodeStateIdle : Z := 0.
Definition kNodeStateWaiting : Z := 1.
Definition kNodeStateRunning : Z := 2.
Definition kNodeStateFinished : Z := 3.
Definition kNodeStateFailed : Z := 4.

(** What one call of a user function does, as far as the executor can see. *)
Inductive userResult (A : Type) : Type :=
  | Returns (a : A)
  | Panics.
Arguments Returns {A} a.
Arguments Panics {A}.

(** Modelled from the spec: the declaration of [Static] is not in the source
    files; the payload is a zero-argument function that may panic.  A user
    function is a closure over user state: its [k]-th call (counted per
    vertex, from 0) may differ from the others, so a handle is a function of
    the call number. *)
Record Static := { s_handle : nat → userResult unit }.

(** Modelled from the spec: the declaration of [Condition] is not in the
    source files; the payload is a zero-argument function that returns an
    unsigned integer, together with [mapper], the successors of the vertex
    addressed by that integer. *)
Record Condition := {
  c_handle : nat → userResult N;
  c_mapper : list positive
}.

(** Modelled from the spec: the declaration of [Subflow] is not in the source
    files; the payload is the embedded graph [g] and a builder that populates
    it.  The builder reaches the sub-graph through [push] only: one run of it
    pushes some vertices and then returns or panics. *)
Record builderRun := {
  b_pushed : list positive;
  b_result : userResult unit
}.

Record Subflow := {
  sf_handle : nat → builderRun;
  sf_g : positive
}.

(** Modelled from the spec: [TaskPriority] is declared outside the source
    files; priorities are totally ordered and a lower value goes first. *)
Definition TaskPriority : Type := Z.

(** [ptr interface{}] of a node, with the dynamic types the executor switches on. *)
Inductive payload : Type :=
  | PStatic (p : Static)
  | PSubflow (p : Subflow)
  | PCondition (p : Condition)
  | POther.

(** [type innerNode struct].  [n_calls] is ghost: the number of calls made so
    far to the user function of the vertex.  [rw] is never used by the
    executor and is left out. *)
Record innerNode := {
  n_name : string;
  n_successors : list positive;
  n_dependents : list positive;
  n_Typ : nodeType;
  n_ptr : payload;
  n_state : Z;
  n_joinCounter : Z;
  n_g : positive;
  n_priority : TaskPriority;
  n_calls : nat
}.

(** [type eGraph struct].  [g_scheCond] counts the [Signal] calls made on the
    condition variable. *)
Record eGraph := {
  g_name : string;
  g_nodes : list positive;
  g_joinCounter : Z;
  g_entries : list positive;
  g_scheCond : nat;
  g_instancelized : bool;
  g_canceled : bool
}.

(** Profiler spans; the time stamps are left out. *)
Record attr := { a_typ : nodeType; a_name : string }.

Inductive span : Type :=
  | RootSpan (extra : attr)                  (* parent == nil *)
  | ChildSpan (extra : attr) (parent : span).

Definition newSpan (extra : attr) (parent : option span) : span :=
  match parent with
  | None => RootSpan extra
  | Some p => ChildSpan extra p
  end.

(** Values carried by a panic. *)
Inductive panicval : Type :=
  | UserPanic                                (* raised by user code *)
  | ConditionDiag (again : N)                (* the diagnostic of invokeCondition *)
  | NilDeref                                 (* nil pointer dereference *)
  | IndexOutOfRange                          (* runtime error on mapper[choice] *)
  | NegativeWaitGroup                        (* sync: negative WaitGroup counter *)
  | UnsupportedNode.                         (* panic("unsupported node") *)

(** Lines written by [fmt.Printf]. *)
Inductive logline : Type :=
  | LogRecovered (kind : nodeType) (name : string) (v : panicval)
  | LogNotScheduled (name gname : string).

(** The executor ([wq], [wg], [profiler]) together with the two stores.
    [w_trace] is ghost: every [state.Store] in program order. *)
Record World := {
  w_nodes : gmap positive innerNode;
  w_graphs : gmap positive eGraph;
  e_wq : list positive;
  e_wg : nat;
  e_profiler : list span;
  w_stdout : list logline;
  w_trace : list (positive * Z)
}.

(** Field updates. *)
Definition set_nodes (h : gmap positive innerNode) (w : World) : World :=
  {| w_nodes := h; w_graphs := w_graphs w; e_wq := e_wq w; e_wg := e_wg w;
     e_profiler := e_profiler w; w_stdout := w_stdout w; w_trace := w_trace w |}.
Definition set_graphs (h : gmap positive eGraph) (w : World) : World :=
  {| w_nodes := w_nodes w; w_graphs := h; e_wq := e_wq w; e_wg := e_wg w;
     e_profiler := e_profiler w; w_stdout := w_stdout w; w_trace := w_trace w |}.
Definition set_wq (q : list positive) (w : World) : World :=
  {| w_nodes := w_nodes w; w_graphs := w_graphs w; e_wq := q; e_wg := e_wg w;
     e_profiler := e_profiler w; w_stdout := w_stdout w; w_trace := w_trace w |}.
Definition set_wg (c : nat) (w : World) : World :=
  {| w_nodes := w_nodes w; w_graphs := w_graphs w; e_wq := e_wq w; e_wg := c;
     e_profiler := e_profiler w; w_stdout := w_stdout w; w_trace := w_trace w |}.
Definition set_profiler (p : list span) (w : World) : World :=
  {| w_nodes := w_nodes w; w_graphs := w_graphs w; e_wq := e_wq w; e_wg := e_wg w;
     e_profiler := p; w_stdout := w_stdout w; w_trace := w_trace w |}.
Definition set_stdout (o : list logline) (w : World) : World :=
  {| w_nodes := w_nodes w; w_graphs := w_graphs w; e_wq := e_wq w; e_wg := e_wg w;
     e_profiler := e_profiler w; w_stdout := o; w_trace := w_trace w |}.
Definition set_trace (t : list (positive * Z)) (w : World) : World :=
  {| w_nodes := w_nodes w; w_graphs := w_graphs w; e_wq := e_wq w; e_wg := e_wg w;
     e_profiler := e_profiler w; w_stdout := w_stdout w; w_trace := t |}.

Definition node_set_state (s : Z) (n : innerNode) : innerNode :=
  {| n_name := n_name n; n_successors := n_successors n; n_dependents := n_dependents n;
     n_Typ := n_Typ n; n_ptr := n_ptr n; n_state := s; n_joinCounter := n_joinCounter n;
     n_g := n_g n; n_priority := n_priority n; n_calls := n_calls n |}.
Definition node_set_joinCounter (c : Z) (n : innerNode) : innerNode :=
  {| n_name := n_name n; n_successors := n_successors n; n_dependents := n_dependents n;
     n_Typ := n_Typ n; n_ptr := n_ptr n; n_state := n_state n; n_joinCounter := c;
     n_g := n_g n; n_priority := n_priority n; n_calls := n_calls n |}.
Definition node_set_g (g : positive) (n : innerNode) : innerNode :=
  {| n_name := n_name n; n_successors := n_successors n; n_dependents := n_dependents n;
     n_Typ := n_Typ n; n_ptr := n_ptr n; n_state := n_state n; n_joinCounter := n_joinCounter n;
     n_g := g; n_priority := n_priority n; n_calls := n_calls n |}.
Definition node_set_calls (c : nat) (n : innerNode) : innerNode :=
  {| n_name := n_name n; n_successors := n_successors n; n_dependents := n_dependents n;
     n_Typ := n_Typ n; n_ptr := n_ptr n; n_state := n_state n; n_joinCounter := n_joinCounter n;
     n_g := n_g n; n_priority := n_priority n; n_calls := c |}.
Definition node_set_successors (l : list positive) (n : innerNode) : innerNode :=
  {| n_name := n_name n; n_successors := l; n_dependents := n_dependents n;
     n_Typ := n_Typ n; n_ptr := n_ptr n; n_state := n_state n; n_joinCounter := n_joinCounter n;
     n_g := n_g n; n_priority := n_priority n; n_calls := n_calls n |}.
Definition node_set_dependents (l : list positive) (n : innerNode) : innerNode :=
  {| n_name := n_name n; n_successors := n_successors n; n_dependents := l;
     n_Typ := n_Typ n; n_ptr := n_ptr n; n_state := n_state n; n_joinCounter := n_joinCounter n;
     n_g := n_g n; n_priority := n_priority n; n_calls := n_calls n |}.

Definition graph_set_nodes (l : list positive) (g : eGraph) : eGraph :=
  {| g_name := g_name g; g_nodes := l; g_joinCounter := g_joinCounter g;
     g_entries := g_entries g; g_scheCond := g_scheCond g;
     g_instancelized := g_instancelized g; g_canceled := g_canceled g |}.
Definition graph_set_joinCounter (c : Z) (g : eGraph) : eGraph :=
  {| g_name := g_name g; g_nodes := g_nodes g; g_joinCounter := c;
     g_entries := g_entries g; g_scheCond := g_scheCond g;
     g_instancelized := g_instancelized g; g_canceled := g_canceled g |}.
Definition graph_set_entries (l : list positive) (g : eGraph) : eGraph :=
  {| g_name := g_name g; g_nodes := g_nodes g; g_joinCounter := g_joinCounter g;
     g_entries := l; g_scheCond := g_scheCond g;
     g_instancelized := g_instancelized g; g_canceled := g_canceled g |}.
Definition graph_set_scheCond (c : nat) (g : eGraph) : eGraph :=
  {| g_name := g_name g; g_nodes := g_nodes g; g_joinCounter := g_joinCounter g;
     g_entries := g_entries g; g_scheCond := c;
     g_instancelized := g_instancelized g; g_canceled := g_canceled g |}.
Definition graph_set_instancelized (b : bool) (g : eGraph) : eGraph :=
  {| g_name := g_name g; g_nodes := g_nodes g; g_joinCounter := g_joinCounter g;
     g_entries := g_entries g; g_scheCond := g_scheCond g;
     g_instancelized := b; g_canceled := g_canceled g |}.
Definition graph_set_canceled (b : bool) (g : eGraph) : eGraph :=
  {| g_name := g_name g; g_nodes := g_nodes g; g_joinCounter := g_joinCounter g;
     g_entries := g_entries g; g_scheCond := g_scheCond g;
     g_instancelized := g_instancelized g; g_canceled := b |}.

(** ** The monad: state, panics, and the two ways a thread fails to return *)

Inductive stop : Type :=
  | Panic (v : panicval)
  | Hang          (* the thread waits on something nobody will signal *)
  | OutOfFuel.    (* the step budget of the interpreter ran out *)

Inductive res (A : Type) : Type :=
  | Ret (a : A)
  | Stop (s : stop).
Arguments Ret {A} a.
Arguments Stop {A} s.

Definition M (A : Type) : Type := World → res A * World.

#[global] Instance M_ret : MRet M := λ A a w, (Ret a, w).
#[global] Instance M_bind : MBind M := λ A B f m w,
  match m w with
  | (Ret a, w') => f a w'
  | (Stop s, w') => (Stop s, w')
  end.

(** Stopping keeps the state reached so far. *)
Definition halt {A} (s : stop) : M A := λ w, (Stop s, w).
Definition panic {A} (v : panicval) : M A := halt (Panic v).

(** [for _, x := range l { f x }] *)
Fixpoint forM_ {A} (l : list A) (f : A → M unit) : M unit :=
  match l with
  | [] => mret tt
  | x :: l' => f x ;; forM_ l' f
  end.

(** [defer func() { r := recover(); ... }()] around a body: the deferred
    closure runs on return and on panic, sees the panic value through
    [recover] and, having recovered, ends the panic. *)
Definition with_defer (deferred : option panicval → M unit) (body : M unit) : M unit :=
  λ w, match body w with
       | (Ret _, w') => deferred None w'
       | (Stop (Panic v), w') => deferred (Some v) w'
       | (Stop s, w') => (Stop s, w')
       end.

(** Dereferences: a reference outside the store is a nil pointer. *)
Definition getNode (n : positive) : M innerNode :=
  λ w, match w_nodes w !! n with
       | Some x => (Ret x, w)
       | None => (Stop (Panic NilDeref), w)
       end.
Definition getGraph (g : positive) : M eGraph :=
  λ w, match w_graphs w !! g with
       | Some x => (Ret x, w)
       | None => (Stop (Panic NilDeref), w)
       end.
Definition modNode (n : positive) (f : innerNode → innerNode) : M unit :=
  λ w, match w_nodes w !! n with
       | Some x => (Ret tt, set_nodes (<[n := f x]> (w_nodes w)) w)
       | None => (Stop (Panic NilDeref), w)
       end.
Definition modGraph (g : positive) (f : eGraph → eGraph) : M unit :=
  λ w, match w_graphs w !! g with
       | Some x => (Ret tt, set_graphs (<[g := f x]> (w_graphs w)) w)
       | None => (Stop (Panic NilDeref), w)
       end.

(** ** Collaborators declared outside the source files *)

(** Modelled from the spec: [utils.RC] is not in the source files; it is an
    atomic signed integer with incr, decr, read and set. *)
Definition node_joinCounter_Increase (n : positive) : M unit :=
  modNode n (λ x, node_set_joinCounter (n_joinCounter x + 1) x).
Definition node_joinCounter_Decrease (n : positive) : M unit :=
  modNode n (λ x, node_set_joinCounter (n_joinCounter x - 1) x).
Definition node_joinCounter_Set (n : positive) (v : Z) : M unit :=
  modNode n (node_set_joinCounter v).
Definition graph_joinCounter_Increase (g : positive) : M unit :=
  modGraph g (λ x, graph_set_joinCounter (g_joinCounter x + 1) x).
Definition graph_joinCounter_Decrease (g : positive) : M unit :=
  modGraph g (λ x, graph_set_joinCounter (g_joinCounter x - 1) x).
Definition graph_joinCounter_Set (g : positive) (v : Z) : M unit :=
  modGraph g (graph_set_joinCounter v).

(** [node.state.Store(v)] *)
Definition trace_add (n : positive) (v : Z) : M unit :=
  λ w, (Ret tt, set_trace (w_trace w ++ [(n, v)]) w).
Definition state_Store (n : positive) (v : Z) : M unit :=
  modNode n (node_set_state v) ;; trace_add n v.

(** [g.canceled.Store(b)], [g.scheCond.Signal()] *)
Definition canceled_Store (g : positive) (b : bool) : M unit :=
  modGraph g (graph_set_canceled b).
Definition scheCond_Signal (g : positive) : M unit :=
  modGraph g (λ x, graph_set_scheCond (S (g_scheCond x)) x).

(** Modelled from the spec: [utils.Queue] is not in the source files; it is a
    FIFO whose take blocks on an empty queue. *)
Definition wq_Put (n : positive) : M unit :=
  λ w, (Ret tt, set_wq (e_wq w ++ [n]) w).
Definition wq_Len : M nat := λ w, (Ret (length (e_wq w)), w).
Definition wq_PeakAndTake : M positive :=
  λ w, match e_wq w with
       | n :: q => (Ret n, set_wq q w)
       | [] => (Stop Hang, w)
       end.

(** [sync.WaitGroup]: the counter is never negative, [Add] panics instead.
    The counter that a panicking [Add] leaves behind and the 32-bit width of
    the counter are not modelled: the old value is kept, and [nat] has no
    upper bound. *)
Definition wg_Add (delta : Z) : M unit :=
  λ w, if decide (Z.of_nat (e_wg w) + delta < 0)
       then (Stop (Panic NegativeWaitGroup), w)
       else (Ret tt, set_wg (Z.to_nat (Z.of_nat (e_wg w) + delta)) w).
Definition wg_Done : M unit := wg_Add (-1).
Definition wg_Wait : M unit :=
  λ w, if decide (e_wg w = 0%nat) then (Ret tt, w) else (Stop Hang, w).

(** Modelled from the spec: the profiler is not in the source files; it
    collects the spans it is given. *)
Definition profiler_AddSpan (s : span) : M unit :=
  λ w, (Ret tt, set_profiler (e_profiler w ++ [s]) w).

(** [fmt.Printf]; the stack trace is left out. *)
Definition printf (l : logline) : M unit :=
  λ w, (Ret tt, set_stdout (w_stdout w ++ [l]) w).

(** ** graph.go *)

(** [func (g *eGraph) JoinCounter() int] *)
Definition eGraph_JoinCounter (g : positive) : M Z :=
  gr ← getGraph g; mret (g_joinCounter gr).

(** [func (g *eGraph) reset()]; [g.entries[:0]] empties the slice. *)
Definition eGraph_reset (g : positive) : M unit :=
  graph_joinCounter_Set g 0 ;;
  modGraph g (graph_set_entries []) ;;
  gr ← getGraph g;
  forM_ (g_nodes gr) (λ n, node_joinCounter_Set n 0).

(** [func (g *eGraph) push(n ...*innerNode)] *)
Definition eGraph_push (g : positive) (n : list positive) : M unit :=
  modGraph g (λ x, graph_set_nodes (g_nodes x ++ n) x) ;;
  forM_ n (λ node, modNode node (node_set_g g)).

(** [func (n *innerNode) JoinCounter() int] *)
Definition innerNode_JoinCounter (n : positive) : M Z :=
  nd ← getNode n; mret (n_joinCounter nd).

(** [func (n *innerNode) setup()] *)
Definition innerNode_setup (n : positive) : M unit :=
  state_Store n kNodeStateIdle ;;
  nd ← getNode n;
  forM_ (n_dependents nd) (λ dep,
    d ← getNode dep;
    if decide (n_Typ d = nodeCondition) then mret tt
    else node_joinCounter_Increase n).

(** [func (g *eGraph) setup()] *)
Definition eGraph_setup (g : positive) : M unit :=
  eGraph_reset g ;;
  gr ← getGraph g;
  forM_ (g_nodes gr) (λ node,
    innerNode_setup node ;;
    nd ← getNode node;
    if decide (length (n_dependents nd) = 0%nat)
    then modGraph g (λ x, graph_set_entries (g_entries x ++ [node]) x)
    else mret tt).

(** [func (n *innerNode) drop()]; [n.Typ] is read in every iteration. *)
Definition innerNode_drop (n : positive) : M unit :=
  nd ← getNode n;
  forM_ (n_successors nd) (λ node,
    nd' ← getNode n;
    if decide (n_Typ nd' ≠ nodeCondition) then node_joinCounter_Decrease node
    else mret tt).

(** [func (n *innerNode) precede(v *innerNode)] *)
Definition innerNode_precede (n v : positive) : M unit :=
  modNode n (λ x, node_set_successors (n_successors x ++ [v]) x) ;;
  modNode v (λ x, node_set_dependents (n_dependents x ++ [n]) x).

(** ** executor.go *)

(** [TaskFlow], as the notes kept with the sources declare it. *)
Record TaskFlow := { tf_name : string; tf_graph : positive }.

(** [i.priority] as the comparison function reads it.  Both call sites have
    dereferenced every element of the slice before sorting it, so the read
    cannot fail there. *)
Definition priorityOf (w : World) (n : positive) : Z :=
  default 0 (n_priority <$> w_nodes w !! n).

Definition priority_le (w : World) (i j : positive) : Prop :=
  priorityOf w i ≤ priorityOf w j.

#[global] Instance priority_le_dec w i j : Decision (priority_le w i j).
Proof. unfold priority_le. apply _. Defined.

(** [slices.SortFunc(s, func(i, j) int { return cmp.Compare(i.priority, j.priority) })].
    On a slice of at most twelve elements the library runs its
    [insertionSortCmpFunc]: for [i] from 1 upwards, [data[i]] is swapped to
    the left for as long as it compares below its left neighbour, so elements
    of equal priority keep their order.  [insert_left] is that inner loop;
    it takes the part already in order with its last element first.  On a
    longer slice the library goes through its pattern-defeating quicksort,
    which sorts as well and promises no order among equal elements. *)
Fixpoint insert_left (w : World) (x : positive) (before : list positive) : list positive :=
  match before with
  | y :: rest =>
      if decide (priorityOf w x < priorityOf w y) then y :: insert_left w x rest
      else x :: before
  | [] => [x]
  end.

Definition insertionSortCmpFunc (w : World) (data : list positive) : list positive :=
  reverse (foldl (λ before x, insert_left w x before) [] data).

Definition sortByPriority (s : list positive) : M (list positive) :=
  λ w, (Ret (insertionSortCmpFunc w s), w).

(** [func (e *innerExecutorImpl) schedule(nodes ...*innerNode)]: the loop
    returns, it does not continue, at the first vertex of a cancelled graph. *)
Fixpoint schedule (nodes : list positive) : M unit :=
  match nodes with
  | [] => mret tt
  | node :: rest =>
      nd ← getNode node;
      gr ← getGraph (n_g nd);
      if g_canceled gr then
        scheCond_Signal (n_g nd) ;;
        printf (LogNotScheduled (n_name nd) (g_name gr))
        (* return *)
      else
        graph_joinCounter_Increase (n_g nd) ;;
        wg_Add 1 ;;
        wq_Put node ;;
        state_Store node kNodeStateWaiting ;;
        scheCond_Signal (n_g nd) ;;
        schedule rest
  end.

(** The first loop of [sche_successors]. *)
Fixpoint candidates (successors : list positive) : M (list positive) :=
  match successors with
  | [] => mret []
  | n :: rest =>
      c ← innerNode_JoinCounter n;
      nd ← getNode n;
      candidate ← candidates rest;
      if decide (c = 0 ∨ n_Typ nd = nodeCondition)
      then mret (n :: candidate)
      else mret candidate
  end.

(** [func (e *innerExecutorImpl) sche_successors(node *innerNode)] *)
Definition sche_successors (node : positive) : M unit :=
  nd ← getNode node;
  candidate ← candidates (n_successors nd);
  candidate ← sortByPriority candidate;
  innerNode_setup node ;;
  schedule candidate.

(** [p.handle()] of a static payload. *)
Definition Static_call (node : positive) (p : Static) : M unit :=
  nd ← getNode node;
  modNode node (node_set_calls (S (n_calls nd))) ;;
  match s_handle p (n_calls nd) with
  | Returns _ => mret tt
  | Panics => panic UserPanic
  end.

(** [p.handle()] of a condition payload. *)
Definition Condition_call (node : positive) (p : Condition) : M N :=
  nd ← getNode node;
  modNode node (node_set_calls (S (n_calls nd))) ;;
  match c_handle p (n_calls nd) with
  | Returns choice => mret choice
  | Panics => panic UserPanic
  end.

(** [p.handle(p)] of a subflow payload: the builder pushes into [p.g]. *)
Definition Subflow_call (node : positive) (p : Subflow) : M unit :=
  nd ← getNode node;
  modNode node (node_set_calls (S (n_calls nd))) ;;
  eGraph_push (sf_g p) (b_pushed (sf_handle p (n_calls nd))) ;;
  match b_result (sf_handle p (n_calls nd)) with
  | Returns _ => mret tt
  | Panics => panic UserPanic
  end.

(** *** invokeStatic

    The closure that [invokeStatic] returns, split into the statements after
    [defer] (the body) and the deferred function, which receives what
    [recover()] returns.  [time.Now()] and [span.cost] are left out. *)

Definition invokeStatic_body (node : positive) (p : Static) : M unit :=
  state_Store node kNodeStateRunning ;;
  Static_call node p ;;
  state_Store node kNodeStateFinished.

Definition invokeStatic_deferred (node : positive) (sp : span)
    (r : option panicval) : M unit :=
  match r with
  | Some v =>
      nd ← getNode node;
      canceled_Store (n_g nd) true ;;
      printf (LogRecovered nodeStatic (n_name nd) v)
  | None => profiler_AddSpan sp
  end ;;
  innerNode_drop node ;;
  sche_successors node ;;
  nd ← getNode node;
  graph_joinCounter_Decrease (n_g nd) ;;
  wg_Done ;;
  scheCond_Signal (n_g nd).

Definition invokeStatic (node : positive) (parentSpan : option span) (p : Static) : M unit :=
  nd ← getNode node;
  let sp := newSpan {| a_typ := nodeStatic; a_name := n_name nd |} parentSpan in
  with_defer (invokeStatic_deferred node sp) (invokeStatic_body node p).

(** *** invokeCondition

    The panic message is built with a second call of [p.handle()]. *)

Definition invokeCondition_body (node : positive) (p : Condition) : M unit :=
  state_Store node kNodeStateRunning ;;
  choice ← Condition_call node p;
  (if decide (N.of_nat (length (c_mapper p)) < choice)%N   (* choice > uint(len(p.mapper)) *)
   then again ← Condition_call node p; panic (ConditionDiag again)
   else mret tt) ;;
  state_Store node kNodeStateFinished ;;
  match c_mapper p !! N.to_nat choice with
  | Some chosen => schedule [chosen]
  | None => panic IndexOutOfRange
  end.

Definition invokeCondition_deferred (node : positive) (sp : span)
    (r : option panicval) : M unit :=
  match r with
  | Some v =>
      nd ← getNode node;
      canceled_Store (n_g nd) true ;;
      printf (LogRecovered nodeCondition (n_name nd) v)
  | None => profiler_AddSpan sp
  end ;;
  innerNode_drop node ;;
  nd ← getNode node;
  graph_joinCounter_Decrease (n_g nd) ;;
  innerNode_setup node ;;
  wg_Done ;;
  scheCond_Signal (n_g nd).

Definition invokeCondition (node : positive) (parentSpan : option span) (p : Condition) : M unit :=
  nd ← getNode node;
  let sp := newSpan {| a_typ := nodeCondition; a_name := n_name nd |} parentSpan in
  with_defer (invokeCondition_deferred node sp) (invokeCondition_body node p).

(** *** invokeSubflow, invokeNode, invokeGraph, scheduleGraph

    These four call each other.  [scheduleGraph_rec] is the call of
    [scheduleGraph] from the subflow invoker, and [Go] is [e.pool.Go]. *)

Section Dispatch.

(** Modelled from the spec: [utils.Copool] is not in the source files.
    [Go f] hands the closure [f] to the pool; what has happened to [f] by
    the time [Go] returns is the pool's business. *)
Variable Go : M unit → M unit.
Variable scheduleGraph_rec : positive → option span → M unit.

Definition invokeSubflow_body (node : positive) (p : Subflow) : M unit :=
  state_Store node kNodeStateRunning ;;
  gr ← getGraph (sf_g p);
  (if g_instancelized gr then mret tt else Subflow_call node p) ;;
  modGraph (sf_g p) (graph_set_instancelized true) ;;
  state_Store node kNodeStateFinished.

Definition invokeSubflow_deferred (node : positive) (sp : span) (p : Subflow)
    (r : option panicval) : M unit :=
  match r with
  | Some v =>
      nd ← getNode node;
      printf (LogRecovered nodeSubflow (n_name nd) v) ;;
      canceled_Store (n_g nd) true ;;
      canceled_Store (sf_g p) true
  | None => profiler_AddSpan sp
  end ;;
  scheduleGraph_rec (sf_g p) (Some sp) ;;
  innerNode_drop node ;;
  sche_successors node ;;
  nd ← getNode node;
  graph_joinCounter_Decrease (n_g nd) ;;
  wg_Done ;;
  scheCond_Signal (n_g nd).

Definition invokeSubflow (node : positive) (parentSpan : option span) (p : Subflow) : M unit :=
  nd ← getNode node;
  let sp := newSpan {| a_typ := nodeSubflow; a_name := n_name nd |} parentSpan in
  with_defer (invokeSubflow_deferred node sp p) (invokeSubflow_body node p).

Definition invokeNode (node : positive) (parentSpan : option span) : M unit :=
  nd ← getNode node;
  match n_ptr nd with
  | PStatic p => Go (invokeStatic node parentSpan p)
  | PSubflow p => Go (invokeSubflow node parentSpan p)
  | PCondition p => Go (invokeCondition node parentSpan p)
  | POther => panic UnsupportedNode
  end.

End Dispatch.

(** What the dispatcher finds when it evaluates its two loop conditions. *)
Inductive poll : Type :=
  | Waits    (* JoinCounter != 0 && wq.Len() == 0 && !canceled: scheCond.Wait() *)
  | Breaks   (* JoinCounter == 0 || canceled *)
  | Takes.   (* wq.PeakAndTake() *)

(** The conditions of [invokeGraph], read in one step. *)
Definition invokeGraph_poll (g : positive) : M poll :=
  jc ← eGraph_JoinCounter g;
  len ← wq_Len;
  gr ← getGraph g;
  if decide (jc ≠ 0 ∧ len = 0%nat ∧ g_canceled gr = false) then mret Waits
  else if decide (jc = 0 ∨ g_canceled gr = true) then mret Breaks
  else mret Takes.

(** [scheduleGraph] up to its call of [invokeGraph]: set up the graph, sort
    the entries in place, schedule them. *)
Definition scheduleGraph_entries (g : positive) : M unit :=
  eGraph_setup g ;;
  gr ← getGraph g;
  entries ← sortByPriority (g_entries gr);
  modGraph g (graph_set_entries entries) ;;
  schedule entries.

(** [scheduleGraph] with its call of [invokeGraph] left open. *)
Definition scheduleGraph_body (invokeGraph_rec : positive → option span → M unit)
    (g : positive) (parentSpan : option span) : M unit :=
  scheduleGraph_entries g ;;
  invokeGraph_rec g parentSpan ;;
  scheCond_Signal g.

(** The dispatcher loop.  [fuel] bounds the iterations of the loop and the
    nesting of subflows.  A dispatcher that has to wait is reported as
    [Hang]: this thread makes no further step by itself. *)
Fixpoint invokeGraph (Go : M unit → M unit) (fuel : nat) (g : positive)
    (parentSpan : option span) {struct fuel} : M unit :=
  match fuel with
  | O => halt OutOfFuel
  | S fuel' =>
      p ← invokeGraph_poll g;
      match p with
      | Waits => halt Hang
      | Breaks => mret tt
      | Takes =>
          node ← wq_PeakAndTake;
          invokeNode Go (scheduleGraph_body (invokeGraph Go fuel')) node parentSpan ;;
          invokeGraph Go fuel' g parentSpan
      end
  end.

(** [func (e *innerExecutorImpl) scheduleGraph(g *eGraph, parentSpan *span)] *)
Definition scheduleGraph (Go : M unit → M unit) (fuel : nat) :
    positive → option span → M unit :=
  scheduleGraph_body (invokeGraph Go fuel).

(** [func (e *innerExecutorImpl) Run(tf *TaskFlow) Executor]; the executor it
    returns is the one of the world. *)
Definition Run (Go : M unit → M unit) (fuel : nat) (tf : TaskFlow) : M unit :=
  scheduleGraph Go fuel (tf_graph tf) None.

(** [func (e *innerExecutorImpl) Wait()] *)
Definition Wait : M unit := wg_Wait.

(** Modelled from the spec: two ways a pool can meet its contract.
    [pool_runs f]: the worker has run the closure to its end by the time the
    dispatcher goes on; a panic that escapes the closure stays with the
    worker.  [pool_idle f]: the closure is accepted and no worker has started
    it yet. *)
Definition pool_runs (f : M unit) : M unit :=
  λ w, match f w with
       | (Ret _, w') => (Ret tt, w')
       | (Stop (Panic _), w') => (Ret tt, w')
       | (Stop s, w') => (Stop s, w')
       end.

Definition pool_idle (f : M unit) : M unit := mret tt.

(** * Vocabulary of the statements *)

(** [keeps R m]: whatever [m] does, and however it ends, it takes a world to
    an [R]-related one. *)
Definition keeps {A} (R : relation World) (m : M A) : Prop :=
  ∀ w, R w (m w).2.

(** A relation that only looks at part of the world. *)
Definition same {X} (view : World → X) : relation World :=
  λ w w', view w' = view w.

(** One field of every node, one field of every graph. *)
Definition node_view {X} (proj : innerNode → X) (w : World) : gmap positive X :=
  proj <$> w_nodes w.
Definition graph_view {X} (proj : eGraph → X) (w : World) : gmap positive X :=
  proj <$> w_graphs w.

(** A view is [apart] from a family of primitives when they cannot change it. *)
Class NodesApart {X} (view : World → X) : Prop :=
  nodes_apart : ∀ h w, view (set_nodes h w) = view w.
Class GraphsApart {X} (view : World → X) : Prop :=
  graphs_apart : ∀ h w, view (set_graphs h w) = view w.
Class QueueApart {X} (view : World → X) : Prop :=
  queue_apart : ∀ q w, view (set_wq q w) = view w.
Class WaitGroupApart {X} (view : World → X) : Prop :=
  waitgroup_apart : ∀ c w, view (set_wg c w) = view w.
Class GhostApart {X} (view : World → X) : Prop := {
  profiler_apart : ∀ p w, view (set_profiler p w) = view w;
  stdout_apart : ∀ o w, view (set_stdout o w) = view w;
  trace_apart : ∀ t w, view (set_trace t w) = view w
}.

(** The fields of a node that are fixed when the graph is built. *)
Definition built (n : innerNode) :
    string * list positive * list positive * nodeType * payload * positive * Z :=
  (n_name n, n_successors n, n_dependents n, n_Typ n, n_ptr n, n_g n, n_priority n).

(** Join-counters of vertices that do not go down. *)
Definition jc_mono : relation World :=
  λ w w', ∀ n x, w_nodes w !! n = Some x →
    ∃ x', w_nodes w' !! n = Some x' ∧ n_joinCounter x ≤ n_joinCounter x'.

(** The trace of state stores grows by entries that satisfy [P]. *)
Definition trace_adds (P : positive * Z → Prop) : relation World :=
  λ w w', ∃ t, w_trace w' = w_trace w ++ t ∧ Forall P t.

(** A store of any of the four states that the executor writes. *)
Definition not_failed (e : positive * Z) : Prop := e.2 ≠ kNodeStateFailed.
Definition is_waiting (e : positive * Z) : Prop := e.2 = kNodeStateWaiting.

(** A pool respects [R] when running a closure that keeps [R] keeps [R]. *)
Definition pool_keeps (R : relation World) (Go : M unit → M unit) : Prop :=
  ∀ f, keeps R f → keeps R (Go f).

(** The graph [g] exists and its cancellation flag is set. *)
Definition latched (g : positive) (w : World) : Prop :=
  ∃ gr, w_graphs w !! g = Some gr ∧ g_canceled gr = true.

(** Graphs stay allocated and latched flags stay latched. *)
Definition latch_kept : relation World :=
  λ w w', ∀ g gr, w_graphs w !! g = Some gr →
    ∃ gr', w_graphs w' !! g = Some gr' ∧ (g_canceled gr = true → g_canceled gr' = true).

(** Two relations at once. *)
Definition rel_and (R1 R2 : relation World) : relation World :=
  λ w w', R1 w w' ∧ R2 w w'.

(** What holds across a subflow invocation whose builder panics: the
    instancelized latches, the allocated vertices, the latched flags. *)
Definition across_failed_build : relation World :=
  rel_and (same (graph_view g_instancelized))
    (rel_and (same (node_view (λ _, ()))) latch_kept).

(** [d] is not a vertex of kind condition in [w]. *)
Definition not_condition (w : World) (d : positive) : Prop :=
  n_Typ <$> w_nodes w !! d ≠ Some nodeCondition.

(** [n] is a vertex of [w] with an empty predecessor list. *)
Definition has_no_dependents (w : World) (n : positive) : Prop :=
  n_dependents <$> w_nodes w !! n = Some [].

#[global] Instance has_no_dependents_dec w n : Decision (has_no_dependents w n).
Proof. unfold has_no_dependents. apply _. Defined.

#[global] Instance not_condition_dec w d : Decision (not_condition w d).
Proof. unfold not_condition. apply _. Defined.

(** How many of [deps] are not of kind condition in [w]. *)
Definition counted_dependents (w : World) (deps : list positive) : Z :=
  Z.of_nat (length (filter (not_condition w) deps)).

(** [n] passes the filter of [sche_successors] in [w]. *)
Definition ready (w : World) (n : positive) : Prop :=
  n_joinCounter <$> w_nodes w !! n = Some 0 ∨
  n_Typ <$> w_nodes w !! n = Some nodeCondition.

#[global] Instance ready_dec w n : Decision (ready w n).
Proof. unfold ready. apply _. Defined.

(** [n] can be scheduled in [w]: it is allocated and its graph is not
    cancelled. *)
Definition schedulable (w : World) (n : positive) : Prop :=
  ∃ nd gr, w_nodes w !! n = Some nd ∧ w_graphs w !! n_g nd = Some gr ∧
           g_canceled gr = false.

(** How often [x] occurs in [l]. *)
Definition occurrences (x : positive) (l : list positive) : Z :=
  Z.of_nat (length (filter (λ y, y = x) l)).

(** The successor lists and the predecessor lists mirror each other: [b]
    is a successor of [a] as often as [a] is a predecessor of [b]. *)
Definition edges_mirrored (w : World) : Prop :=
  ∀ a b na nb, w_nodes w !! a = Some na → w_nodes w !! b = Some nb →
    occurrences b (n_successors na) = occurrences a (n_dependents nb).

(** The successors of [p] as the store has them. *)
Definition successorsOf (w : World) (p : positive) : list positive :=
  default [] (n_successors <$> w_nodes w !! p).

(** How many edges lead from the vertices of [ds] to [u]. *)
Definition edges_into (w : World) (u : positive) (ds : list positive) : Z :=
  foldr (λ p acc, occurrences u (successorsOf w p) + acc) 0 ds.

(** How many vertices of [l] belong to the graph [g]. *)
Definition owned (w : World) (g : positive) (l : list positive) : Z :=
  Z.of_nat (length (filter (λ n, n_g <$> w_nodes w !! n = Some g) l)).

(** [n] is allocated and the flag of its graph is set. *)
Definition on_cancelled_graph (w : World) (n : positive) : Prop :=
  ∃ nd gr, w_nodes w !! n = Some nd ∧ w_graphs w !! n_g nd = Some gr ∧
           g_canceled gr = true.

(** How far the wait counter is ahead of the work queue: the number of
    vertices that were scheduled and taken from the queue, and whose invoker
    has not called [wg.Done()] yet. *)
Definition in_flight (w : World) : Z :=
  Z.of_nat (e_wg w) - Z.of_nat (length (e_wq w)).

(** [in_flight] goes down by [k] at most. *)
Definition lag (k : Z) : relation World :=
  λ w w', in_flight w - k ≤ in_flight w'.

(** A pool under which an invoker still calls [wg.Done()] once at most. *)
Definition pool_lags (Go : M unit → M unit) : Prop :=
  ∀ f, keeps (lag 1) f → keeps (lag 1) (Go f).

(** No vertex holds a nil reference: its graph, its successors and its
    predecessors are allocated. *)
Definition no_nil_references (w : World) : Prop :=
  ∀ n nd, w_nodes w !! n = Some nd →
    is_Some (w_graphs w !! n_g nd) ∧
    (∀ s, s ∈ n_successors nd → is_Some (w_nodes w !! s)) ∧
    (∀ d, d ∈ n_dependents nd → is_Some (w_nodes w !! d)).

(** What the invokers of static and condition vertices leave as it is: the
    fields of the vertices fixed at build time and the set of graphs. *)
Definition frame : relation World :=
  rel_and (same (node_view built)) (same (graph_view (λ _, ()))).

(** The wait counter does not go down. *)
Definition wg_grows : relation World := λ w w', (e_wg w ≤ e_wg w')%nat.

(** The join-counter, the call count and the build-time fields of a vertex:
    what [schedule] leaves alone. *)
Definition counters (n : innerNode) :=
  (built n, n_joinCounter n, n_calls n).

(** The predecessors of [v] as the store has them. *)
Definition dependentsOf (w : World) (v : positive) : list positive :=
  default [] (n_dependents <$> w_nodes w !! v).

(** [a] is stored before [b] in the trace [t]. *)
Definition stored_before (t : list (positive * Z)) (a b : positive * Z) : Prop :=
  ∃ t1 t2 t3, t = t1 ++ a :: t2 ++ b :: t3.

(** The vertices [N] of the graph [g] are static vertices whose payloads
    return, joined by edges that stay inside [N], are listed once on either
    side, and go up in [rank]: a directed acyclic graph of static tasks. *)
Record static_dag (w : World) (g : positive) (N : list positive)
    (rank : positive → nat) : Prop := {
  dag_nodup : NoDup N;
  dag_mirrored : edges_mirrored w;
  dag_vertex : ∀ n, n ∈ N →
    ∃ nd p, w_nodes w !! n = Some nd ∧ n_g nd = g ∧ n_Typ nd = nodeStatic ∧
            n_ptr nd = PStatic p ∧ (∀ k, s_handle p k = Returns tt) ∧
            NoDup (n_successors nd) ∧
            (∀ s, s ∈ n_successors nd → s ∈ N ∧ (rank n < rank s)%nat) ∧
            (∀ d, d ∈ n_dependents nd → d ∈ N)
}.

(** The state of a run of such a graph from [w0], when the vertices [done]
    have been executed. *)
Record running (w0 : World) (g : positive) (N done : list positive) (w : World) : Prop := {
  run_built : same (node_view built) w0 w;
  run_graph : ∃ grw, w_graphs w !! g = Some grw ∧ g_canceled grw = false ∧
                     g_joinCounter grw = Z.of_nat (length (e_wq w));
  run_wg : e_wg w = (e_wg w0 + length (e_wq w))%nat;
  run_queue_nodup : NoDup (e_wq w);
  run_done_nodup : NoDup done;
  run_done_in : ∀ v, v ∈ done → v ∈ N;
  run_closed : ∀ v d, v ∈ done → d ∈ dependentsOf w0 v → d ∈ done;
  run_queue : ∀ v, v ∈ e_wq w ↔
                   (v ∈ N ∧ (v ∉ done) ∧ ∀ d, d ∈ dependentsOf w0 v → d ∈ done);
  run_pending : ∀ v, v ∈ N → v ∉ done →
    n_joinCounter <$> w_nodes w !! v
      = Some (Z.of_nat (length (filter (.∉ done) (dependentsOf w0 v)))) ∧
    n_calls <$> w_nodes w !! v = n_calls <$> w_nodes w0 !! v;
  run_done_calls : ∀ v, v ∈ done →
    n_calls <$> w_nodes w !! v = S <$> (n_calls <$> w_nodes w0 !! v);
  run_trace : ∃ T, w_trace w = w_trace w0 ++ T ∧
    (∀ d, d ∈ done → (d, kNodeStateFinished) ∈ T) ∧
    (∀ v d, v ∈ done → d ∈ dependentsOf w0 v →
            stored_before T (d, kNodeStateFinished) (v, kNodeStateRunning))
}.

(** * Worlds used in the examples *)

Definition vertex (name : string) (successors dependents : list positive)
    (Typ : nodeType) (ptr : payload) (g : positive) (priority : Z) : innerNode :=
  {| n_name := name; n_successors := successors; n_dependents := dependents;
     n_Typ := Typ; n_ptr := ptr; n_state := kNodeStateIdle; n_joinCounter := 0;
     n_g := g; n_priority := priority; n_calls := 0 |}.

Definition graph (name : string) (nodes : list positive) (canceled : bool) : eGraph :=
  {| g_name := name; g_nodes := nodes; g_joinCounter := 0; g_entries := [];
     g_scheCond := 0; g_instancelized := false; g_canceled := canceled |}.

Definition world (nodes : list (positive * innerNode))
    (graphs : list (positive * eGraph)) : World :=
  {| w_nodes := list_to_map nodes; w_graphs := list_to_map graphs; e_wq := [];
     e_wg := 0; e_profiler := []; w_stdout := []; w_trace := [] |}.

Definition returns : Static := {| s_handle := λ _, Returns tt |}.
Definition panics : Static := {| s_handle := λ _, Panics |}.

(** One static vertex in a graph whose flag is already latched. *)
Definition latched_world : World :=
  world [(1%positive, vertex "A" [] [] nodeStatic (PStatic returns) 1 2)]
        [(1%positive, graph "g" [1%positive] true)].

(** S3 of the scenarios: a condition with successors X, Y, Z. *)
Definition chooses (k : N) : Condition :=
  {| c_handle := λ _, Returns k; c_mapper := [2; 3; 4]%positive |}.

Definition condition_world (k : N) : World :=
  world [(1%positive, vertex "cond" [2; 3; 4]%positive [] nodeCondition
                        (PCondition (chooses k)) 1 2);
         (2%positive, vertex "X" [] [1%positive] nodeStatic (PStatic returns) 1 2);
         (3%positive, vertex "Y" [] [1%positive] nodeStatic (PStatic returns) 1 2);
         (4%positive, vertex "Z" [] [1%positive] nodeStatic (PStatic returns) 1 2)]
        [(1%positive, graph "g" [1; 2; 3; 4]%positive false)].

(** S2 of the scenarios: A precedes B (priority 2) and C (priority 1), which
    precede D. *)
Definition diamond_world : World :=
  world [(1%positive, vertex "A" [2; 3]%positive [] nodeStatic (PStatic returns) 1 2);
         (2%positive, vertex "B" [4%positive] [1%positive] nodeStatic (PStatic returns) 1 2);
         (3%positive, vertex "C" [4%positive] [1%positive] nodeStatic (PStatic returns) 1 1);
         (4%positive, vertex "D" [] [2; 3]%positive nodeStatic (PStatic returns) 1 2)]
        [(1%positive, graph "g" [1; 2; 3; 4]%positive false)].

(** Three entry vertices of priorities 3, 1 and 2. *)
Definition entries_world : World :=
  world [(1%positive, vertex "low" [] [] nodeStatic (PStatic returns) 1 3);
         (2%positive, vertex "high" [] [] nodeStatic (PStatic returns) 1 1);
         (3%positive, vertex "normal" [] [] nodeStatic (PStatic returns) 1 2)]
        [(1%positive, graph "g" [1; 2; 3]%positive false)].

(** A graph with the single static vertex A. *)
Definition single_world (p : Static) : World :=
  world [(1%positive, vertex "A" [] [] nodeStatic (PStatic p) 1 2)]
        [(1%positive, graph "g" [1%positive] false)].

Definition single_flow : TaskFlow := {| tf_name := "tf"; tf_graph := 1 |}.

(** S6 of the scenarios: A, then B, then C, and B panics. *)
Definition chain_world : World :=
  world [(1%positive, vertex "A" [2%positive] [] nodeStatic (PStatic returns) 1 2);
         (2%positive, vertex "B" [3%positive] [1%positive] nodeStatic (PStatic panics) 1 2);
         (3%positive, vertex "C" [] [2%positive] nodeStatic (PStatic returns) 1 2)]
        [(1%positive, graph "g" [1; 2; 3]%positive false)].

(** A subflow vertex SF whose builder pushes S1 and then panics, and the
    static vertex S1 of the sub-graph, which panics too. *)
Definition failing_builder : Subflow :=
  {| sf_handle := λ _, {| b_pushed := [2%positive]; b_result := Panics |};
     sf_g := 2 |}.

Definition failing_world : World :=
  world [(1%positive, vertex "SF" [] [] nodeSubflow (PSubflow failing_builder) 1 2);
         (2%positive, vertex "S1" [] [] nodeStatic (PStatic panics) 2 2)]
        [(1%positive, graph "g" [1%positive] false);
         (2%positive, graph "sub" [] false)].

(** S5 of the scenarios with a failing vertex: P1, then the subflow SF, then
    P2; the builder of SF pushes S1, and S1 panics. *)
Definition builds_S1 : Subflow :=
  {| sf_handle := λ _, {| b_pushed := [4%positive]; b_result := Returns tt |};
     sf_g := 2 |}.

Definition subflow_world : World :=
  world [(1%positive, vertex "P1" [2%positive] [] nodeStatic (PStatic returns) 1 2);
         (2%positive, vertex "SF" [3%positive] [1%positive] nodeSubflow
                        (PSubflow builds_S1) 1 2);
         (3%positive, vertex "P2" [] [2%positive] nodeStatic (PStatic returns) 1 2);
         (4%positive, vertex "S1" [] [] nodeStatic (PStatic panics) 2 2)]
        [(1%positive, graph "g" [1; 2; 3]%positive false);
         (2%positive, graph "sub" [] false)].

(** S4 of the scenarios: A, then B, then a condition that goes back to B or
    on to D. *)
Definition back_or_on : Condition :=
  {| c_handle := λ k, Returns (if decide (k < 2)%nat then 0%N else 1%N);
     c_mapper := [2; 4]%positive |}.

Definition loop_world : World :=
  world [(1%positive, vertex "A" [2%positive] [] nodeStatic (PStatic returns) 1 2);
         (2%positive, vertex "B" [3%positive] [1; 3]%positive nodeStatic
                        (PStatic returns) 1 2);
         (3%positive, vertex "cond" [2; 4]%positive [2%positive] nodeCondition
                        (PCondition back_or_on) 1 2);
         (4%positive, vertex "D" [] [3%positive] nodeStatic (PStatic returns) 1 2)]
        [(1%positive, graph "g" [1; 2; 3; 4]%positive false)].

(** S1 of the scenarios: a chain A, B, C of payloads that return. *)
Definition line_world : World :=
  world [(1%positive, vertex "A" [2%positive] [] nodeStatic (PStatic returns) 1 2);
         (2%positive, vertex "B" [3%positive] [1%positive] nodeStatic (PStatic returns) 1 2);
         (3%positive, vertex "C" [] [2%positive] nodeStatic (PStatic returns) 1 2)]
        [(1%positive, graph "g" [1; 2; 3]%positive false)].

(** S5 of the scenarios: P1, the subflow SF with the sub-graph S1, S2, then
    P2. *)
Definition builds_chain : Subflow :=
  {| sf_handle := λ _, {| b_pushed := [4; 5]%positive; b_result := Returns tt |};
     sf_g := 2 |}.

Definition nesting_world : World :=
  world [(1%positive, vertex "P1" [2%positive] [] nodeStatic (PStatic returns) 1 2);
         (2%positive, vertex "SF" [3%positive] [1%positive] nodeSubflow
                        (PSubflow builds_chain) 1 2);
         (3%positive, vertex "P2" [] [2%positive] nodeStatic (PStatic returns) 1 2);
         (4%positive, vertex "S1" [5%positive] [] nodeStatic (PStatic returns) 2 2);
         (5%positive, vertex "S2" [] [4%positive] nodeStatic (PStatic returns) 2 2)]
        [(1%positive, graph "g" [1; 2; 3]%positive false);
         (2%positive, graph "sub" [] false)].

(** Vertices of two graphs, the second of which is cancelled. *)
Definition mixed_world : World :=
  world [(1%positive, vertex "A" [] [] nodeStatic (PStatic returns) 1 2);
         (2%positive, vertex "B" [] [] nodeStatic (PStatic returns) 2 2);
         (3%positive, vertex "C" [] [] nodeStatic (PStatic returns) 1 2)]
        [(1%positive, graph "g" [1; 3]%positive false);
         (2%positive, graph "h" [2%positive] true)].

(** A graph without vertices. *)
Definition empty_world : World :=
  world [] [(1%positive, graph "g" [] false)].

(** Two entry vertices: A, which panics and goes first, and B. *)
Definition siblings_world : World :=
  world [(1%positive, vertex "A" [] [] nodeStatic (PStatic panics) 1 1);
         (2%positive, vertex "B" [] [] nodeStatic (PStatic returns) 1 2)]
        [(1%positive, graph "g" [1; 2]%positive false)].

(** A vertex as [newNode] leaves it, without payload, scheduled and at the
    head of the queue. *)
Definition bare_world : World :=
  {| w_nodes := {[ 1%positive :=
       {| n_name := "N"; n_successors := []; n_dependents := []; n_Typ := "";
          n_ptr := POther; n_state := kNodeStateWaiting; n_joinCounter := 0;
          n_g := 1; n_priority := 2; n_calls := 0 |} ]};
     w_graphs := {[ 1%positive :=
       {| g_name := "g"; g_nodes := [1%positive]; g_joinCounter := 1;
          g_entries := [1%positive]; g_scheCond := 1; g_instancelized := false;
          g_canceled := false |} ]};
     e_wq := [1%positive]; e_wg := 1; e_profiler := []; w_stdout := [];
     w_trace := [(1%positive, kNodeStateIdle); (1%positive, kNodeStateWaiting)] |}.

(** A precedes B, and B was pushed into the graph twice. *)
Definition twice_world : World :=
  world [(1%positive, vertex "A" [2%positive] [] nodeStatic (PStatic returns) 1 2);
         (2%positive, vertex "B" [] [1%positive] nodeStatic (PStatic returns) 1 2)]
        [(1%positive, graph "g" [1; 2; 2]%positive false)].

(** * Reasoning about computations *)

(** ** Running a computation by hand *)

Lemma run_bind {A B} (m : M A) (f : A → M B) w :
  (m ≫= f) w = match m w with
               | (Ret a, w') => f a w'
               | (Stop s, w') => (Stop s, w')
               end.
Proof. reflexivity. Qed.

Lemma run_bind_ret {A B} (m : M A) (f : A → M B) w a w' :
  m w = (Ret a, w') → (m ≫= f) w = f a w'.
Proof. intros H. rewrite run_bind, H. reflexivity. Qed.

Lemma run_bind_stop {A B} (m : M A) (f : A → M B) w s w' :
  m w = (Stop s, w') → (m ≫= f) w = (Stop s, w').
Proof. intros H. rewrite run_bind, H. reflexivity. Qed.

Lemma getNode_ok n nd w :
  w_nodes w !! n = Some nd → getNode n w = (Ret nd, w).
Proof. intros H. unfold getNode. rewrite H. reflexivity. Qed.

Lemma getGraph_ok g gr w :
  w_graphs w !! g = Some gr → getGraph g w = (Ret gr, w).
Proof. intros H. unfold getGraph. rewrite H. reflexivity. Qed.

Lemma modNode_ok n nd f w :
  w_nodes w !! n = Some nd →
  modNode n f w = (Ret tt, set_nodes (<[n := f nd]> (w_nodes w)) w).
Proof. intros H. unfold modNode. rewrite H. reflexivity. Qed.

Lemma modGraph_ok g gr f w :
  w_graphs w !! g = Some gr →
  modGraph g f w = (Ret tt, set_graphs (<[g := f gr]> (w_graphs w)) w).
Proof. intros H. unfold modGraph. rewrite H. reflexivity. Qed.

(** ** Relations between the world before and after *)

Section Keeps.
Context (R : relation World) `{!PreOrder R}.

Lemma keeps_ret {A} (a : A) : keeps R (mret a).
Proof. intros w. simpl. reflexivity. Qed.

Lemma keeps_halt {A} s : keeps R (halt (A:=A) s).
Proof. intros w. simpl. reflexivity. Qed.

Lemma keeps_panic {A} v : keeps R (panic (A:=A) v).
Proof. apply keeps_halt. Qed.

Lemma keeps_bind {A B} (m : M A) (f : A → M B) :
  keeps R m → (∀ a, keeps R (f a)) → keeps R (m ≫= f).
Proof.
  intros Hm Hf w. rewrite run_bind. specialize (Hm w).
  destruct (m w) as [[a|s] w']; simpl in *; [|done].
  etrans; [exact Hm | apply Hf].
Qed.

Lemma keeps_forM {A} (l : list A) (f : A → M unit) :
  (∀ x, keeps R (f x)) → keeps R (forM_ l f).
Proof.
  intros Hf. induction l as [|x l IH]; simpl.
  - apply keeps_ret.
  - apply keeps_bind; auto.
Qed.

Lemma keeps_defer (d : option panicval → M unit) (body : M unit) :
  keeps R body → (∀ r, keeps R (d r)) → keeps R (with_defer d body).
Proof.
  intros Hb Hd w. unfold with_defer. specialize (Hb w).
  destruct (body w) as [[a|[v| |]] w']; simpl in *; try done.
  - etrans; [exact Hb | apply Hd].
  - etrans; [exact Hb | apply Hd].
Qed.

Lemma keeps_getNode n : keeps R (getNode n).
Proof. intros w. unfold getNode. destruct (w_nodes w !! n); simpl; reflexivity. Qed.

Lemma keeps_getGraph g : keeps R (getGraph g).
Proof. intros w. unfold getGraph. destruct (w_graphs w !! g); simpl; reflexivity. Qed.

Lemma keeps_wq_Len : keeps R wq_Len.
Proof. intros w. simpl. reflexivity. Qed.

Lemma keeps_sortByPriority s : keeps R (sortByPriority s).
Proof. intros w. simpl. reflexivity. Qed.

Lemma keeps_wg_Wait : keeps R wg_Wait.
Proof. intros w. unfold wg_Wait. case_decide; simpl; reflexivity. Qed.

Lemma keeps_pool_idle f : keeps R (pool_idle f).
Proof. apply keeps_ret. Qed.

Lemma keeps_pool_runs f : keeps R f → keeps R (pool_runs f).
Proof.
  intros Hf w. unfold pool_runs. specialize (Hf w).
  destruct (f w) as [[a|[v| |]] w']; simpl in *; done.
Qed.
End Keeps.

#[global] Instance same_preorder {X} (view : World → X) : PreOrder (same view).
Proof. split; unfold same; [intros w | intros w1 w2 w3 ? ?]; congruence. Qed.

Lemma node_view_lookup {X} (proj : innerNode → X) w n :
  node_view proj w !! n = proj <$> w_nodes w !! n.
Proof. apply lookup_fmap. Qed.

Lemma graph_view_lookup {X} (proj : eGraph → X) w g :
  graph_view proj w !! g = proj <$> w_graphs w !! g.
Proof. apply lookup_fmap. Qed.

Lemma fmap_insert_same {V X} (proj : V → X) (h : gmap positive V) k v v' :
  h !! k = Some v → proj v' = proj v → proj <$> <[k := v']> h = proj <$> h.
Proof.
  intros Hk Hp. rewrite fmap_insert, Hp.
  apply insert_id. rewrite lookup_fmap, Hk. reflexivity.
Qed.

Lemma same_modNode {X} (proj : innerNode → X) n f :
  (∀ x, proj (f x) = proj x) → keeps (same (node_view proj)) (modNode n f).
Proof.
  intros Hf w. unfold modNode, same, node_view.
  destruct (w_nodes w !! n) eqn:E; simpl; [|done].
  eapply fmap_insert_same; eauto.
Qed.

Lemma same_modGraph {X} (proj : eGraph → X) g f :
  (∀ x, proj (f x) = proj x) → keeps (same (graph_view proj)) (modGraph g f).
Proof.
  intros Hf w. unfold modGraph, same, graph_view.
  destruct (w_graphs w !! g) eqn:E; simpl; [|done].
  eapply fmap_insert_same; eauto.
Qed.

#[global] Instance node_view_graphs {X} (proj : innerNode → X) : GraphsApart (node_view proj).
Proof. done. Qed.
#[global] Instance node_view_queue {X} (proj : innerNode → X) : QueueApart (node_view proj).
Proof. done. Qed.
#[global] Instance node_view_wg {X} (proj : innerNode → X) : WaitGroupApart (node_view proj).
Proof. done. Qed.
#[global] Instance node_view_ghost {X} (proj : innerNode → X) : GhostApart (node_view proj).
Proof. done. Qed.
#[global] Instance graph_view_nodes {X} (proj : eGraph → X) : NodesApart (graph_view proj).
Proof. done. Qed.
#[global] Instance graph_view_queue {X} (proj : eGraph → X) : QueueApart (graph_view proj).
Proof. done. Qed.
#[global] Instance graph_view_wg {X} (proj : eGraph → X) : WaitGroupApart (graph_view proj).
Proof. done. Qed.
#[global] Instance graph_view_ghost {X} (proj : eGraph → X) : GhostApart (graph_view proj).
Proof. done. Qed.
#[global] Instance wq_nodes : NodesApart e_wq.
Proof. done. Qed.
#[global] Instance wq_graphs : GraphsApart e_wq.
Proof. done. Qed.
#[global] Instance wq_wg : WaitGroupApart e_wq.
Proof. done. Qed.
#[global] Instance wq_ghost : GhostApart e_wq.
Proof. done. Qed.
#[global] Instance wg_nodes : NodesApart e_wg.
Proof. done. Qed.
#[global] Instance wg_graphs : GraphsApart e_wg.
Proof. done. Qed.
#[global] Instance wg_queue : QueueApart e_wg.
Proof. done. Qed.
#[global] Instance wg_ghost : GhostApart e_wg.
Proof. done. Qed.

Section Apart.
Context {X} (view : World → X).

Lemma apart_modNode `{!NodesApart view} n f : keeps (same view) (modNode n f).
Proof.
  intros w. unfold modNode, same. destruct (w_nodes w !! n); simpl; [|done].
  apply nodes_apart.
Qed.

Lemma apart_modGraph `{!GraphsApart view} g f : keeps (same view) (modGraph g f).
Proof.
  intros w. unfold modGraph, same. destruct (w_graphs w !! g); simpl; [|done].
  apply graphs_apart.
Qed.

Lemma apart_wq_Put `{!QueueApart view} n : keeps (same view) (wq_Put n).
Proof. intros w. apply queue_apart. Qed.

Lemma apart_wq_PeakAndTake `{!QueueApart view} : keeps (same view) wq_PeakAndTake.
Proof.
  intros w. unfold wq_PeakAndTake, same. destruct (e_wq w); simpl; [done|].
  apply queue_apart.
Qed.

Lemma apart_wg_Add `{!WaitGroupApart view} d : keeps (same view) (wg_Add d).
Proof.
  intros w. unfold wg_Add, same. case_decide; simpl; [done|].
  apply waitgroup_apart.
Qed.

Lemma apart_trace_add `{!GhostApart view} n v : keeps (same view) (trace_add n v).
Proof. intros w. apply trace_apart. Qed.

Lemma apart_printf `{!GhostApart view} l : keeps (same view) (printf l).
Proof. intros w. apply stdout_apart. Qed.

Lemma apart_AddSpan `{!GhostApart view} s : keeps (same view) (profiler_AddSpan s).
Proof. intros w. apply profiler_apart. Qed.
End Apart.

(** ** Decomposing a computation along its structure *)

Create HintDb keeps discriminated.
Create HintDb taskflow discriminated.

#[global] Hint Unfold
  node_joinCounter_Increase node_joinCounter_Decrease node_joinCounter_Set
  graph_joinCounter_Increase graph_joinCounter_Decrease graph_joinCounter_Set
  state_Store canceled_Store scheCond_Signal wg_Done
  eGraph_JoinCounter eGraph_reset eGraph_push innerNode_JoinCounter
  innerNode_setup eGraph_setup innerNode_drop innerNode_precede
  sche_successors Static_call Condition_call Subflow_call
  invokeStatic_body invokeStatic_deferred invokeStatic
  invokeCondition_body invokeCondition_deferred invokeCondition
  invokeSubflow_body invokeSubflow_deferred invokeSubflow invokeNode
  invokeGraph_poll scheduleGraph_entries scheduleGraph_body scheduleGraph
  Run Wait : taskflow.

Ltac keeps_leaf :=
  first
    [ apply keeps_ret; apply _ | apply keeps_halt; apply _
    | apply keeps_panic; apply _
    | apply keeps_getNode; apply _ | apply keeps_getGraph; apply _
    | apply keeps_wq_Len; apply _
    | apply keeps_sortByPriority; apply _ | apply keeps_wg_Wait; apply _
    | apply apart_modNode; apply _
    | apply apart_modGraph; apply _
    | apply same_modNode; by intros []
    | apply same_modGraph; by intros []
    | apply apart_wq_Put; apply _
    | apply apart_wq_PeakAndTake; apply _
    | apply apart_wg_Add; apply _
    | apply apart_trace_add; apply _
    | apply apart_printf; apply _
    | apply apart_AddSpan; apply _
    | solve [eauto with keeps] ].

Ltac keeps_walk :=
  repeat
    (lazymatch goal with
     | |- keeps _ (mbind _ _) => apply keeps_bind; [apply _ | | intros ?]
     | |- keeps _ (forM_ _ _) => apply keeps_forM; [apply _ | intros ?]
     | |- keeps _ (with_defer _ _) => apply keeps_defer; [apply _ | | intros ?]
     | |- keeps _ (if ?c then _ else _) => destruct c
     | |- keeps _ (match ?x with _ => _ end) => destruct x
     | |- keeps _ (let _ := _ in _) => cbv zeta
     | |- keeps _ _ => first [ keeps_leaf | progress autounfold with taskflow ]
     end).

(** ** What never changes while the executor runs *)

(** The cancellation flags are not touched by [setup]. *)
Lemma eGraph_setup_same_canceled g :
  keeps (same (graph_view g_canceled)) (eGraph_setup g).
Proof. keeps_walk. Qed.

(** ** Running a computation step by step *)

Lemma run_seq {A B} (m : M A) (f : A → M B) w a w1 r w' :
  m w = (Ret a, w1) → f a w1 = (r, w') → (m ≫= f) w = (r, w').
Proof. intros H1 H2. rewrite run_bind, H1. exact H2. Qed.

Lemma run_ret {A} (a : A) w : (mret a : M A) w = (Ret a, w).
Proof. reflexivity. Qed.

Lemma run_halt {A} s w : halt (A:=A) s w = (Stop s, w).
Proof. reflexivity. Qed.

Lemma trace_add_ok n v w :
  trace_add n v w = (Ret tt, set_trace (w_trace w ++ [(n, v)]) w).
Proof. reflexivity. Qed.

Lemma wq_Put_ok n w : wq_Put n w = (Ret tt, set_wq (e_wq w ++ [n]) w).
Proof. reflexivity. Qed.

Lemma wq_Len_ok w : wq_Len w = (Ret (length (e_wq w)), w).
Proof. reflexivity. Qed.

Lemma printf_ok l w : printf l w = (Ret tt, set_stdout (w_stdout w ++ [l]) w).
Proof. reflexivity. Qed.

Lemma AddSpan_ok s w :
  profiler_AddSpan s w = (Ret tt, set_profiler (e_profiler w ++ [s]) w).
Proof. reflexivity. Qed.

(** The sort returns its argument rearranged, in ascending order of
    priority. *)
Lemma insert_left_Permutation w x before : insert_left w x before ≡ₚ x :: before.
Proof.
  induction before as [|y rest IH]; cbn [insert_left]; [done|].
  case_decide; [|done]. rewrite IH. apply Permutation_swap.
Qed.

Lemma insertionSortCmpFunc_Permutation w s : insertionSortCmpFunc w s ≡ₚ s.
Proof.
  unfold insertionSortCmpFunc. rewrite reverse_Permutation.
  assert (∀ before, foldl (λ before x, insert_left w x before) before s ≡ₚ s ++ before)
    as H; [|by rewrite H, app_nil_r].
  induction s as [|x s IH]; intros before; cbn [foldl]; [done|].
  rewrite IH, insert_left_Permutation. symmetry. apply Permutation_middle.
Qed.

Lemma insert_left_sorted w x before :
  StronglySorted (flip (priority_le w)) before →
  StronglySorted (flip (priority_le w)) (insert_left w x before).
Proof.
  induction before as [|y rest IH]; cbn [insert_left]; intros Hs.
  - repeat constructor.
  - apply StronglySorted_cons in Hs as [Hy Hrest]. case_decide as Hlt.
    + apply StronglySorted_cons. split; [|by apply IH].
      rewrite insert_left_Permutation. constructor; [|done].
      unfold flip, priority_le. lia.
    + apply StronglySorted_cons. split; [|by apply StronglySorted_cons].
      assert (priorityOf w y ≤ priorityOf w x) as Hyx by lia.
      constructor; [exact Hyx|].
      eapply Forall_impl; [exact Hy|]. unfold flip, priority_le. intros z Hz.
      simpl in *. lia.
Qed.

Lemma StronglySorted_reverse {A} (R : relation A) l :
  StronglySorted (flip R) l → StronglySorted R (reverse l).
Proof.
  induction l as [|x l IH]; intros Hs; [constructor|].
  apply StronglySorted_cons in Hs as [Hx Hl].
  rewrite reverse_cons. apply StronglySorted_app. split; [|split].
  - intros a b Ha Hb. apply list_elem_of_singleton in Hb as ->.
    rewrite elem_of_reverse in Ha. rewrite Forall_forall in Hx. exact (Hx a Ha).
  - by apply IH.
  - repeat constructor.
Qed.

Lemma insertionSortCmpFunc_sorted w s :
  StronglySorted (priority_le w) (insertionSortCmpFunc w s).
Proof.
  unfold insertionSortCmpFunc. apply StronglySorted_reverse.
  assert (∀ before, StronglySorted (flip (priority_le w)) before →
    StronglySorted (flip (priority_le w))
      (foldl (λ before x, insert_left w x before) before s)) as H;
    [|apply H; constructor].
  induction s as [|x s IH]; intros before Hs; cbn [foldl]; [done|].
  apply IH. by apply insert_left_sorted.
Qed.

Lemma sortByPriority_ok s w :
  sortByPriority s w = (Ret (insertionSortCmpFunc w s), w).
Proof. reflexivity. Qed.

Lemma wg_Add_one w : wg_Add 1 w = (Ret tt, set_wg (S (e_wg w)) w).
Proof. unfold wg_Add. case_decide; [lia|]. do 2 f_equal. lia. Qed.

Ltac world_simpl :=
  cbn [w_nodes w_graphs e_wq e_wg e_profiler w_stdout w_trace
       set_nodes set_graphs set_wq set_wg set_profiler set_stdout set_trace
       n_name n_successors n_dependents n_Typ n_ptr n_state n_joinCounter n_g
       n_priority n_calls node_set_state node_set_joinCounter node_set_g
       node_set_calls node_set_successors node_set_dependents
       g_name g_nodes g_joinCounter g_entries g_scheCond g_instancelized g_canceled
       graph_set_nodes graph_set_joinCounter graph_set_entries graph_set_scheCond
       graph_set_instancelized graph_set_canceled fst snd].

Ltac lookup_solve :=
  world_simpl;
  repeat first
    [ rewrite lookup_insert_eq
    | rewrite lookup_insert_ne by (first [assumption | congruence | done]) ];
  first [ eassumption | reflexivity ].

Ltac head_of t := lazymatch t with ?f _ => head_of f | _ => t end.

(** [mrun] proves [m w = (?r, ?w')] by running [m]; it stops at the first
    branch whose condition the context does not decide. *)
Ltac mrun :=
  world_simpl;
  lazymatch goal with
  | |- (mbind _ _) _ = _ =>
      first [ eapply run_seq; [ mrun | cbv beta; mrun ]
            | eapply run_bind_stop; mrun ]
  | |- @mret _ _ _ _ _ = _ => apply run_ret
  | |- halt _ _ = _ => apply run_halt
  | |- panic _ _ = _ => apply run_halt
  | |- getNode _ _ = _ => apply getNode_ok; lookup_solve
  | |- getGraph _ _ = _ => apply getGraph_ok; lookup_solve
  | |- modNode _ _ _ = _ => apply modNode_ok; lookup_solve
  | |- modGraph _ _ _ = _ => apply modGraph_ok; lookup_solve
  | |- trace_add _ _ _ = _ => apply trace_add_ok
  | |- wq_Put _ _ = _ => apply wq_Put_ok
  | |- wq_Len _ = _ => apply wq_Len_ok
  | |- printf _ _ = _ => apply printf_ok
  | |- profiler_AddSpan _ _ = _ => apply AddSpan_ok
  | |- wg_Add 1 _ = _ => apply wg_Add_one
  | |- (if ?c then _ else _) _ = _ =>
      tryif
        first [ rewrite decide_True by (first [assumption | done | lia])
              | rewrite decide_False by (first [assumption | done | lia])
              | match goal with H : c = _ |- _ => rewrite H end ]
      then mrun else idtac
  | |- (match ?x with _ => _ end) _ = _ =>
      tryif match goal with H : x = _ |- _ => rewrite H end
      then mrun else idtac
  | |- schedule (_ :: _) _ = _ => cbn [schedule]; mrun
  | |- schedule [] _ = _ => apply run_ret
  | |- schedule _ _ = _ => apply surjective_pairing
  | |- forM_ [] _ _ = _ => apply run_ret
  | |- forM_ (_ :: _) _ _ = _ => cbn [forM_]; mrun
  | |- ?m _ = _ => let h := head_of m in unfold h; mrun
  end.

(** Split [(m ≫= f) w] on how [m] ends. *)
Ltac bind_cases a s w1 E :=
  rewrite run_bind;
  lazymatch goal with
  | |- context [match ?m ?w with _ => _ end] =>
      destruct (m w) as [[a|s] w1] eqn:E
  end.

(** * Cancellation and setup *)

(** C3 (as the code has it): setup on a graph leaves every cancellation flag
    as it was; in particular a flag latched true is still true afterwards. *)
Theorem eGraph_setup_leaves_canceled (g g' : positive) (w : World) :
  g_canceled <$> w_graphs (eGraph_setup g w).2 !! g'
  = g_canceled <$> w_graphs w !! g'.
Proof.
  pose proof (eGraph_setup_same_canceled g w) as H. unfold same in H.
  rewrite <- !graph_view_lookup, H. reflexivity.
Qed.

(** C3, the claim fails: the flag of [latched_world] is true before setup and
    is not false after it. *)
Lemma eGraph_setup_does_not_reset_canceled :
  g_canceled <$> w_graphs latched_world !! 1%positive = Some true ∧
  (eGraph_setup 1 latched_world).1 = Ret tt ∧
  g_canceled <$> w_graphs (eGraph_setup 1 latched_world).2 !! 1%positive ≠ Some false.
Proof. vm_compute. repeat split; discriminate. Qed.

(** * schedule on a cancelled graph *)

(** C9: when the owning graph of the vertex is cancelled, schedule returns
    at once; the work queue, the wait counter, every vertex (state and
    join-counter) and the trace of state stores are unchanged, and of the
    graphs only the signal count of the owning graph moves, by one. *)
Theorem schedule_on_canceled_graph (w : World) (node : positive)
    (rest : list positive) (nd : innerNode) (gr : eGraph) :
  w_nodes w !! node = Some nd →
  w_graphs w !! n_g nd = Some gr →
  g_canceled gr = true →
  let r := schedule (node :: rest) w in
  r.1 = Ret tt ∧
  e_wq r.2 = e_wq w ∧
  e_wg r.2 = e_wg w ∧
  w_nodes r.2 = w_nodes w ∧
  w_trace r.2 = w_trace w ∧
  w_graphs r.2 = <[n_g nd := graph_set_scheCond (S (g_scheCond gr)) gr]> (w_graphs w).
Proof.
  intros Hn Hg Hc.
  assert (schedule (node :: rest) w =
    (Ret tt,
     set_stdout (w_stdout w ++ [LogNotScheduled (n_name nd) (g_name gr)])
       (set_graphs (<[n_g nd := graph_set_scheCond (S (g_scheCond gr)) gr]> (w_graphs w)) w)))
    as ->.
  { etrans; [mrun | reflexivity]. }
  repeat split.
Qed.

(** C9 at [latched_world]. *)
Lemma schedule_on_canceled_graph_witness :
  let r := schedule [1%positive] latched_world in
  r.1 = Ret tt ∧ e_wq r.2 = [] ∧ e_wg r.2 = 0%nat ∧
  w_nodes r.2 = w_nodes latched_world ∧ w_trace r.2 = [] ∧
  w_graphs r.2 =
    <[1%positive := graph_set_scheCond 1 (graph "g" [1%positive] true)]>
      (w_graphs latched_world).
Proof.
  exact (schedule_on_canceled_graph latched_world 1 []
           (vertex "A" [] [] nodeStatic (PStatic returns) 1 2)
           (graph "g" [1%positive] true) eq_refl eq_refl eq_refl).
Defined.

(** * Views that the scheduler preserves *)

Lemma node_view_transport {X} (proj : innerNode → X) w w' n nd :
  same (node_view proj) w w' → w_nodes w !! n = Some nd →
  ∃ nd', w_nodes w' !! n = Some nd' ∧ proj nd' = proj nd.
Proof.
  intros H Hn. unfold same in H.
  assert (node_view proj w' !! n = node_view proj w !! n) as E by (by rewrite H).
  rewrite !node_view_lookup, Hn in E.
  destruct (w_nodes w' !! n) as [nd'|]; simplify_eq/=. eauto.
Qed.

Lemma graph_view_transport {X} (proj : eGraph → X) w w' g gr :
  same (graph_view proj) w w' → w_graphs w !! g = Some gr →
  ∃ gr', w_graphs w' !! g = Some gr' ∧ proj gr' = proj gr.
Proof.
  intros H Hg. unfold same in H.
  assert (graph_view proj w' !! g = graph_view proj w !! g) as E by (by rewrite H).
  rewrite !graph_view_lookup, Hg in E.
  destruct (w_graphs w' !! g) as [gr'|]; simplify_eq/=. eauto.
Qed.

Lemma node_view_at {X} (proj : innerNode → X) w w' n :
  same (node_view proj) w w' → proj <$> w_nodes w' !! n = proj <$> w_nodes w !! n.
Proof. intros B. rewrite <- !node_view_lookup. unfold same in B. by rewrite B. Qed.

Lemma graph_view_at {X} (proj : eGraph → X) w w' g :
  same (graph_view proj) w w' → proj <$> w_graphs w' !! g = proj <$> w_graphs w !! g.
Proof. intros B. rewrite <- !graph_view_lookup. unfold same in B. by rewrite B. Qed.

Lemma built_inv nd nd' :
  built nd' = built nd →
  n_name nd' = n_name nd ∧ n_successors nd' = n_successors nd ∧
  n_dependents nd' = n_dependents nd ∧ n_Typ nd' = n_Typ nd ∧
  n_ptr nd' = n_ptr nd ∧ n_g nd' = n_g nd ∧ n_priority nd' = n_priority nd.
Proof. unfold built. intros H. by simplify_eq. Qed.

Lemma priorityOf_same w w' n :
  same (node_view built) w w' → priorityOf w' n = priorityOf w n.
Proof.
  intros H. unfold priorityOf.
  destruct (w_nodes w !! n) as [nd|] eqn:E.
  - destruct (node_view_transport built w w' n nd H E) as (nd' & -> & Hb).
    apply built_inv in Hb. simpl. tauto.
  - unfold same in H.
    assert (node_view built w' !! n = node_view built w !! n) as E' by (by rewrite H).
    rewrite !node_view_lookup, E in E'.
    destruct (w_nodes w' !! n); simplify_eq/=. done.
Qed.

(** [candidates] only reads. *)
Lemma candidates_keeps (R : relation World) `{!PreOrder R} l :
  keeps R (candidates l).
Proof. induction l as [|n l IH]; cbn [candidates]; keeps_walk. Qed.

#[global] Hint Extern 1 (keeps _ (candidates _)) =>
  apply candidates_keeps; apply _ : keeps.

Lemma schedule_same_built l : keeps (same (node_view built)) (schedule l).
Proof. induction l as [|n l IH]; cbn [schedule]; keeps_walk. Qed.

Lemma schedule_same_canceled l : keeps (same (graph_view g_canceled)) (schedule l).
Proof. induction l as [|n l IH]; cbn [schedule]; keeps_walk. Qed.

Lemma schedule_same_instancelized l :
  keeps (same (graph_view g_instancelized)) (schedule l).
Proof. induction l as [|n l IH]; cbn [schedule]; keeps_walk. Qed.

(** The set of allocated vertices, as a view. *)
Lemma schedule_same_allocated l :
  keeps (same (node_view (λ _, ()))) (schedule l).
Proof. induction l as [|n l IH]; cbn [schedule]; keeps_walk. Qed.

Lemma schedule_same_calls l : keeps (same (node_view n_calls)) (schedule l).
Proof. induction l as [|n l IH]; cbn [schedule]; keeps_walk. Qed.

#[global] Hint Resolve schedule_same_built schedule_same_canceled
  schedule_same_instancelized schedule_same_allocated schedule_same_calls : keeps.

#[global] Instance jc_mono_preorder : PreOrder jc_mono.
Proof.
  split.
  - intros w n x Hx. exists x. split; [done | lia].
  - intros w1 w2 w3 H12 H23 n x Hx.
    destruct (H12 n x Hx) as (x2 & Hx2 & ?).
    destruct (H23 n x2 Hx2) as (x3 & Hx3 & ?).
    exists x3. split; [done | lia].
Qed.

#[global] Instance w_nodes_graphs : GraphsApart w_nodes.
Proof. done. Qed.
#[global] Instance w_nodes_queue : QueueApart w_nodes.
Proof. done. Qed.
#[global] Instance w_nodes_wg : WaitGroupApart w_nodes.
Proof. done. Qed.
#[global] Instance w_nodes_ghost : GhostApart w_nodes.
Proof. done. Qed.

Lemma jc_mono_modNode n f :
  (∀ x, n_joinCounter x ≤ n_joinCounter (f x)) → keeps jc_mono (modNode n f).
Proof.
  intros Hf w. unfold modNode.
  destruct (w_nodes w !! n) as [nd|] eqn:E; simpl; [|reflexivity].
  intros m x Hx. world_simpl. destruct (decide (n = m)) as [->|Hne].
  - rewrite lookup_insert_eq. simplify_eq. eauto.
  - rewrite lookup_insert_ne by done. exists x. split; [done | lia].
Qed.

Lemma jc_mono_of_same_nodes {A} (m : M A) :
  keeps (same w_nodes) m → keeps jc_mono m.
Proof.
  intros H w n x Hx. specialize (H w). unfold same in H. rewrite H.
  exists x. split; [done | lia].
Qed.

#[global] Hint Extern 1 (keeps jc_mono (modNode _ _)) =>
  apply jc_mono_modNode; intros []; cbn; lia : keeps.
#[global] Hint Extern 2 (keeps jc_mono _) =>
  apply jc_mono_of_same_nodes; keeps_leaf : keeps.

Lemma schedule_jc_mono l : keeps jc_mono (schedule l).
Proof. induction l as [|n l IH]; cbn [schedule]; keeps_walk. Qed.

#[global] Hint Resolve schedule_jc_mono : keeps.

Lemma innerNode_setup_jc_mono n : keeps jc_mono (innerNode_setup n).
Proof. keeps_walk. Qed.

(** * Condition vertices *)

(** [drop] on a vertex of kind condition changes nothing. *)
Lemma innerNode_drop_condition n nd w :
  w_nodes w !! n = Some nd → n_Typ nd = nodeCondition →
  innerNode_drop n w = (Ret tt, w).
Proof.
  intros Hn HT. unfold innerNode_drop.
  rewrite (run_bind_ret _ _ _ _ _ (getNode_ok _ _ _ Hn)).
  induction (n_successors nd) as [|s l IH]; [reflexivity|].
  cbn [forM_].
  eapply run_seq; [|exact IH].
  rewrite (run_bind_ret _ _ _ _ _ (getNode_ok _ _ _ Hn)).
  rewrite decide_False by (intros H; by apply H). reflexivity.
Qed.

Lemma invokeCondition_body_same_built node p :
  keeps (same (node_view built)) (invokeCondition_body node p).
Proof. keeps_walk. Qed.

Lemma invokeCondition_body_jc_mono node p :
  keeps jc_mono (invokeCondition_body node p).
Proof. keeps_walk. Qed.

Lemma invokeCondition_deferred_same_wq node sp r :
  keeps (same e_wq) (invokeCondition_deferred node sp r).
Proof. keeps_walk. Qed.

(** The finalizer of a condition vertex lowers no join-counter. *)
Lemma invokeCondition_deferred_jc_mono node sp r nd w :
  w_nodes w !! node = Some nd → n_Typ nd = nodeCondition →
  jc_mono w (invokeCondition_deferred node sp r w).2.
Proof.
  intros Hn HT. unfold invokeCondition_deferred.
  set (first := match r with Some _ => _ | None => _ end).
  assert (keeps jc_mono first) as K1 by (subst first; keeps_walk).
  assert (keeps (same (node_view built)) first) as K2 by (subst first; keeps_walk).
  bind_cases a s w1 E; specialize (K1 w); specialize (K2 w); rewrite E in K1, K2;
    simpl in K1, K2; [|exact K1].
  destruct (node_view_transport built _ _ _ _ K2 Hn) as (nd1 & Hn1 & Hb).
  apply built_inv in Hb. destruct Hb as (_ & _ & _ & HT1 & _).
  rewrite (run_bind_ret _ _ _ _ _ (innerNode_drop_condition _ _ _ Hn1 ltac:(congruence))).
  etrans; [exact K1|].
  match goal with |- jc_mono _ (?m _).2 => assert (keeps jc_mono m) as K3 by keeps_walk end.
  apply K3.
Qed.

(** The body of the condition invoker when the choice is in range and the
    chosen vertex can be scheduled. *)
Lemma invokeCondition_body_in_range w node nd p k chosen ndc grc :
  w_nodes w !! node = Some nd →
  c_handle p (n_calls nd) = Returns k →
  c_mapper p !! N.to_nat k = Some chosen →
  w_nodes w !! chosen = Some ndc →
  w_graphs w !! n_g ndc = Some grc →
  g_canceled grc = false →
  ∃ wb, invokeCondition_body node p w = (Ret tt, wb) ∧
        e_wq wb = e_wq w ++ [chosen].
Proof.
  intros Hn Hk Hm Hc Hg Hl.
  assert (¬ (N.of_nat (length (c_mapper p)) < k)%N) as Hguard.
  { apply lookup_lt_Some in Hm. lia. }
  destruct (decide (chosen = node)) as [->|Hne].
  - simplify_eq. eexists. split; [mrun | reflexivity].
  - eexists. split; [mrun | reflexivity].
Qed.

(** C6: when the user function of a condition vertex returns [k] and the
    [k]-th successor can be scheduled (it exists and its graph is not
    cancelled), the completion of the condition vertex adds exactly that
    successor to the work queue and nothing else; no vertex has a lower
    join-counter afterwards, and [drop] on the condition vertex is a no-op. *)
Theorem invokeCondition_schedules_only_the_choice (w : World) (node : positive)
    (parentSpan : option span) (nd : innerNode) (p : Condition) (k : N)
    (chosen : positive) (ndc : innerNode) (grc : eGraph) :
  w_nodes w !! node = Some nd →
  n_Typ nd = nodeCondition →
  c_handle p (n_calls nd) = Returns k →
  c_mapper p !! N.to_nat k = Some chosen →
  w_nodes w !! chosen = Some ndc →
  w_graphs w !! n_g ndc = Some grc →
  g_canceled grc = false →
  let w' := (invokeCondition node parentSpan p w).2 in
  e_wq w' = e_wq w ++ [chosen] ∧
  jc_mono w w' ∧
  innerNode_drop node w = (Ret tt, w).
Proof.
  intros Hn HT Hk Hm Hc Hg Hl w'. subst w'.
  destruct (invokeCondition_body_in_range _ _ _ _ _ _ _ _ Hn Hk Hm Hc Hg Hl)
    as (wb & Hb & Hq).
  pose proof (invokeCondition_body_same_built node p w) as K1.
  pose proof (invokeCondition_body_jc_mono node p w) as K2.
  rewrite Hb in K1, K2. simpl in K1, K2.
  destruct (node_view_transport built _ _ _ _ K1 Hn) as (nd1 & Hn1 & Hbl).
  apply built_inv in Hbl. destruct Hbl as (_ & _ & _ & HT1 & _).
  unfold invokeCondition.
  rewrite (run_bind_ret _ _ _ _ _ (getNode_ok _ _ _ Hn)). cbv zeta.
  unfold with_defer. rewrite Hb.
  split; [|split].
  - rewrite (invokeCondition_deferred_same_wq _ _ _ wb). exact Hq.
  - etrans; [exact K2|].
    eapply invokeCondition_deferred_jc_mono; [exact Hn1 | congruence].
  - eapply innerNode_drop_condition; eauto.
Qed.

(** C6 at [condition_world 1]: the condition returns 1 and Y is enqueued. *)
Lemma invokeCondition_schedules_only_the_choice_witness :
  let w' := (invokeCondition 1 None (chooses 1) (condition_world 1)).2 in
  e_wq w' = e_wq (condition_world 1) ++ [3%positive] ∧
  jc_mono (condition_world 1) w' ∧
  innerNode_drop 1 (condition_world 1) = (Ret tt, condition_world 1).
Proof.
  exact (invokeCondition_schedules_only_the_choice (condition_world 1) 1 None
           (vertex "cond" [2; 3; 4]%positive [] nodeCondition
              (PCondition (chooses 1)) 1 2)
           (chooses 1) 1 3
           (vertex "Y" [] [1%positive] nodeStatic (PStatic returns) 1 2)
           (graph "g" [1; 2; 3; 4]%positive false)
           eq_refl eq_refl eq_refl eq_refl eq_refl eq_refl eq_refl).
Defined.

(** C1, at the boundary: when the user function returns exactly the number
    of successors, the guard [choice > len(mapper)] does not fire.  The
    invoker stores the state finished and then fails on [mapper[choice]]
    with a runtime error instead of the diagnostic; nothing is enqueued. *)
Theorem invokeCondition_choice_equal_to_length (w : World) (node : positive)
    (nd : innerNode) (p : Condition) :
  w_nodes w !! node = Some nd →
  c_handle p (n_calls nd) = Returns (N.of_nat (length (c_mapper p))) →
  let r := invokeCondition_body node p w in
  r.1 = Stop (Panic IndexOutOfRange) ∧
  w_trace r.2 = w_trace w ++ [(node, kNodeStateRunning); (node, kNodeStateFinished)] ∧
  e_wq r.2 = e_wq w.
Proof.
  intros Hn Hc.
  assert (Hm : c_mapper p !! N.to_nat (N.of_nat (length (c_mapper p))) = None).
  { apply lookup_ge_None_2. lia. }
  assert (∃ w', invokeCondition_body node p w = (Stop (Panic IndexOutOfRange), w')
    ∧ w_trace w' = w_trace w ++ [(node, kNodeStateRunning); (node, kNodeStateFinished)]
    ∧ e_wq w' = e_wq w) as (w' & -> & ? & ?).
  { eexists. split; [mrun|]. world_simpl. rewrite <- app_assoc. done. }
  done.
Qed.

(** C1 at [condition_world 3]: three successors and the choice 3. *)
Lemma invokeCondition_choice_equal_to_length_witness :
  let r := invokeCondition_body 1 (chooses 3) (condition_world 3) in
  r.1 = Stop (Panic IndexOutOfRange) ∧
  w_trace r.2 = w_trace (condition_world 3)
                ++ [(1%positive, kNodeStateRunning); (1%positive, kNodeStateFinished)] ∧
  e_wq r.2 = e_wq (condition_world 3).
Proof.
  exact (invokeCondition_choice_equal_to_length (condition_world 3) 1
           (vertex "cond" [2; 3; 4]%positive [] nodeCondition
              (PCondition (chooses 3)) 1 2)
           (chooses 3) eq_refl eq_refl).
Defined.

(** Past the boundary the guard does fire: the diagnostic is raised while the
    state is still running, and nothing is enqueued. *)
Lemma invokeCondition_choice_above_length w node nd p k again :
  w_nodes w !! node = Some nd →
  c_handle p (n_calls nd) = Returns k →
  (N.of_nat (length (c_mapper p)) < k)%N →
  c_handle p (S (n_calls nd)) = Returns again →
  let r := invokeCondition_body node p w in
  r.1 = Stop (Panic (ConditionDiag again)) ∧
  w_trace r.2 = w_trace w ++ [(node, kNodeStateRunning)] ∧
  e_wq r.2 = e_wq w.
Proof.
  intros Hn Hk Hlt Ha.
  assert (∃ w', invokeCondition_body node p w = (Stop (Panic (ConditionDiag again)), w')
    ∧ w_trace w' = w_trace w ++ [(node, kNodeStateRunning)]
    ∧ e_wq w' = e_wq w) as (w' & -> & ? & ?).
  { eexists. split; [mrun|]. done. }
  done.
Qed.

(** * Priority order of what is enqueued *)

Lemma keeps_run {A} (R : relation World) (m : M A) w r w' :
  keeps R m → m w = (r, w') → R w w'.
Proof. intros K E. specialize (K w). by rewrite E in K. Qed.

#[global] Instance priority_le_total w : Total (priority_le w).
Proof. intros i j. unfold priority_le. lia. Qed.

#[global] Instance priority_le_trans w : Transitive (priority_le w).
Proof. intros i j k. unfold priority_le. lia. Qed.

Lemma StronglySorted_weaken {A} (R R' : relation A) l :
  (∀ x y, R x y → R' x y) → StronglySorted R l → StronglySorted R' l.
Proof.
  intros HR. induction 1 as [|x l Hs IH Hx]; constructor; [done|].
  eapply Forall_impl; [exact Hx | auto].
Qed.

(** What [schedule] appends to the work queue is a prefix of its argument:
    it stops at the first vertex whose graph is cancelled. *)
Lemma schedule_wq_prefix l w :
  ∃ pushed, pushed `prefix_of` l ∧ e_wq (schedule l w).2 = e_wq w ++ pushed.
Proof.
  revert w. induction l as [|n l IH]; intros w.
  { exists []. split; [done | by rewrite app_nil_r]. }
  assert (∀ w', e_wq w' = e_wq w →
    ∃ pushed, pushed `prefix_of` n :: l ∧ e_wq w' = e_wq w ++ pushed) as Hnil.
  { intros w' E. exists []. split; [apply prefix_nil | by rewrite app_nil_r]. }
  assert (∀ w0 w', e_wq w0 = e_wq w ++ [n] → e_wq w' = e_wq w0 →
    ∃ pushed, pushed `prefix_of` n :: l ∧ e_wq w' = e_wq w ++ pushed) as Hone.
  { intros w0 w' E0 E. exists [n]. split; [apply prefix_cons, prefix_nil | congruence]. }
  cbn [schedule]. rewrite run_bind. unfold getNode at 1.
  destruct (w_nodes w !! n) as [nd|]; [|by apply Hnil].
  rewrite run_bind. unfold getGraph at 1.
  destruct (w_graphs w !! n_g nd) as [gr|]; [|by apply Hnil].
  destruct (g_canceled gr).
  { apply Hnil.
    match goal with |- e_wq (?m _).2 = _ =>
      assert (keeps (same e_wq) m) as K by keeps_walk end.
    apply K. }
  bind_cases a1 s1 w1 E1.
  2:{ apply Hnil. eapply (keeps_run (same e_wq)); [|exact E1]. keeps_walk. }
  assert (e_wq w1 = e_wq w) as Q1.
  { eapply (keeps_run (same e_wq)); [|exact E1]. keeps_walk. }
  rewrite run_bind, wg_Add_one. rewrite run_bind, wq_Put_ok.
  set (w2 := set_wq _ _).
  assert (e_wq w2 = e_wq w ++ [n]) as Q2 by (subst w2; world_simpl; by rewrite Q1).
  bind_cases a3 s3 w3 E3.
  2:{ eapply Hone; [exact Q2|]. eapply (keeps_run (same e_wq)); [|exact E3]. keeps_walk. }
  assert (e_wq w3 = e_wq w2) as Q3.
  { eapply (keeps_run (same e_wq)); [|exact E3]. keeps_walk. }
  bind_cases a4 s4 w4 E4.
  2:{ eapply Hone; [exact Q2|]. etrans; [|exact Q3].
      eapply (keeps_run (same e_wq)); [|exact E4]. keeps_walk. }
  assert (e_wq w4 = e_wq w3) as Q4.
  { eapply (keeps_run (same e_wq)); [|exact E4]. keeps_walk. }
  destruct (IH w4) as (pushed & Hp & Hq).
  exists (n :: pushed). split; [by apply prefix_cons|].
  rewrite Hq, Q4, Q3, Q2, <- app_assoc. reflexivity.
Qed.

(** Scheduling a slice sorted by priority enqueues vertices in ascending
    order of priority. *)
Lemma schedule_sorted w0 w l :
  same (node_view built) w0 w →
  StronglySorted (priority_le w) l →
  ∃ pushed, e_wq (schedule l w).2 = e_wq w ++ pushed ∧
            StronglySorted (priority_le w0) pushed.
Proof.
  intros Hb Hs. destruct (schedule_wq_prefix l w) as (pushed & [k ->] & Hq).
  exists pushed. split; [done|].
  apply StronglySorted_app_1_l in Hs.
  eapply StronglySorted_weaken; [|exact Hs].
  intros i j. unfold priority_le. by rewrite !(priorityOf_same w0 w).
Qed.

Lemma nothing_pushed w w' :
  e_wq w' = e_wq w →
  ∃ pushed, e_wq w' = e_wq w ++ pushed ∧ StronglySorted (priority_le w) pushed.
Proof. intros E. exists []. split; [by rewrite app_nil_r | constructor]. Qed.

Lemma sche_successors_sorted node w :
  ∃ pushed, e_wq (sche_successors node w).2 = e_wq w ++ pushed ∧
            StronglySorted (priority_le w) pushed.
Proof.
  unfold sche_successors. rewrite run_bind. unfold getNode at 1.
  destruct (w_nodes w !! node) as [nd|]; [|by apply nothing_pushed].
  bind_cases c s1 w1 E1.
  2:{ apply nothing_pushed. eapply (keeps_run (same e_wq)); [|exact E1]. keeps_walk. }
  assert (e_wq w1 = e_wq w) as Q1.
  { eapply (keeps_run (same e_wq)); [|exact E1]. keeps_walk. }
  assert (same (node_view built) w w1) as B1.
  { eapply keeps_run; [|exact E1]. keeps_walk. }
  rewrite run_bind. unfold sortByPriority at 1.
  bind_cases a2 s2 w2 E2.
  2:{ apply nothing_pushed. etrans; [|exact Q1].
      eapply (keeps_run (same e_wq)); [|exact E2]. keeps_walk. }
  assert (e_wq w2 = e_wq w1) as Q2.
  { eapply (keeps_run (same e_wq)); [|exact E2]. keeps_walk. }
  assert (same (node_view built) w1 w2) as B2.
  { eapply keeps_run; [|exact E2]. keeps_walk. }
  destruct (schedule_sorted w w2 (insertionSortCmpFunc w1 c)) as (pushed & Hq & Hs).
  - etrans; eassumption.
  - eapply StronglySorted_weaken; [|apply insertionSortCmpFunc_sorted].
    intros i j. unfold priority_le. by rewrite !(priorityOf_same w1 w2).
  - exists pushed. split; [|done]. by rewrite Hq, Q2, Q1.
Qed.

Lemma scheduleGraph_entries_sorted g w :
  ∃ pushed, e_wq (scheduleGraph_entries g w).2 = e_wq w ++ pushed ∧
            StronglySorted (priority_le w) pushed.
Proof.
  unfold scheduleGraph_entries.
  bind_cases a1 s1 w1 E1.
  2:{ apply nothing_pushed. eapply (keeps_run (same e_wq)); [|exact E1]. keeps_walk. }
  assert (e_wq w1 = e_wq w) as Q1.
  { eapply (keeps_run (same e_wq)); [|exact E1]. keeps_walk. }
  assert (same (node_view built) w w1) as B1.
  { eapply keeps_run; [|exact E1]. keeps_walk. }
  rewrite run_bind. unfold getGraph at 1.
  destruct (w_graphs w1 !! g) as [gr|]; [|by apply nothing_pushed].
  rewrite run_bind. unfold sortByPriority at 1.
  bind_cases a2 s2 w2 E2.
  2:{ apply nothing_pushed. etrans; [|exact Q1].
      eapply (keeps_run (same e_wq)); [|exact E2]. keeps_walk. }
  assert (e_wq w2 = e_wq w1) as Q2.
  { eapply (keeps_run (same e_wq)); [|exact E2]. keeps_walk. }
  assert (same (node_view built) w1 w2) as B2.
  { eapply keeps_run; [|exact E2]. keeps_walk. }
  destruct (schedule_sorted w w2 (insertionSortCmpFunc w1 (g_entries gr)))
    as (pushed & Hq & Hs).
  - etrans; eassumption.
  - eapply StronglySorted_weaken; [|apply insertionSortCmpFunc_sorted].
    intros i j. unfold priority_le. by rewrite !(priorityOf_same w1 w2).
  - exists pushed. split; [|done]. by rewrite Hq, Q2, Q1.
Qed.

(** * Run and the dispatcher loop *)

Lemma invokeGraph_poll_spec g w :
  invokeGraph_poll g w =
    match w_graphs w !! g with
    | None => (Stop (Panic NilDeref), w)
    | Some gr =>
        (Ret (if decide (g_joinCounter gr ≠ 0 ∧ length (e_wq w) = 0%nat
                         ∧ g_canceled gr = false) then Waits
              else if decide (g_joinCounter gr = 0 ∨ g_canceled gr = true) then Breaks
              else Takes), w)
    end.
Proof.
  unfold invokeGraph_poll, eGraph_JoinCounter, getGraph, wq_Len,
    mbind, M_bind, mret, M_ret.
  destruct (w_graphs w !! g) as [gr|] eqn:E; [|reflexivity].
  rewrite E. repeat case_decide; reflexivity.
Qed.

(** The dispatcher loop returns only from a poll that saw the join-counter
    of the graph at zero or its cancellation flag set. *)
Lemma invokeGraph_returns Go fuel g parentSpan w w' :
  invokeGraph Go fuel g parentSpan w = (Ret tt, w') →
  ∃ gr, w_graphs w' !! g = Some gr ∧ (g_joinCounter gr = 0 ∨ g_canceled gr = true).
Proof.
  revert w. induction fuel as [|fuel IH]; intros w; cbn [invokeGraph]; [done|].
  rewrite run_bind, invokeGraph_poll_spec.
  destruct (w_graphs w !! g) as [gr|] eqn:E; [|done].
  case_decide; [done|]. case_decide.
  - intros [= <-]. eauto.
  - rewrite run_bind. destruct (wq_PeakAndTake w) as [[node|s] w1]; [|done].
    rewrite run_bind.
    destruct (invokeNode _ _ _ _ _) as [[[]|s] w2]; [|done].
    apply IH.
Qed.

(** * Vertex states *)

#[global] Instance trace_adds_preorder P : PreOrder (trace_adds P).
Proof.
  split.
  - intros w. exists []. split; [by rewrite app_nil_r | constructor].
  - intros w1 w2 w3 (t1 & E1 & F1) (t2 & E2 & F2).
    exists (t1 ++ t2). split; [by rewrite E2, E1, app_assoc | by apply Forall_app].
Qed.

#[global] Instance w_trace_nodes : NodesApart w_trace.
Proof. done. Qed.
#[global] Instance w_trace_graphs : GraphsApart w_trace.
Proof. done. Qed.
#[global] Instance w_trace_queue : QueueApart w_trace.
Proof. done. Qed.
#[global] Instance w_trace_wg : WaitGroupApart w_trace.
Proof. done. Qed.

Lemma w_trace_printf l : keeps (same w_trace) (printf l).
Proof. by intros w. Qed.

Lemma w_trace_AddSpan s : keeps (same w_trace) (profiler_AddSpan s).
Proof. by intros w. Qed.

#[global] Hint Resolve w_trace_printf w_trace_AddSpan : keeps.

Lemma trace_adds_of_same_trace {A} P (m : M A) :
  keeps (same w_trace) m → keeps (trace_adds P) m.
Proof.
  intros H w. specialize (H w). unfold same in H.
  exists []. split; [by rewrite app_nil_r | constructor].
Qed.

Lemma trace_adds_trace_add (P : positive * Z → Prop) n v :
  P (n, v) → keeps (trace_adds P) (trace_add n v).
Proof. intros HP w. exists [(n, v)]. split; [done | by constructor]. Qed.

#[global] Hint Extern 1 (keeps (trace_adds not_failed) (trace_add _ _)) =>
  apply trace_adds_trace_add; unfold not_failed; simpl; discriminate : keeps.
#[global] Hint Extern 1 (keeps (trace_adds is_waiting) (trace_add _ _)) =>
  apply trace_adds_trace_add; reflexivity : keeps.
#[global] Hint Extern 2 (keeps (trace_adds _) _) =>
  apply trace_adds_of_same_trace; keeps_leaf : keeps.

Lemma schedule_not_failed l : keeps (trace_adds not_failed) (schedule l).
Proof. induction l as [|n l IH]; cbn [schedule]; keeps_walk. Qed.

Lemma schedule_is_waiting l : keeps (trace_adds is_waiting) (schedule l).
Proof. induction l as [|n l IH]; cbn [schedule]; keeps_walk. Qed.

#[global] Hint Resolve schedule_not_failed schedule_is_waiting : keeps.

Lemma pool_runs_keeps R `{!PreOrder R} : pool_keeps R pool_runs.
Proof. intros f. by apply keeps_pool_runs. Qed.

Lemma pool_idle_keeps R `{!PreOrder R} : pool_keeps R pool_idle.
Proof. intros f _. by apply keeps_pool_idle. Qed.

Ltac keeps_fuel HGo :=
  let fuel := fresh "fuel" in
  let IH := fresh "IH" in
  intros fuel; induction fuel as [|fuel IH]; intros ? ?; cbn [invokeGraph];
  keeps_walk; apply HGo; keeps_walk.

Lemma invokeGraph_not_failed Go :
  pool_keeps (trace_adds not_failed) Go →
  ∀ fuel g parentSpan, keeps (trace_adds not_failed) (invokeGraph Go fuel g parentSpan).
Proof. intros HGo. keeps_fuel HGo. Qed.

Lemma Run_not_failed Go fuel tf :
  pool_keeps (trace_adds not_failed) Go →
  keeps (trace_adds not_failed) (Run Go fuel tf).
Proof.
  intros HGo. pose proof (invokeGraph_not_failed Go HGo fuel).
  unfold Run, scheduleGraph. keeps_walk.
Qed.

#[global] Instance w_graphs_nodes : NodesApart w_graphs.
Proof. done. Qed.
#[global] Instance w_graphs_queue : QueueApart w_graphs.
Proof. done. Qed.
#[global] Instance w_graphs_wg : WaitGroupApart w_graphs.
Proof. done. Qed.
#[global] Instance w_graphs_ghost : GhostApart w_graphs.
Proof. done. Qed.

(** A loop returns when each of its steps returns and keeps [I]. *)
Lemma forM_returns {A} (I : World → Prop) (l : list A) (f : A → M unit) w :
  I w →
  (∀ x w1, x ∈ l → I w1 → ∃ w2, f x w1 = (Ret tt, w2) ∧ I w2) →
  ∃ w', forM_ l f w = (Ret tt, w') ∧ I w'.
Proof.
  revert w. induction l as [|x l IH]; intros w HI Hf; cbn [forM_].
  - exists w. done.
  - destruct (Hf x w) as (w2 & E & I2); [left | done |].
    destruct (IH w2) as (w' & E' & I'); [done | |].
    + intros y w1 Hy. apply Hf. by right.
    + exists w'. split; [|done]. eapply run_seq; eauto.
Qed.

(** [drop] returns when the vertex and its successors are allocated; it
    touches join-counters only. *)
Lemma innerNode_drop_returns n nd w :
  w_nodes w !! n = Some nd →
  (∀ s, s ∈ n_successors nd → is_Some (w_nodes w !! s)) →
  ∃ w', innerNode_drop n w = (Ret tt, w') ∧
        same (node_view built) w w' ∧ w_trace w' = w_trace w ∧
        w_graphs w' = w_graphs w.
Proof.
  intros Hn Hs. unfold innerNode_drop.
  rewrite (run_bind_ret _ _ _ _ _ (getNode_ok _ _ _ Hn)).
  apply (forM_returns (λ w1, same (node_view built) w w1 ∧
                             w_trace w1 = w_trace w ∧ w_graphs w1 = w_graphs w)).
  { split; [reflexivity | done]. }
  intros s w1 Hin (B & T & G).
  destruct (node_view_transport built _ _ _ _ B Hn) as (nd1 & Hn1 & _).
  destruct (Hs s Hin) as [sd Hsd].
  destruct (node_view_transport built _ _ _ _ B Hsd) as (sd1 & Hsd1 & _).
  rewrite (run_bind_ret _ _ _ _ _ (getNode_ok _ _ _ Hn1)).
  case_decide; [|by eexists].
  unfold node_joinCounter_Decrease.
  pose proof (same_modNode built s
    (λ x, node_set_joinCounter (n_joinCounter x - 1) x) ltac:(by intros []) w1) as K.
  rewrite (modNode_ok _ _ _ _ Hsd1) in K |- *.
  eexists. split; [reflexivity|]. split; [|done].
  etrans; [exact B | exact K].
Qed.

(** [candidates] returns when the successors are allocated; it only reads. *)
Lemma candidates_returns l w :
  (∀ s, s ∈ l → is_Some (w_nodes w !! s)) →
  ∃ c, candidates l w = (Ret c, w).
Proof.
  induction l as [|n l IH]; intros Hs; cbn [candidates]; [by eexists|].
  destruct (Hs n) as [nd Hn]; [left|].
  destruct IH as (c & Hc); [intros s ?; apply Hs; by right|].
  assert (innerNode_JoinCounter n w = (Ret (n_joinCounter nd), w)) as Hj by mrun.
  rewrite (run_bind_ret _ _ _ _ _ Hj).
  rewrite (run_bind_ret _ _ _ _ _ (getNode_ok _ _ _ Hn)).
  rewrite (run_bind_ret _ _ _ _ _ Hc).
  case_decide; by eexists.
Qed.

(** [setup] on an allocated vertex stores idle, and stores nothing else. *)
Lemma innerNode_setup_trace n nd w :
  w_nodes w !! n = Some nd →
  w_trace (innerNode_setup n w).2 = w_trace w ++ [(n, kNodeStateIdle)].
Proof.
  intros Hn. unfold innerNode_setup.
  assert (∃ w1, state_Store n kNodeStateIdle w = (Ret tt, w1) ∧
                w_trace w1 = w_trace w ++ [(n, kNodeStateIdle)]) as (w1 & E & T).
  { eexists. split; [mrun | reflexivity]. }
  rewrite (run_bind_ret _ _ _ _ _ E). rewrite <- T.
  match goal with |- w_trace (?m _).2 = _ =>
    assert (keeps (same w_trace) m) as K by keeps_walk end.
  apply K.
Qed.

(** [sche_successors] stores idle on the finished vertex and then waiting on
    what it schedules. *)
Lemma sche_successors_trace node nd w :
  w_nodes w !! node = Some nd →
  (∀ s, s ∈ n_successors nd → is_Some (w_nodes w !! s)) →
  ∃ t, w_trace (sche_successors node w).2 = w_trace w ++ (node, kNodeStateIdle) :: t ∧
       Forall is_waiting t.
Proof.
  intros Hn Hs. unfold sche_successors.
  rewrite (run_bind_ret _ _ _ _ _ (getNode_ok _ _ _ Hn)).
  destruct (candidates_returns _ _ Hs) as (c & Hc).
  rewrite (run_bind_ret _ _ _ _ _ Hc).
  rewrite (run_bind_ret _ _ _ _ _ (sortByPriority_ok _ _)).
  pose proof (innerNode_setup_trace node nd w Hn) as T.
  bind_cases a s w1 E; try rewrite E in T; simpl in T.
  - match goal with |- ∃ _, w_trace (?m _).2 = _ ∧ _ =>
      assert (keeps (trace_adds is_waiting) m) as K by keeps_walk end.
    destruct (K w1) as (t & Ht & Ft). exists t. split; [|done].
    rewrite Ht, T, <- app_assoc. reflexivity.
  - exists []. split; [done | constructor].
Qed.

(** The finalizer of the static invoker resets the state to idle. *)
Lemma invokeStatic_deferred_trace node sp r nd w :
  w_nodes w !! node = Some nd →
  (∀ s, s ∈ n_successors nd → is_Some (w_nodes w !! s)) →
  (is_Some r → is_Some (w_graphs w !! n_g nd)) →
  ∃ t, w_trace (invokeStatic_deferred node sp r w).2
       = w_trace w ++ (node, kNodeStateIdle) :: t ∧
       Forall is_waiting t.
Proof.
  intros Hn Hs Hg. unfold invokeStatic_deferred.
  set (first := match r with Some _ => _ | None => _ end).
  assert (∃ w1, first w = (Ret tt, w1) ∧ w_nodes w1 = w_nodes w ∧
                w_trace w1 = w_trace w) as (w1 & E1 & N1 & T1).
  { subst first. destruct r as [v|].
    - destruct Hg as [gr Hgr]; [by eexists|].
      eexists. split; [mrun | split; reflexivity].
    - eexists. split; [mrun | split; reflexivity]. }
  rewrite (run_bind_ret _ _ _ _ _ E1).
  destruct (innerNode_drop_returns node nd w1) as (w2 & E2 & B2 & T2 & _).
  { by rewrite N1. }
  { intros s Hin. rewrite N1. by apply Hs. }
  rewrite (run_bind_ret _ _ _ _ _ E2).
  assert (w_nodes w1 !! node = Some nd) as Hn1 by (by rewrite N1).
  destruct (node_view_transport built _ _ _ _ B2 Hn1) as (nd2 & Hn2 & Hb).
  apply built_inv in Hb. destruct Hb as (_ & Hsucc & _).
  destruct (sche_successors_trace node nd2 w2 Hn2) as (t & Ht & Ft).
  { intros s Hin. rewrite Hsucc in Hin. destruct (Hs s Hin) as [sd Hsd].
    rewrite <- N1 in Hsd.
    destruct (node_view_transport built _ _ _ _ B2 Hsd) as (sd2 & -> & _). by eexists. }
  rewrite T2, T1 in Ht.
  bind_cases a s w3 E3; try rewrite E3 in Ht; simpl in Ht.
  - match goal with |- ∃ _, w_trace (?m _).2 = _ ∧ _ =>
      assert (keeps (trace_adds is_waiting) m) as K by keeps_walk end.
    destruct (K w3) as (t' & Ht' & Ft'). exists (t ++ t').
    split; [|by apply Forall_app].
    rewrite Ht', Ht, <- app_assoc. reflexivity.
  - exists t. done.
Qed.

Lemma invokeStatic_body_same_nodes_built node p :
  keeps (same (node_view built)) (invokeStatic_body node p).
Proof. keeps_walk. Qed.

Lemma invokeStatic_body_same_graphs node p :
  keeps (same w_graphs) (invokeStatic_body node p).
Proof. keeps_walk. Qed.

(** The static invoker, seen through the trace of state stores. *)
Lemma invokeStatic_trace w node parentSpan nd p :
  w_nodes w !! node = Some nd →
  (∀ s, s ∈ n_successors nd → is_Some (w_nodes w !! s)) →
  is_Some (w_graphs w !! n_g nd) →
  ∃ t, Forall is_waiting t ∧
       w_trace (invokeStatic node parentSpan p w).2 =
         w_trace w ++
         match s_handle p (n_calls nd) with
         | Returns _ =>
             [(node, kNodeStateRunning); (node, kNodeStateFinished);
              (node, kNodeStateIdle)]
         | Panics => [(node, kNodeStateRunning); (node, kNodeStateIdle)]
         end ++ t.
Proof.
  intros Hn Hs Hg. unfold invokeStatic.
  rewrite (run_bind_ret _ _ _ _ _ (getNode_ok _ _ _ Hn)). cbv zeta.
  pose proof (invokeStatic_body_same_nodes_built node p w) as B.
  pose proof (invokeStatic_body_same_graphs node p w) as G.
  unfold with_defer.
  assert (∀ r wb pre,
    same (node_view built) w wb → same w_graphs w wb →
    w_trace wb = w_trace w ++ pre →
    ∃ t, Forall is_waiting t ∧
      w_trace (invokeStatic_deferred node
                 (newSpan {| a_typ := nodeStatic; a_name := n_name nd |} parentSpan)
                 r wb).2
      = w_trace w ++ (pre ++ [(node, kNodeStateIdle)]) ++ t) as Hfin.
  { intros r wb pre Bb Gb Tb.
    destruct (node_view_transport built _ _ _ _ Bb Hn) as (ndb & Hnb & Hb).
    apply built_inv in Hb. destruct Hb as (_ & Hsucc & _ & _ & _ & Hgb & _).
    destruct (invokeStatic_deferred_trace node
                (newSpan {| a_typ := nodeStatic; a_name := n_name nd |} parentSpan)
                r ndb wb Hnb) as (t & Ht & Ft).
    - intros s Hin. rewrite Hsucc in Hin. destruct (Hs s Hin) as [sd Hsd].
      destruct (node_view_transport built _ _ _ _ Bb Hsd) as (sd2 & -> & _). by eexists.
    - intros _. unfold same in Gb. by rewrite Gb, Hgb.
    - exists t. split; [done|]. rewrite Ht, Tb, <- !app_assoc. reflexivity. }
  destruct (s_handle p (n_calls nd)) as [[]|] eqn:Hh.
  - assert (∃ wb, invokeStatic_body node p w = (Ret tt, wb) ∧
      w_trace wb = w_trace w ++ [(node, kNodeStateRunning); (node, kNodeStateFinished)])
      as (wb & Eb & Tb).
    { eexists. split; [mrun|]. world_simpl. by rewrite <- app_assoc. }
    rewrite Eb in B, G |- *. by apply (Hfin None wb _ B G Tb).
  - assert (∃ wb, invokeStatic_body node p w = (Stop (Panic UserPanic), wb) ∧
      w_trace wb = w_trace w ++ [(node, kNodeStateRunning)]) as (wb & Eb & Tb).
    { eexists. split; [mrun|]. reflexivity. }
    rewrite Eb in B, G |- *. by apply (Hfin (Some UserPanic) wb _ B G Tb).
Qed.

(** * Cancellation *)

#[global] Instance latch_kept_preorder : PreOrder latch_kept.
Proof.
  split.
  - intros w g gr Hg. eauto.
  - intros w1 w2 w3 H12 H23 g gr Hg.
    destruct (H12 g gr Hg) as (gr2 & Hg2 & ?).
    destruct (H23 g gr2 Hg2) as (gr3 & Hg3 & ?).
    exists gr3. split; [done | auto].
Qed.

Lemma latch_kept_latched w w' g : latch_kept w w' → latched g w → latched g w'.
Proof.
  intros K (gr & Hg & Hc). destruct (K g gr Hg) as (gr' & Hg' & Hc').
  exists gr'. split; [done | auto].
Qed.

Lemma latch_kept_allocated w w' g :
  latch_kept w w' → is_Some (w_graphs w !! g) → is_Some (w_graphs w' !! g).
Proof. intros K [gr Hg]. destruct (K g gr Hg) as (gr' & Hg' & _). by eexists. Qed.

Lemma latch_kept_modGraph g f :
  (∀ x, g_canceled x = true → g_canceled (f x) = true) →
  keeps latch_kept (modGraph g f).
Proof.
  intros Hf w. unfold modGraph.
  destruct (w_graphs w !! g) as [gr|] eqn:E; simpl; [|reflexivity].
  intros h x Hx. world_simpl. destruct (decide (g = h)) as [->|Hne].
  - rewrite lookup_insert_eq. simplify_eq. eauto.
  - rewrite lookup_insert_ne by done. eauto.
Qed.

Lemma latch_kept_of_same_graphs {A} (m : M A) :
  keeps (same w_graphs) m → keeps latch_kept m.
Proof. intros H w g gr Hg. specialize (H w). unfold same in H. rewrite H. eauto. Qed.

#[global] Hint Extern 1 (keeps latch_kept (modGraph _ _)) =>
  apply latch_kept_modGraph; intros []; simpl; done : keeps.
#[global] Hint Extern 2 (keeps latch_kept _) =>
  apply latch_kept_of_same_graphs; keeps_leaf : keeps.

Lemma schedule_latch_kept l : keeps latch_kept (schedule l).
Proof. induction l as [|n l IH]; cbn [schedule]; keeps_walk. Qed.

#[global] Hint Resolve schedule_latch_kept : keeps.

Lemma canceled_Store_true g w :
  is_Some (w_graphs w !! g) →
  ∃ w1, canceled_Store g true w = (Ret tt, w1) ∧ latched g w1 ∧
        latch_kept w w1 ∧ w_nodes w1 = w_nodes w.
Proof.
  intros [gr Hg]. unfold canceled_Store.
  pose proof (latch_kept_modGraph g (graph_set_canceled true) ltac:(by intros []) w) as K.
  rewrite (modGraph_ok _ _ _ _ Hg) in K |- *.
  eexists. split; [reflexivity|]. split; [|done].
  eexists. world_simpl. rewrite lookup_insert_eq. done.
Qed.

(** On a graph whose flag is latched the dispatcher loop leaves at its first
    poll: it takes nothing from the queue and gives nothing to the pool. *)
Lemma invokeGraph_on_latched Go fuel g parentSpan w :
  latched g w → (invokeGraph Go fuel g parentSpan w).2 = w.
Proof.
  intros (gr & Hg & Hc). destruct fuel as [|fuel]; cbn [invokeGraph]; [done|].
  rewrite run_bind, invokeGraph_poll_spec, Hg.
  rewrite decide_False by (rewrite Hc; intros (_ & _ & ?); done).
  rewrite decide_True by (by right). reflexivity.
Qed.

Lemma scheduleGraph_on_latched (R : relation World) `{!PreOrder R} Go fuel g parentSpan w :
  keeps R (scheduleGraph_entries g) → keeps R (scheCond_Signal g) →
  latched g w → R w (scheduleGraph Go fuel g parentSpan w).2.
Proof.
  intros K1 K2 Hl. unfold scheduleGraph, scheduleGraph_body.
  assert (keeps latch_kept (scheduleGraph_entries g)) as KL by keeps_walk.
  bind_cases a1 s1 w1 E1.
  2:{ eapply keeps_run; [exact K1 | exact E1]. }
  assert (latched g w1) as Hl1.
  { eapply latch_kept_latched; [|exact Hl]. eapply keeps_run; [exact KL | exact E1]. }
  pose proof (invokeGraph_on_latched Go fuel g parentSpan w1 Hl1) as E2.
  rewrite run_bind.
  destruct (invokeGraph Go fuel g parentSpan w1) as [[a2|s2] w2]; simpl in E2; subst w2.
  - etrans; [eapply keeps_run; [exact K1 | exact E1] | apply K2].
  - eapply keeps_run; [exact K1 | exact E1].
Qed.

(** The static invoker latches the flag of the owning graph when the
    payload panics. *)
Lemma invokeStatic_latches w node parentSpan nd p :
  w_nodes w !! node = Some nd →
  is_Some (w_graphs w !! n_g nd) →
  s_handle p (n_calls nd) = Panics →
  latched (n_g nd) (invokeStatic node parentSpan p w).2.
Proof.
  intros Hn [gr Hg] Hp. unfold invokeStatic.
  rewrite (run_bind_ret _ _ _ _ _ (getNode_ok _ _ _ Hn)). cbv zeta.
  unfold with_defer.
  assert (∃ wb, invokeStatic_body node p w = (Stop (Panic UserPanic), wb) ∧
    w_graphs wb = w_graphs w ∧ ∃ ndb, w_nodes wb !! node = Some ndb ∧ n_g ndb = n_g nd)
    as (wb & -> & Gb & ndb & Hnb & Hgb).
  { eexists. split; [mrun|]. split; [reflexivity|].
    eexists. split; [lookup_solve | reflexivity]. }
  unfold invokeStatic_deferred.
  rewrite run_bind, (run_bind_ret _ _ _ _ _ (getNode_ok _ _ _ Hnb)).
  destruct (canceled_Store_true (n_g ndb) wb) as (w1 & E1 & L1 & _).
  { rewrite Gb, Hgb. by eexists. }
  rewrite (run_bind_ret _ _ _ _ _ E1), printf_ok.
  match goal with |- latched _ (?m ?w0).2 =>
    assert (keeps latch_kept m) as K by keeps_walk;
    apply (latch_kept_latched w0); [apply K|] end.
  rewrite <- Hgb. destruct L1 as (gr1 & ? & ?). by exists gr1.
Qed.

(** The static invoker writes no flag but that of the owning graph. *)
Lemma invokeStatic_other_flags w node parentSpan nd p g' :
  w_nodes w !! node = Some nd →
  g' ≠ n_g nd →
  g_canceled <$> w_graphs (invokeStatic node parentSpan p w).2 !! g'
  = g_canceled <$> w_graphs w !! g'.
Proof.
  intros Hn Hne. unfold invokeStatic.
  rewrite (run_bind_ret _ _ _ _ _ (getNode_ok _ _ _ Hn)). cbv zeta.
  set (sp := newSpan _ _).
  assert (∀ w0 w1, same (graph_view g_canceled) w0 w1 →
    g_canceled <$> w_graphs w1 !! g' = g_canceled <$> w_graphs w0 !! g') as view.
  { intros w0 w1 H. unfold same in H. rewrite <- !graph_view_lookup. by rewrite H. }
  assert (∀ r wb, same (node_view built) w wb →
    g_canceled <$> w_graphs (invokeStatic_deferred node sp r wb).2 !! g'
    = g_canceled <$> w_graphs wb !! g') as Hdef.
  { intros r wb Bb.
    destruct (node_view_transport built _ _ _ _ Bb Hn) as (ndb & Hnb & Hb).
    apply built_inv in Hb. destruct Hb as (_ & _ & _ & _ & _ & Hgb & _).
    unfold invokeStatic_deferred.
    set (first := match r with Some _ => _ | None => _ end).
    assert (g_canceled <$> w_graphs (first wb).2 !! g'
            = g_canceled <$> w_graphs wb !! g') as F.
    { subst first. destruct r as [v|]; [|reflexivity].
      rewrite (run_bind_ret _ _ _ _ _ (getNode_ok _ _ _ Hnb)).
      unfold canceled_Store. rewrite run_bind. unfold modGraph at 1.
      destruct (w_graphs wb !! n_g ndb) as [grb|]; [|reflexivity].
      rewrite printf_ok. world_simpl.
      rewrite lookup_insert_ne by congruence. reflexivity. }
    bind_cases a1 s1 w1 E1; simpl in F; [|exact F].
    rewrite <- F. apply view.
    match goal with |- same _ _ (?m _).2 =>
      assert (keeps (same (graph_view g_canceled)) m) as K by keeps_walk end.
    apply K. }
  assert (keeps (same (graph_view g_canceled)) (invokeStatic_body node p)) as KB
    by keeps_walk.
  pose proof (invokeStatic_body_same_nodes_built node p w) as B.
  specialize (KB w). apply view in KB.
  unfold with_defer.
  destruct (invokeStatic_body node p w) as [[[]|[v| |]] wb]; simpl in B, KB;
    rewrite ?Hdef by exact B; exact KB.
Qed.

(** * Subflows *)

#[global] Instance rel_and_preorder R1 R2 `{!PreOrder R1, !PreOrder R2} :
  PreOrder (rel_and R1 R2).
Proof.
  split.
  - intros w. split; reflexivity.
  - intros w1 w2 w3 [? ?] [? ?]. split; etrans; eauto.
Qed.

Lemma keeps_and {A} R1 R2 (m : M A) :
  keeps R1 m → keeps R2 m → keeps (rel_and R1 R2) m.
Proof. intros K1 K2 w. split; [apply K1 | apply K2]. Qed.

Ltac keeps_across :=
  unfold across_failed_build;
  apply keeps_and; [keeps_walk | apply keeps_and; keeps_walk].

(** [push] fails on a nil pointer only. *)
Lemma eGraph_push_stop g l w s w' :
  eGraph_push g l w = (Stop s, w') → s = Panic NilDeref.
Proof.
  unfold eGraph_push. rewrite run_bind. unfold modGraph at 1.
  destruct (w_graphs w !! g) as [gr|]; [|by intros [= <- _]].
  generalize (set_graphs (<[g:=graph_set_nodes (g_nodes gr ++ l) gr]> (w_graphs w)) w).
  induction l as [|x l IH]; intros w0; cbn [forM_]; [done|].
  rewrite run_bind. unfold modNode at 1.
  destruct (w_nodes w0 !! x) as [nd|]; [apply IH | by intros [= <- _]].
Qed.

(** [push] leaves the vertices it is not given as they are. *)
Lemma eGraph_push_other g l w node :
  node ∉ l → w_nodes (eGraph_push g l w).2 !! node = w_nodes w !! node.
Proof.
  intros Hnot. unfold eGraph_push. rewrite run_bind. unfold modGraph at 1.
  destruct (w_graphs w !! g) as [gr|]; [|done].
  change (w_nodes w) with
    (w_nodes (set_graphs (<[g:=graph_set_nodes (g_nodes gr ++ l) gr]> (w_graphs w)) w)).
  generalize (set_graphs (<[g:=graph_set_nodes (g_nodes gr ++ l) gr]> (w_graphs w)) w).
  induction l as [|x l IH]; intros w0; cbn [forM_]; [done|].
  apply not_elem_of_cons in Hnot as [Hx Hl].
  rewrite run_bind. unfold modNode at 1.
  destruct (w_nodes w0 !! x) as [nd|]; [|done].
  rewrite IH by done. world_simpl. by rewrite lookup_insert_ne.
Qed.

(** The body of the subflow invoker when the builder panics: the panic
    leaves the body before the latch is written. *)
Lemma invokeSubflow_body_builder_panics w node nd p gr :
  w_nodes w !! node = Some nd →
  w_graphs w !! sf_g p = Some gr →
  g_instancelized gr = false →
  b_result (sf_handle p (n_calls nd)) = Panics →
  ∃ v wb, invokeSubflow_body node p w = (Stop (Panic v), wb) ∧
          across_failed_build w wb ∧
          (node ∉ b_pushed (sf_handle p (n_calls nd)) →
           ∃ ndb, w_nodes wb !! node = Some ndb ∧ n_g ndb = n_g nd).
Proof.
  intros Hn Hg Hi Hres. unfold invokeSubflow_body.
  assert (keeps across_failed_build (state_Store node kNodeStateRunning)) as K0
    by keeps_across.
  assert (keeps across_failed_build (Subflow_call node p)) as K1 by keeps_across.
  assert (∃ w0, state_Store node kNodeStateRunning w = (Ret tt, w0) ∧
    w_graphs w0 = w_graphs w ∧
    w_nodes w0 = <[node := node_set_state kNodeStateRunning nd]> (w_nodes w))
    as (w0 & E0 & G0 & N0).
  { eexists. split; [mrun | split; reflexivity]. }
  specialize (K0 w). rewrite E0 in K0. simpl in K0.
  rewrite (run_bind_ret _ _ _ _ _ E0).
  assert (w_graphs w0 !! sf_g p = Some gr) as Hg0 by (by rewrite G0).
  rewrite (run_bind_ret _ _ _ _ _ (getGraph_ok _ _ _ Hg0)), Hi.
  specialize (K1 w0).
  assert (∃ v wb, Subflow_call node p w0 = (Stop (Panic v), wb) ∧
    (node ∉ b_pushed (sf_handle p (n_calls nd)) →
     ∃ ndb, w_nodes wb !! node = Some ndb ∧ n_g ndb = n_g nd))
    as (v & wb & E1 & Hnb).
  { unfold Subflow_call.
    assert (w_nodes w0 !! node = Some (node_set_state kNodeStateRunning nd)) as Hn0.
    { rewrite N0. apply lookup_insert_eq. }
    rewrite (run_bind_ret _ _ _ _ _ (getNode_ok _ _ _ Hn0)).
    rewrite (run_bind_ret _ _ _ _ _ (modNode_ok _ _ _ _ Hn0)).
    world_simpl. rewrite Hres.
    set (w1 := set_nodes _ w0).
    pose proof (eGraph_push_other (sf_g p) (b_pushed (sf_handle p (n_calls nd))) w1 node)
      as Hother.
    pose proof (eGraph_push_stop (sf_g p) (b_pushed (sf_handle p (n_calls nd))) w1)
      as Hstop.
    rewrite run_bind.
    destruct (eGraph_push _ _ w1) as [[[]|s] wb].
    - exists UserPanic, wb. split; [reflexivity|]. intros Hnot.
      simpl in Hother. rewrite Hother by done. subst w1. world_simpl.
      rewrite lookup_insert_eq. eexists. split; reflexivity.
    - rewrite (Hstop s wb eq_refl). exists NilDeref, wb. split; [reflexivity|].
      intros Hnot. simpl in Hother. rewrite Hother by done. subst w1. world_simpl.
      rewrite lookup_insert_eq. eexists. split; reflexivity. }
  rewrite E1 in K1. simpl in K1.
  rewrite (run_bind_stop _ _ _ _ _ E1).
  exists v, wb. split; [reflexivity|]. split; [|exact Hnb].
  etrans; [exact K0 | exact K1].
Qed.

Lemma bind_ret_inv {A B} (m : M A) (f : A → M B) w b w' :
  (m ≫= f) w = (Ret b, w') →
  ∃ a w1, m w = (Ret a, w1) ∧ f a w1 = (Ret b, w').
Proof. rewrite run_bind. destruct (m w) as [[a|s] w1]; [eauto | done]. Qed.

Lemma canceled_Store_ret g w w1 :
  canceled_Store g true w = (Ret tt, w1) → latched g w1.
Proof.
  unfold canceled_Store, modGraph.
  destruct (w_graphs w !! g) as [gr|]; [|done].
  intros [= <-]. eexists. world_simpl. rewrite lookup_insert_eq. done.
Qed.

(** The finalizer of the subflow invoker after a panic of the body. *)
Lemma invokeSubflow_deferred_after_panic Go fuel node sp p v wb :
  let w' := (invokeSubflow_deferred (scheduleGraph Go fuel) node sp p (Some v) wb).2 in
  across_failed_build wb w' ∧
  (∀ ndb, w_nodes wb !! node = Some ndb →
          is_Some (w_graphs wb !! n_g ndb) → is_Some (w_graphs wb !! sf_g p) →
          latched (n_g ndb) w' ∧ latched (sf_g p) w').
Proof.
  unfold invokeSubflow_deferred.
  match goal with |- context [mbind _ ?f] =>
    lazymatch f with getNode node ≫= (λ _, printf _ ≫= _) => set (first := f) end end.
  assert (keeps across_failed_build first) as Kf by (subst first; keeps_across).
  assert (∀ ndb, w_nodes wb !! node = Some ndb →
    is_Some (w_graphs wb !! n_g ndb) → is_Some (w_graphs wb !! sf_g p) →
    ∃ w1, first wb = (Ret tt, w1) ∧ latched (n_g ndb) w1) as Hfirst.
  { intros ndb Hnb Hpar Hsub. subst first.
    rewrite (run_bind_ret _ _ _ _ _ (getNode_ok _ _ _ Hnb)).
    rewrite (run_bind_ret _ _ _ _ _ (printf_ok _ _)).
    destruct (canceled_Store_true (n_g ndb)
                (set_stdout (w_stdout wb ++ [LogRecovered nodeSubflow (n_name ndb) v]) wb))
      as (wa & Ea & La & Ka & _); [exact Hpar|].
    rewrite (run_bind_ret _ _ _ _ _ Ea).
    destruct (canceled_Store_true (sf_g p) wa) as (w1 & E1 & L1 & K1 & _).
    { eapply latch_kept_allocated; [exact Ka | exact Hsub]. }
    exists w1. split; [exact E1|]. eapply latch_kept_latched; eauto. }
  assert (∀ w1, first wb = (Ret tt, w1) → latched (sf_g p) w1) as Hsub1.
  { intros w1 E. subst first.
    apply bind_ret_inv in E as (ndb & w0 & _ & E).
    apply bind_ret_inv in E as (? & wc & _ & E).
    apply bind_ret_inv in E as (? & wd & _ & E).
    by apply canceled_Store_ret in E. }
  bind_cases a1 s1 w1 E1.
  2:{ split; [eapply keeps_run; [exact Kf | exact E1]|].
      intros ndb Hnb Hpar Hsub.
      destruct (Hfirst ndb Hnb Hpar Hsub) as (? & ? & _). congruence. }
  destruct a1. specialize (Hsub1 w1 eq_refl).
  assert (across_failed_build wb w1) as A1 by (eapply keeps_run; [exact Kf | exact E1]).
  assert (across_failed_build w1 (scheduleGraph Go fuel (sf_g p) (Some sp) w1).2) as A2.
  { apply scheduleGraph_on_latched; [apply _ | keeps_across | keeps_across | exact Hsub1]. }
  match goal with |- context [scheduleGraph Go fuel (sf_g p) (Some sp) ≫= ?k] =>
    set (rest := k) end.
  assert (∀ a, keeps across_failed_build (rest a)) as Kr
    by (intros a; subst rest; keeps_across).
  assert (across_failed_build w1
    ((scheduleGraph Go fuel (sf_g p) (Some sp) ≫= rest) w1).2) as A3.
  { rewrite run_bind.
    destruct (scheduleGraph Go fuel (sf_g p) (Some sp) w1) as [[a2|s2] w2]; simpl in A2.
    - etrans; [exact A2 | apply Kr].
    - exact A2. }
  split; [etrans; [exact A1 | exact A3]|].
  intros ndb Hnb Hpar Hsub.
  destruct (Hfirst ndb Hnb Hpar Hsub) as (w1' & E1' & Lpar). simplify_eq.
  destruct A3 as [_ [_ Lk]].
  split; eapply latch_kept_latched; eauto.
Qed.

(** A subflow vertex whose builder panics. *)
Lemma invokeSubflow_builder_panics Go fuel w node parentSpan nd p gr :
  w_nodes w !! node = Some nd →
  w_graphs w !! sf_g p = Some gr →
  g_instancelized gr = false →
  b_result (sf_handle p (n_calls nd)) = Panics →
  let w' := (invokeSubflow (scheduleGraph Go fuel) node parentSpan p w).2 in
  across_failed_build w w' ∧
  (is_Some (w_graphs w !! n_g nd) →
   node ∉ b_pushed (sf_handle p (n_calls nd)) →
   latched (n_g nd) w' ∧ latched (sf_g p) w').
Proof.
  intros Hn Hg Hi Hres. unfold invokeSubflow.
  rewrite (run_bind_ret _ _ _ _ _ (getNode_ok _ _ _ Hn)). cbv zeta.
  destruct (invokeSubflow_body_builder_panics w node nd p gr Hn Hg Hi Hres)
    as (v & wb & Eb & Ab & Hnb).
  unfold with_defer. rewrite Eb.
  set (sp := newSpan _ _).
  destruct (invokeSubflow_deferred_after_panic Go fuel node sp p v wb) as [Ad Ld].
  split; [etrans; [exact Ab | exact Ad]|].
  intros Hpar Hnot. destruct (Hnb Hnot) as (ndb & Hndb & Hgb).
  destruct Ab as [_ [_ Lk]].
  rewrite <- Hgb. apply (Ld ndb Hndb).
  - rewrite Hgb. eapply latch_kept_allocated; eauto.
  - eapply latch_kept_allocated; eauto.
Qed.

(** With the latch open, the body of the subflow invoker calls the builder. *)
Lemma invokeSubflow_body_calls_builder w node nd p gr :
  w_nodes w !! node = Some nd →
  w_graphs w !! sf_g p = Some gr →
  g_instancelized gr = false →
  n_calls <$> w_nodes (invokeSubflow_body node p w).2 !! node = Some (S (n_calls nd)).
Proof.
  intros Hn Hg Hi. unfold invokeSubflow_body.
  assert (∃ w0, state_Store node kNodeStateRunning w = (Ret tt, w0) ∧
    w_graphs w0 = w_graphs w ∧
    w_nodes w0 !! node = Some (node_set_state kNodeStateRunning nd))
    as (w0 & E0 & G0 & Hn0).
  { eexists. split; [mrun | split; [reflexivity | lookup_solve]]. }
  rewrite (run_bind_ret _ _ _ _ _ E0).
  assert (w_graphs w0 !! sf_g p = Some gr) as Hg0 by (by rewrite G0).
  rewrite (run_bind_ret _ _ _ _ _ (getGraph_ok _ _ _ Hg0)), Hi.
  unfold Subflow_call.
  rewrite run_bind, (run_bind_ret _ _ _ _ _ (getNode_ok _ _ _ Hn0)).
  rewrite (run_bind_ret _ _ _ _ _ (modNode_ok _ _ _ _ Hn0)).
  set (w1 := set_nodes _ w0).
  assert (node_view n_calls w1 !! node = Some (S (n_calls nd))) as C1.
  { rewrite node_view_lookup. subst w1. world_simpl.
    by rewrite lookup_insert_eq. }
  rewrite <- node_view_lookup, <- C1. f_equal.
  match goal with |- context [?m w1] =>
    assert (keeps (same (node_view n_calls)) m) as K1 by keeps_walk;
    specialize (K1 w1); destruct (m w1) as [[[]|s] w2]; simpl in K1 end; [|exact K1].
  rewrite <- K1.
  match goal with |- node_view _ (?m _).2 = _ =>
    assert (keeps (same (node_view n_calls)) m) as K2 by keeps_walk end.
  apply K2.
Qed.

(** C4 (as the code has it): a panic of a static payload latches the
    cancellation flag of the graph that owns the vertex, and the invoker
    writes no other graph's flag; this is all that happens for a vertex that
    panics inside a sub-graph.  A panic of a subflow builder latches the
    flag of the graph that owns the subflow vertex and the flag of the
    sub-graph. *)
Theorem panics_latch_cancellation (w : World) (Go : M unit → M unit) (fuel : nat)
    (vs vf : positive) (parentSpan : option span) (nds ndf : innerNode)
    (ps : Static) (pf : Subflow) (gr : eGraph) :
  w_nodes w !! vs = Some nds →
  is_Some (w_graphs w !! n_g nds) →
  s_handle ps (n_calls nds) = Panics →
  w_nodes w !! vf = Some ndf →
  is_Some (w_graphs w !! n_g ndf) →
  w_graphs w !! sf_g pf = Some gr →
  g_instancelized gr = false →
  b_result (sf_handle pf (n_calls ndf)) = Panics →
  vf ∉ b_pushed (sf_handle pf (n_calls ndf)) →
  let ws := (invokeStatic vs parentSpan ps w).2 in
  let wf := (invokeSubflow (scheduleGraph Go fuel) vf parentSpan pf w).2 in
  latched (n_g nds) ws ∧
  (∀ g', g' ≠ n_g nds →
         g_canceled <$> w_graphs ws !! g' = g_canceled <$> w_graphs w !! g') ∧
  latched (n_g ndf) wf ∧
  latched (sf_g pf) wf.
Proof.
  intros Hs Hgs Hps Hf Hgf Hsub Hi Hpf Hnot ws wf. subst ws wf.
  split; [by apply invokeStatic_latches|].
  split; [intros g' Hne; by eapply invokeStatic_other_flags|].
  by apply (invokeSubflow_builder_panics Go fuel w vf parentSpan ndf pf gr).
Qed.

(** C4 at [failing_world]: S1 as the static vertex, SF as the subflow. *)
Lemma panics_latch_cancellation_witness :
  let ws := (invokeStatic 2 None panics failing_world).2 in
  let wf := (invokeSubflow (scheduleGraph pool_runs 3) 1 None failing_builder
               failing_world).2 in
  latched 2 ws ∧
  (∀ g', g' ≠ 2%positive →
         g_canceled <$> w_graphs ws !! g' = g_canceled <$> w_graphs failing_world !! g') ∧
  latched 1 wf ∧
  latched 2 wf.
Proof.
  apply (panics_latch_cancellation failing_world pool_runs 3 2 1 None
           (vertex "S1" [] [] nodeStatic (PStatic panics) 2 2)
           (vertex "SF" [] [] nodeSubflow (PSubflow failing_builder) 1 2)
           panics failing_builder (graph "sub" [] false)).
  - reflexivity.
  - by eexists.
  - reflexivity.
  - reflexivity.
  - by eexists.
  - reflexivity.
  - reflexivity.
  - reflexivity.
  - simpl. intros Hin. apply list_elem_of_singleton in Hin. discriminate.
Defined.

(** C4, the claim fails: S1 panics inside the sub-graph; the run ends with
    the flag of the sub-graph latched and the flag of the parent graph not
    latched, and P2 has been run. *)
Lemma panic_in_subgraph_does_not_reach_parent :
  let r := Run pool_runs 6 single_flow subflow_world in
  r.1 = Ret tt ∧
  n_calls <$> w_nodes r.2 !! 4%positive = Some 1%nat ∧
  g_canceled <$> w_graphs r.2 !! 2%positive = Some true ∧
  g_canceled <$> w_graphs r.2 !! 1%positive = Some false ∧
  g_canceled <$> w_graphs r.2 !! 1%positive ≠ Some true ∧
  n_calls <$> w_nodes r.2 !! 3%positive = Some 1%nat.
Proof. vm_compute. repeat split; discriminate. Qed.



(** The other side: when the builder returns (and what it pushes is
    allocated), the body closes the latch. *)
Lemma invokeSubflow_body_closes_latch w node nd p gr u :
  w_nodes w !! node = Some nd →
  w_graphs w !! sf_g p = Some gr →
  g_instancelized gr = false →
  b_result (sf_handle p (n_calls nd)) = Returns u →
  (∀ x, x ∈ b_pushed (sf_handle p (n_calls nd)) → is_Some (w_nodes w !! x)) →
  ∃ wb, invokeSubflow_body node p w = (Ret tt, wb) ∧
        g_instancelized <$> w_graphs wb !! sf_g p = Some true.
Proof.
  intros Hn Hg Hi Hres Hpush. unfold invokeSubflow_body.
  assert (∃ w0, state_Store node kNodeStateRunning w = (Ret tt, w0) ∧
    w_graphs w0 = w_graphs w ∧
    w_nodes w0 !! node = Some (node_set_state kNodeStateRunning nd) ∧
    same (node_view (λ _, ())) w w0) as (w0 & E0 & G0 & Hn0 & D0).
  { eexists. split; [mrun|]. split; [reflexivity|]. split; [lookup_solve|].
    unfold same, node_view. world_simpl. eapply fmap_insert_same; eauto. }
  rewrite (run_bind_ret _ _ _ _ _ E0).
  assert (w_graphs w0 !! sf_g p = Some gr) as Hg0 by (by rewrite G0).
  rewrite (run_bind_ret _ _ _ _ _ (getGraph_ok _ _ _ Hg0)), Hi.
  assert (∃ w3 gr3, Subflow_call node p w0 = (Ret tt, w3) ∧
    w_graphs w3 !! sf_g p = Some gr3 ∧ is_Some (w_nodes w3 !! node))
    as (w3 & gr3 & E3 & Hg3 & [nd3 Hn3]).
  { unfold Subflow_call.
    rewrite (run_bind_ret _ _ _ _ _ (getNode_ok _ _ _ Hn0)).
    rewrite (run_bind_ret _ _ _ _ _ (modNode_ok _ _ _ _ Hn0)).
    world_simpl. rewrite Hres.
    set (w1 := set_nodes _ w0).
    assert (same (node_view (λ _, ())) w w1) as D1.
    { etrans; [exact D0|]. subst w1. unfold same, node_view. world_simpl.
      eapply fmap_insert_same; eauto. }
    unfold eGraph_push.
    assert (w_graphs w1 !! sf_g p = Some gr) as Hg1 by (subst w1; exact Hg0).
    rewrite run_bind, (run_bind_ret _ _ _ _ _ (modGraph_ok _ _ _ _ Hg1)).
    set (w2 := set_graphs _ w1).
    destruct (forM_returns
      (λ wx, same (node_view (λ _, ())) w wx ∧ w_graphs wx = w_graphs w2)
      (b_pushed (sf_handle p (n_calls nd)))
      (λ x, modNode x (node_set_g (sf_g p))) w2) as (w3 & E3 & D3 & G3).
    - split; [exact D1 | done].
    - intros x wx Hx (Dx & Gx).
      destruct (Hpush x Hx) as [xd Hxd].
      destruct (node_view_transport (λ _, ()) _ _ _ _ Dx Hxd) as (xd' & Hxd' & _).
      pose proof (same_modNode (λ _, ()) x (node_set_g (sf_g p)) ltac:(done) wx) as K.
      rewrite (modNode_ok _ _ _ _ Hxd') in K |- *.
      eexists. split; [reflexivity|]. split; [etrans; [exact Dx | exact K] | exact Gx].
    - rewrite E3. exists w3. eexists. split; [reflexivity|]. split.
      + rewrite G3. subst w2. world_simpl. apply lookup_insert_eq.
      + destruct (node_view_transport (λ _, ()) _ _ _ _ D3 Hn) as (? & -> & _).
        by eexists. }
  rewrite (run_bind_ret _ _ _ _ _ E3).
  rewrite (run_bind_ret _ _ _ _ _ (modGraph_ok _ _ _ _ Hg3)).
  eexists. split; [mrun|]. world_simpl. by rewrite lookup_insert_eq.
Qed.

(** * Graph setup *)

(** A loop with an invariant that follows the elements already visited. *)
Lemma forM_invariant {A} (I : list A → World → Prop) (l0 : list A) (f : A → M unit) :
  (∀ d x r w1, l0 = d ++ x :: r → I d w1 →
               ∃ w2, f x w1 = (Ret tt, w2) ∧ I (d ++ [x]) w2) →
  ∀ w, I [] w → ∃ w', forM_ l0 f w = (Ret tt, w') ∧ I l0 w'.
Proof.
  intros Hstep.
  assert (∀ l d w, l0 = d ++ l → I d w →
                   ∃ w', forM_ l f w = (Ret tt, w') ∧ I l0 w') as Haux.
  { induction l as [|x l IH]; intros d w Hl HI; cbn [forM_].
    - rewrite app_nil_r in Hl. subst d. by exists w.
    - destruct (Hstep d x l w Hl HI) as (w2 & E & I2).
      destruct (IH (d ++ [x]) w2) as (w' & E' & I'); [by rewrite <- app_assoc | done |].
      exists w'. split; [|done]. eapply run_seq; eauto. }
  intros w HI. by apply (Haux l0 [] w).
Qed.

Lemma counted_dependents_snoc w deps d :
  counted_dependents w (deps ++ [d]) =
  counted_dependents w deps + (if decide (not_condition w d) then 1 else 0).
Proof.
  unfold counted_dependents. rewrite filter_app, length_app.
  rewrite filter_cons, filter_nil. case_decide; simpl; lia.
Qed.

Lemma not_condition_same w w' d :
  same (node_view built) w w' → not_condition w' d ↔ not_condition w d.
Proof.
  intros H. unfold not_condition.
  assert (n_Typ <$> w_nodes w' !! d = n_Typ <$> w_nodes w !! d) as ->; [|done].
  destruct (w_nodes w !! d) as [x|] eqn:Ex.
  - destruct (node_view_transport built w w' d x H Ex) as (x' & -> & Hb).
    apply built_inv in Hb. simpl. f_equal. tauto.
  - unfold same in H.
    assert (node_view built w' !! d = node_view built w !! d) as E by (by rewrite H).
    rewrite !node_view_lookup, Ex in E.
    destruct (w_nodes w' !! d); simplify_eq/=. done.
Qed.

Lemma counted_dependents_same w w' deps :
  same (node_view built) w w' → counted_dependents w' deps = counted_dependents w deps.
Proof.
  intros H. induction deps as [|d deps IH] using rev_ind; [done|].
  rewrite !counted_dependents_snoc, IH.
  pose proof (not_condition_same w w' d H). repeat case_decide; tauto || lia.
Qed.

(** [setup] on a vertex: the state becomes idle and the join-counter grows
    by the number of predecessors that are not conditions. *)
Lemma innerNode_setup_spec n nd w :
  w_nodes w !! n = Some nd →
  (∀ d, d ∈ n_dependents nd → is_Some (w_nodes w !! d)) →
  ∃ w', innerNode_setup n w = (Ret tt, w') ∧
        w_nodes w' =
          <[n := node_set_joinCounter
                   (n_joinCounter nd + counted_dependents w (n_dependents nd))
                   (node_set_state kNodeStateIdle nd)]> (w_nodes w) ∧
        w_graphs w' = w_graphs w ∧ e_wq w' = e_wq w.
Proof.
  intros Hn Hd. unfold innerNode_setup.
  assert (∃ w1, state_Store n kNodeStateIdle w = (Ret tt, w1) ∧
    w_nodes w1 = <[n := node_set_state kNodeStateIdle nd]> (w_nodes w) ∧
    w_graphs w1 = w_graphs w ∧ e_wq w1 = e_wq w) as (w1 & E1 & N1 & G1 & Q1).
  { eexists. split; [mrun | repeat split]. }
  rewrite (run_bind_ret _ _ _ _ _ E1).
  assert (w_nodes w1 !! n = Some (node_set_state kNodeStateIdle nd)) as Hn1.
  { rewrite N1. apply lookup_insert_eq. }
  rewrite (run_bind_ret _ _ _ _ _ (getNode_ok _ _ _ Hn1)). world_simpl.
  apply (forM_invariant (λ d w2,
    w_nodes w2 =
      <[n := node_set_joinCounter (n_joinCounter nd + counted_dependents w d)
               (node_set_state kNodeStateIdle nd)]> (w_nodes w) ∧
    w_graphs w2 = w_graphs w ∧ e_wq w2 = e_wq w)).
  2:{ split; [|done]. rewrite N1. f_equal.
      unfold counted_dependents. rewrite filter_nil.
      unfold node_set_joinCounter, node_set_state. simpl. f_equal. lia. }
  intros d x r w2 Hsplit (N2 & G2 & Q2).
  destruct (Hd x) as [xd Hx].
  { rewrite Hsplit. apply elem_of_app. right. left. }
  assert (∃ xd2, w_nodes w2 !! x = Some xd2 ∧ n_Typ xd2 = n_Typ xd) as (xd2 & Hx2 & HT).
  { rewrite N2. destruct (decide (n = x)) as [->|Hne].
    - rewrite lookup_insert_eq. eexists. split; [done|]. simplify_eq. done.
    - rewrite lookup_insert_ne by done. eauto. }
  rewrite (run_bind_ret _ _ _ _ _ (getNode_ok _ _ _ Hx2)).
  rewrite counted_dependents_snoc.
  assert (not_condition w x ↔ n_Typ xd2 ≠ nodeCondition) as Hnc.
  { unfold not_condition. rewrite Hx. simpl. rewrite HT. split; congruence. }
  case_decide as HC.
  - rewrite decide_False by (rewrite Hnc; intros ?; done).
    eexists. split; [reflexivity|]. rewrite Z.add_0_r. done.
  - rewrite decide_True by (by rewrite Hnc).
    unfold node_joinCounter_Increase.
    assert (w_nodes w2 !! n = Some (node_set_joinCounter
              (n_joinCounter nd + counted_dependents w d)
              (node_set_state kNodeStateIdle nd))) as Hn2.
    { rewrite N2. apply lookup_insert_eq. }
    rewrite (modNode_ok _ _ _ _ Hn2).
    eexists. split; [reflexivity|]. world_simpl.
    split; [|done]. rewrite N2, insert_insert_eq. f_equal.
    unfold node_set_joinCounter. simpl. f_equal. lia.
Qed.

(** [reset]: the graph join-counter and the entry list are cleared, and the
    join-counter of every vertex of the graph is zero. *)
Lemma eGraph_reset_spec g gr w :
  w_graphs w !! g = Some gr →
  (∀ n, n ∈ g_nodes gr → is_Some (w_nodes w !! n)) →
  ∃ w', eGraph_reset g w = (Ret tt, w') ∧
        w_graphs w' = <[g := graph_set_entries [] (graph_set_joinCounter 0 gr)]> (w_graphs w) ∧
        same (node_view built) w w' ∧
        e_wq w' = e_wq w ∧
        (∀ n, n ∈ g_nodes gr → n_joinCounter <$> w_nodes w' !! n = Some 0).
Proof.
  intros Hg Hn. unfold eGraph_reset, graph_joinCounter_Set.
  rewrite (run_bind_ret _ _ _ _ _ (modGraph_ok _ _ _ _ Hg)).
  set (wA := set_graphs _ w).
  assert (w_graphs wA !! g = Some (graph_set_joinCounter 0 gr)) as HgA.
  { subst wA. world_simpl. apply lookup_insert_eq. }
  rewrite (run_bind_ret _ _ _ _ _ (modGraph_ok _ _ _ _ HgA)).
  set (wB := set_graphs _ wA).
  assert (w_graphs wB = <[g := graph_set_entries [] (graph_set_joinCounter 0 gr)]> (w_graphs w))
    as GB.
  { subst wB wA. world_simpl. apply insert_insert_eq. }
  assert (w_graphs wB !! g = Some (graph_set_entries [] (graph_set_joinCounter 0 gr)))
    as HgB.
  { rewrite GB. apply lookup_insert_eq. }
  rewrite (run_bind_ret _ _ _ _ _ (getGraph_ok _ _ _ HgB)). world_simpl.
  rewrite <- GB.
  apply (forM_invariant (λ d w1,
    w_graphs w1 = w_graphs wB ∧ same (node_view built) w w1 ∧ e_wq w1 = e_wq w ∧
    ∀ n, n ∈ d → n_joinCounter <$> w_nodes w1 !! n = Some 0)).
  2:{ split; [done|]. split; [done|]. split; [done|]. intros n Hin. by apply elem_of_nil in Hin. }
  intros d x r w1 Hsplit (G1 & B1 & Q1 & Z1).
  destruct (Hn x) as [xd Hx].
  { rewrite Hsplit. apply elem_of_app. right. left. }
  destruct (node_view_transport built _ _ _ _ B1 Hx) as (xd1 & Hx1 & _).
  unfold node_joinCounter_Set.
  pose proof (same_modNode built x (node_set_joinCounter 0) ltac:(by intros []) w1) as K.
  rewrite (modNode_ok _ _ _ _ Hx1) in K |- *.
  eexists. split; [reflexivity|]. world_simpl.
  split; [done|]. split; [etrans; [exact B1 | exact K]|]. split; [done|].
  intros n Hin. destruct (decide (x = n)) as [->|Hne].
  - by rewrite lookup_insert_eq.
  - rewrite lookup_insert_ne by done. apply Z1.
    apply elem_of_app in Hin as [Hin|Hin]; [done|].
    apply list_elem_of_singleton in Hin. congruence.
Qed.

Lemma occurrences_snoc x l y :
  occurrences x (l ++ [y]) = occurrences x l + (if decide (y = x) then 1 else 0).
Proof.
  unfold occurrences. rewrite filter_app, filter_cons, filter_nil, length_app.
  case_decide; simpl; lia.
Qed.

Lemma occurrences_cons x y l :
  occurrences x (y :: l) = (if decide (y = x) then 1 else 0) + occurrences x l.
Proof.
  unfold occurrences. rewrite filter_cons. case_decide; simpl length; lia.
Qed.

Lemma occurrences_NoDup x l :
  NoDup l → occurrences x l = if decide (x ∈ l) then 1 else 0.
Proof.
  induction 1 as [|y l Hy Hl IH].
  { rewrite decide_False by apply not_elem_of_nil. done. }
  rewrite occurrences_cons, IH.
  destruct (decide (y = x)) as [->|Hne].
  - rewrite decide_False by done. rewrite decide_True by left. done.
  - case_decide as Hin.
    + rewrite decide_True by (by right). done.
    + rewrite decide_False; [done|]. intros [?|?]%elem_of_cons; congruence.
Qed.

(** [setup] on a graph, vertex by vertex: reset has cleared the join-counters,
    and every visit of a vertex adds its counted predecessors once more. *)
Lemma eGraph_setup_counts g gr w :
  w_graphs w !! g = Some gr →
  (∀ n, n ∈ g_nodes gr →
        ∃ nd, w_nodes w !! n = Some nd ∧
              ∀ d, d ∈ n_dependents nd → is_Some (w_nodes w !! d)) →
  ∃ w' gr',
    eGraph_setup g w = (Ret tt, w') ∧
    w_graphs w' !! g = Some gr' ∧
    g_joinCounter gr' = 0 ∧
    g_entries gr' = filter (has_no_dependents w) (g_nodes gr) ∧
    g_nodes gr' = g_nodes gr ∧
    g_canceled gr' = g_canceled gr ∧
    (∀ n nd, n ∈ g_nodes gr → w_nodes w !! n = Some nd →
       n_state <$> w_nodes w' !! n = Some kNodeStateIdle ∧
       n_joinCounter <$> w_nodes w' !! n
       = Some (occurrences n (g_nodes gr) * counted_dependents w (n_dependents nd))).
Proof.
  intros Hg Hall. unfold eGraph_setup.
  destruct (eGraph_reset_spec g gr w Hg) as (w0 & E0 & G0 & B0 & _ & Z0).
  { intros n Hin. destruct (Hall n Hin) as (nd & Hn & _). by eexists. }
  rewrite (run_bind_ret _ _ _ _ _ E0).
  assert (w_graphs w0 !! g = Some (graph_set_entries [] (graph_set_joinCounter 0 gr)))
    as Hg0.
  { rewrite G0. apply lookup_insert_eq. }
  rewrite (run_bind_ret _ _ _ _ _ (getGraph_ok _ _ _ Hg0)). world_simpl.
  destruct (forM_invariant (λ d w1,
    same (node_view built) w w1 ∧
    (∃ gr1, w_graphs w1 !! g = Some gr1 ∧ g_joinCounter gr1 = 0 ∧
            g_entries gr1 = filter (has_no_dependents w) d) ∧
    (∀ n, n ∈ d → n_state <$> w_nodes w1 !! n = Some kNodeStateIdle) ∧
    (∀ n nd, n ∈ g_nodes gr → w_nodes w !! n = Some nd →
       n_joinCounter <$> w_nodes w1 !! n
       = Some (occurrences n d * counted_dependents w (n_dependents nd))))
    (g_nodes gr)
    (λ node, innerNode_setup node ≫= λ _,
       getNode node ≫= λ nd,
         if decide (length (n_dependents nd) = 0%nat)
         then modGraph g (λ x, graph_set_entries (g_entries x ++ [node]) x)
         else mret tt)) with w0 as (w' & E' & B' & (gr' & Hg' & J' & En') & S' & C').
  - intros d x r w1 Hsplit (B1 & (gr1 & Hg1 & J1 & En1) & S1 & C1).
    assert (x ∈ g_nodes gr) as Hxin.
    { rewrite Hsplit. apply elem_of_app. right. left. }
    destruct (Hall x Hxin) as (xd & Hx & Hdeps).
    destruct (node_view_transport built _ _ _ _ B1 Hx) as (xd1 & Hx1 & Hb).
    apply built_inv in Hb. destruct Hb as (_ & _ & Hdep1 & _).
    destruct (innerNode_setup_spec x xd1 w1 Hx1) as (w2 & E2 & N2 & G2 & _).
    { intros dd Hdd. rewrite Hdep1 in Hdd. destruct (Hdeps dd Hdd) as [ddn Hddn].
      destruct (node_view_transport built _ _ _ _ B1 Hddn) as (? & -> & _). by eexists. }
    rewrite (run_bind_ret _ _ _ _ _ E2).
    assert (n_joinCounter xd1 = occurrences x d * counted_dependents w (n_dependents xd))
      as Hz.
    { specialize (C1 x xd Hxin Hx). rewrite Hx1 in C1. by simplify_eq/=. }
    rewrite Hz, Hdep1, (counted_dependents_same w w1) in N2 by done.
    assert (w_nodes w2 !! x = Some (node_set_joinCounter
              (occurrences x d * counted_dependents w (n_dependents xd)
               + counted_dependents w (n_dependents xd))
              (node_set_state kNodeStateIdle xd1))) as Hx2.
    { rewrite N2. apply lookup_insert_eq. }
    rewrite (run_bind_ret _ _ _ _ _ (getNode_ok _ _ _ Hx2)). world_simpl.
    assert (same (node_view built) w w2) as B2.
    { etrans; [exact B1|]. unfold same, node_view. rewrite N2.
      eapply fmap_insert_same; [exact Hx1 | done]. }
    assert (∀ n, n ∈ d ++ [x] → n_state <$> w_nodes w2 !! n = Some kNodeStateIdle) as S2.
    { intros n Hin. rewrite N2. destruct (decide (x = n)) as [->|Hne].
      - by rewrite lookup_insert_eq.
      - rewrite lookup_insert_ne by done. apply S1.
        apply elem_of_app in Hin as [Hin|Hin]; [done|].
        apply list_elem_of_singleton in Hin. congruence. }
    assert (∀ n nd, n ∈ g_nodes gr → w_nodes w !! n = Some nd →
      n_joinCounter <$> w_nodes w2 !! n
      = Some (occurrences n (d ++ [x]) * counted_dependents w (n_dependents nd))) as C2.
    { intros n nd Hin Hn. rewrite N2, occurrences_snoc.
      destruct (decide (x = n)) as [->|Hne].
      - rewrite lookup_insert_eq. simplify_eq. simpl. f_equal. lia.
      - rewrite lookup_insert_ne by done. rewrite Z.add_0_r. by apply C1. }
    assert (w_graphs w2 !! g = Some gr1) as Hg2 by (by rewrite G2).
    rewrite Hdep1.
    assert (has_no_dependents w x ↔ length (n_dependents xd) = 0%nat) as Hent.
    { unfold has_no_dependents. rewrite Hx. simpl.
      destruct (n_dependents xd); simpl; split; intros; done. }
    case_decide as Hlen.
    + rewrite (modGraph_ok _ _ _ _ Hg2). eexists. split; [reflexivity|].
      world_simpl. split; [exact B2|]. split; [|split; [exact S2 | exact C2]].
      eexists. rewrite lookup_insert_eq. split; [reflexivity|]. split; [done|].
      simpl. rewrite En1, filter_app, filter_cons, filter_nil.
      rewrite decide_True by (by apply Hent). reflexivity.
    + eexists. split; [reflexivity|].
      split; [exact B2|]. split; [|split; [exact S2 | exact C2]].
      exists gr1. split; [done|]. split; [done|].
      rewrite En1, filter_app, filter_cons, filter_nil.
      rewrite decide_False by (by rewrite Hent). by rewrite app_nil_r.
  - split; [exact B0|]. split; [|split].
    + eexists. split; [exact Hg0|]. split; reflexivity.
    + intros n Hin. by apply elem_of_nil in Hin.
    + intros n nd Hin _. rewrite Z0 by done. done.
  - assert (keeps (same (graph_view (λ x, (g_nodes x, g_canceled x))))
              (forM_ (g_nodes gr) (λ node, innerNode_setup node ≫= λ _,
                 getNode node ≫= λ nd,
                   if decide (length (n_dependents nd) = 0%nat)
                   then modGraph g (λ x, graph_set_entries (g_entries x ++ [node]) x)
                   else mret tt))) as K by keeps_walk.
    destruct (graph_view_transport _ _ _ _ _ (keeps_run _ _ _ _ _ K E') Hg0)
      as (gr2 & Hg2 & Hfix).
    rewrite Hg' in Hg2. injection Hg2 as <-. simpl in Hfix. injection Hfix as Hn' Hc'.
    exists w', gr'. split; [exact E'|]. split; [exact Hg'|]. split; [exact J'|].
    split; [exact En'|]. split; [exact Hn'|]. split; [exact Hc'|].
    intros n nd Hin Hn. split; [by apply S' | by apply C'].
Qed.

(** [setup] on a graph that lists each vertex once. *)
Lemma eGraph_setup_spec g gr w :
  w_graphs w !! g = Some gr →
  NoDup (g_nodes gr) →
  (∀ n, n ∈ g_nodes gr →
        ∃ nd, w_nodes w !! n = Some nd ∧
              ∀ d, d ∈ n_dependents nd → is_Some (w_nodes w !! d)) →
  ∃ w' gr',
    eGraph_setup g w = (Ret tt, w') ∧
    w_graphs w' !! g = Some gr' ∧
    g_joinCounter gr' = 0 ∧
    g_entries gr' = filter (has_no_dependents w) (g_nodes gr) ∧
    g_nodes gr' = g_nodes gr ∧
    g_canceled gr' = g_canceled gr ∧
    (∀ n nd, n ∈ g_nodes gr → w_nodes w !! n = Some nd →
       n_state <$> w_nodes w' !! n = Some kNodeStateIdle ∧
       n_joinCounter <$> w_nodes w' !! n
       = Some (counted_dependents w (n_dependents nd))).
Proof.
  intros Hg Hdup Hall.
  destruct (eGraph_setup_counts g gr w Hg Hall)
    as (w' & gr' & E & Hg' & J & En & Hn' & Hc' & S).
  exists w', gr'. repeat (split; [done|]).
  intros n nd Hin Hn. destruct (S n nd Hin Hn) as [St Jc]. split; [done|].
  rewrite Jc, (occurrences_NoDup _ _ Hdup), decide_True by done. f_equal. lia.
Qed.

(** C5 (as the code has it): after setup on a graph (its vertices and their
    predecessors allocated): the graph join-counter is zero; the entry list
    is the vertex list filtered by "has no predecessors"; every vertex of
    the graph is idle; and its join-counter is the number of its
    predecessors that are not of kind condition, once for every time the
    vertex is listed in the graph: that number itself when the graph lists
    each vertex once. *)
Theorem eGraph_setup_postcondition (w : World) (g : positive) (gr : eGraph) :
  w_graphs w !! g = Some gr →
  (∀ n, n ∈ g_nodes gr →
        ∃ nd, w_nodes w !! n = Some nd ∧
              ∀ d, d ∈ n_dependents nd → is_Some (w_nodes w !! d)) →
  ∃ w' gr',
    eGraph_setup g w = (Ret tt, w') ∧
    w_graphs w' !! g = Some gr' ∧
    g_joinCounter gr' = 0 ∧
    g_entries gr' = filter (has_no_dependents w) (g_nodes gr) ∧
    ∀ n nd, n ∈ g_nodes gr → w_nodes w !! n = Some nd →
      n_state <$> w_nodes w' !! n = Some kNodeStateIdle ∧
      n_joinCounter <$> w_nodes w' !! n
      = Some (occurrences n (g_nodes gr) * counted_dependents w (n_dependents nd)) ∧
      (NoDup (g_nodes gr) →
       n_joinCounter <$> w_nodes w' !! n
       = Some (counted_dependents w (n_dependents nd))).
Proof.
  intros Hg Hall.
  destruct (eGraph_setup_counts g gr w Hg Hall)
    as (w' & gr' & E & Hg' & J & En & _ & _ & S).
  exists w', gr'. split; [exact E|]. split; [exact Hg'|]. split; [exact J|].
  split; [exact En|]. intros n nd Hin Hn.
  destruct (S n nd Hin Hn) as [St Jc]. split; [exact St|]. split; [exact Jc|].
  intros Hdup. rewrite Jc, (occurrences_NoDup _ _ Hdup), decide_True by done.
  f_equal. lia.
Qed.

(** C5 at [loop_world]. *)
Lemma eGraph_setup_postcondition_witness :
  ∃ w' gr',
    eGraph_setup 1 loop_world = (Ret tt, w') ∧
    w_graphs w' !! 1%positive = Some gr' ∧
    g_joinCounter gr' = 0 ∧
    g_entries gr' = filter (has_no_dependents loop_world) [1; 2; 3; 4]%positive ∧
    ∀ n nd, n ∈ [1; 2; 3; 4]%positive → w_nodes loop_world !! n = Some nd →
      n_state <$> w_nodes w' !! n = Some kNodeStateIdle ∧
      n_joinCounter <$> w_nodes w' !! n
      = Some (occurrences n [1; 2; 3; 4]%positive
              * counted_dependents loop_world (n_dependents nd)) ∧
      (NoDup [1; 2; 3; 4]%positive →
       n_joinCounter <$> w_nodes w' !! n
       = Some (counted_dependents loop_world (n_dependents nd))).
Proof.
  apply (eGraph_setup_postcondition loop_world 1
           (graph "g" [1; 2; 3; 4]%positive false)).
  - reflexivity.
  - intros n Hin. simpl in Hin.
    repeat (apply elem_of_cons in Hin as [-> | Hin]);
      try (by apply elem_of_nil in Hin);
      (eexists; split; [reflexivity|]); simpl; intros d Hd;
      repeat (apply elem_of_cons in Hd as [-> | Hd]);
      try (by apply elem_of_nil in Hd); by eexists.
Defined.

(** C5, the claim fails: B is listed twice in the graph of [twice_world];
    its only predecessor A is not a condition, and after setup the
    join-counter of B is 2. *)
Lemma eGraph_setup_counts_per_listing :
  let w' := (eGraph_setup 1 twice_world).2 in
  (eGraph_setup 1 twice_world).1 = Ret tt ∧
  n_dependents <$> w_nodes twice_world !! 2%positive = Some [1%positive] ∧
  counted_dependents twice_world [1%positive] = 1 ∧
  n_joinCounter <$> w_nodes w' !! 2%positive = Some 2 ∧
  n_joinCounter <$> w_nodes w' !! 2%positive
    ≠ Some (counted_dependents twice_world [1%positive]).
Proof. vm_compute. repeat split; discriminate. Qed.

(** In the loop: A is the only entry; B waits for A only, the condition is
    not counted; the condition waits for B; D waits for nobody. *)
Example loop_world_after_setup :
  let w' := (eGraph_setup 1 loop_world).2 in
  g_entries <$> w_graphs w' !! 1%positive = Some [1%positive] ∧
  n_joinCounter <$> w_nodes w' !! 1%positive = Some 0 ∧
  n_joinCounter <$> w_nodes w' !! 2%positive = Some 1 ∧
  n_joinCounter <$> w_nodes w' !! 3%positive = Some 1 ∧
  n_joinCounter <$> w_nodes w' !! 4%positive = Some 0.
Proof. vm_compute. repeat split. Qed.

(** S4 as a whole: B runs three times, D once, and the run ends. *)
Example loop_world_run :
  let r := Run pool_runs 12 single_flow loop_world in
  r.1 = Ret tt ∧
  n_calls <$> w_nodes r.2 !! 2%positive = Some 3%nat ∧
  n_calls <$> w_nodes r.2 !! 4%positive = Some 1%nat ∧
  e_wq r.2 = [] ∧ e_wg r.2 = 0%nat.
Proof. vm_compute. repeat split. Qed.

(** Membership in a list given in full, case by case. *)
Ltac in_list H :=
  repeat (apply elem_of_cons in H as [-> | H]); try (by apply elem_of_nil in H).

(** * Nothing ready is left out *)

Lemma candidates_spec l w :
  (∀ s, s ∈ l → is_Some (w_nodes w !! s)) →
  candidates l w = (Ret (filter (ready w) l), w).
Proof.
  induction l as [|n l IH]; intros Hs; cbn [candidates]; [done|].
  destruct (Hs n) as [nd Hn]; [left|].
  assert (innerNode_JoinCounter n w = (Ret (n_joinCounter nd), w)) as Hj by mrun.
  rewrite (run_bind_ret _ _ _ _ _ Hj).
  rewrite (run_bind_ret _ _ _ _ _ (getNode_ok _ _ _ Hn)).
  rewrite (run_bind_ret _ _ _ _ _ (IH ltac:(intros s ?; apply Hs; by right))).
  rewrite filter_cons.
  assert (ready w n ↔ n_joinCounter nd = 0 ∨ n_Typ nd = nodeCondition) as Hr.
  { unfold ready. rewrite Hn. simpl. split; intros [?|?]; simplify_eq; auto;
      [left | right]; congruence. }
  repeat case_decide; tauto || reflexivity.
Qed.

Lemma schedulable_same w w' n :
  same (node_view built) w w' → same (graph_view g_canceled) w w' →
  schedulable w n → schedulable w' n.
Proof.
  intros B C (nd & gr & Hn & Hg & Hc).
  destruct (node_view_transport built _ _ _ _ B Hn) as (nd' & Hn' & Hb).
  apply built_inv in Hb. destruct Hb as (_ & _ & _ & _ & _ & Hgb & _).
  destruct (graph_view_transport g_canceled _ _ _ _ C Hg) as (gr' & Hg' & Hc').
  exists nd', gr'. rewrite Hgb. split; [done|]. split; [done | congruence].
Qed.

(** [schedule] enqueues all of its argument when every vertex in it can be
    scheduled. *)
Lemma schedule_all l w :
  (∀ n, n ∈ l → schedulable w n) →
  (schedule l w).1 = Ret tt ∧ e_wq (schedule l w).2 = e_wq w ++ l.
Proof.
  revert w. induction l as [|n l IH]; intros w Hs.
  { split; [done | by rewrite app_nil_r]. }
  destruct (Hs n) as (nd & gr & Hn & Hg & Hc); [left|].
  cbn [schedule].
  rewrite (run_bind_ret _ _ _ _ _ (getNode_ok _ _ _ Hn)).
  rewrite (run_bind_ret _ _ _ _ _ (getGraph_ok _ _ _ Hg)), Hc.
  set (pre := graph_joinCounter_Increase (n_g nd) ;; wg_Add 1 ;; wq_Put n ;;
              state_Store n kNodeStateWaiting ;; scheCond_Signal (n_g nd)).
  assert (keeps (same (node_view built)) pre) as KB by (subst pre; keeps_walk).
  assert (keeps (same (graph_view g_canceled)) pre) as KC by (subst pre; keeps_walk).
  match goal with |- context [?T w] =>
    assert (∃ w1, pre w = (Ret tt, w1) ∧
                  T w = ((schedule l w1).1, (schedule l w1).2) ∧
                  e_wq w1 = e_wq w ++ [n]) as (w1 & E1 & -> & Q1)
  end.
  { subst pre. eexists. split; [mrun|]. split; [mrun | reflexivity]. }
  specialize (KB w). specialize (KC w). rewrite E1 in KB, KC. simpl in KB, KC.
  destruct (IH w1) as [R1 R2].
  { intros m Hm. eapply schedulable_same; [exact KB | exact KC |]. apply Hs. by right. }
  simpl. split; [exact R1|]. by rewrite R2, Q1, <- app_assoc.
Qed.

(** When the successors of a finished vertex can be scheduled,
    [sche_successors] enqueues the ready ones, all of them, as the sort left
    them. *)
Lemma sche_successors_all_ready node nd w :
  w_nodes w !! node = Some nd →
  (∀ d, d ∈ n_dependents nd → is_Some (w_nodes w !! d)) →
  (∀ s, s ∈ n_successors nd → schedulable w s) →
  e_wq (sche_successors node w).2 =
    e_wq w ++ insertionSortCmpFunc w (filter (ready w) (n_successors nd)).
Proof.
  intros Hn Hd Hs. unfold sche_successors.
  rewrite (run_bind_ret _ _ _ _ _ (getNode_ok _ _ _ Hn)).
  rewrite (run_bind_ret _ _ _ _ _ (candidates_spec _ _
    ltac:(intros s Hin; destruct (Hs s Hin) as (? & ? & -> & _); by eexists))).
  rewrite (run_bind_ret _ _ _ _ _ (sortByPriority_ok _ _)).
  destruct (innerNode_setup_spec node nd w Hn Hd) as (w1 & E1 & N1 & G1 & Q1).
  rewrite (run_bind_ret _ _ _ _ _ E1).
  destruct (schedule_all (insertionSortCmpFunc w (filter (ready w) (n_successors nd))) w1)
    as [_ ->]; [|by rewrite Q1].
  intros s Hin.
  rewrite insertionSortCmpFunc_Permutation in Hin. apply list_elem_of_filter in Hin as [_ Hin].
  eapply schedulable_same; [| |by apply Hs].
  - unfold same, node_view. rewrite N1. eapply fmap_insert_same; [exact Hn | done].
  - unfold same, graph_view. by rewrite G1.
Qed.

(** X11: when the vertices of a graph can be scheduled, the entry part of
    [scheduleGraph] enqueues exactly the vertices without predecessors, in
    ascending order of priority. *)
Lemma scheduleGraph_entries_enqueues_entries g gr w :
  w_graphs w !! g = Some gr →
  NoDup (g_nodes gr) →
  (∀ n, n ∈ g_nodes gr →
        ∃ nd, w_nodes w !! n = Some nd ∧
              ∀ d, d ∈ n_dependents nd → is_Some (w_nodes w !! d)) →
  (∀ n, n ∈ g_nodes gr → schedulable w n) →
  ∃ pushed, e_wq (scheduleGraph_entries g w).2 = e_wq w ++ pushed ∧
            pushed ≡ₚ filter (has_no_dependents w) (g_nodes gr) ∧
            StronglySorted (priority_le w) pushed.
Proof.
  intros Hg Hdup Hall Hsch. unfold scheduleGraph_entries.
  destruct (eGraph_setup_spec g gr w Hg Hdup Hall) as (w1 & gr1 & E1 & Hg1 & _ & En1 & _).
  assert (same (node_view built) w w1) as B1.
  { eapply keeps_run; [|exact E1]. keeps_walk. }
  assert (same (graph_view g_canceled) w w1) as C1.
  { eapply keeps_run; [|exact E1]. keeps_walk. }
  assert (e_wq w1 = e_wq w) as Q1.
  { eapply (keeps_run (same e_wq)); [|exact E1]. keeps_walk. }
  rewrite (run_bind_ret _ _ _ _ _ E1).
  rewrite (run_bind_ret _ _ _ _ _ (getGraph_ok _ _ _ Hg1)).
  rewrite (run_bind_ret _ _ _ _ _ (sortByPriority_ok _ _)).
  pose proof (same_modGraph g_canceled g
    (graph_set_entries (insertionSortCmpFunc w1 (g_entries gr1)))
    ltac:(by intros []) w1) as C2.
  rewrite (modGraph_ok _ _ _ _ Hg1) in C2.
  rewrite (run_bind_ret _ _ _ _ _ (modGraph_ok _ _ _ _ Hg1)).
  set (w2 := set_graphs _ w1) in *. simpl in C2.
  destruct (schedule_all (insertionSortCmpFunc w1 (g_entries gr1)) w2) as [_ ->].
  { intros n Hin. rewrite insertionSortCmpFunc_Permutation, En1 in Hin.
    apply list_elem_of_filter in Hin as [_ Hin].
    eapply schedulable_same; [| |by apply Hsch].
    - etrans; [exact B1 | done].
    - etrans; [exact C1 | exact C2]. }
  exists (insertionSortCmpFunc w1 (g_entries gr1)).
  split; [subst w2; world_simpl; by rewrite Q1|].
  split; [by rewrite insertionSortCmpFunc_Permutation, En1|].
  eapply StronglySorted_weaken; [|apply insertionSortCmpFunc_sorted].
  intros i j. unfold priority_le. by rewrite !(priorityOf_same w w1).
Qed.

(** X11 at [entries_world]. *)
Lemma scheduleGraph_entries_enqueues_entries_witness :
  ∃ pushed, e_wq (scheduleGraph_entries 1 entries_world).2 = e_wq entries_world ++ pushed ∧
            pushed ≡ₚ filter (has_no_dependents entries_world) [1; 2; 3]%positive ∧
            StronglySorted (priority_le entries_world) pushed.
Proof.
  apply (scheduleGraph_entries_enqueues_entries 1 (graph "g" [1; 2; 3]%positive false)
           entries_world).
  - reflexivity.
  - apply (bool_decide_unpack _). vm_compute. exact I.
  - intros n Hin. simpl in Hin.
    in_list Hin; (eexists; split; [reflexivity|]); intros d Hd; by apply elem_of_nil in Hd.
  - intros n Hin. simpl in Hin.
    in_list Hin; (eexists _, _; split; [reflexivity|]; split; reflexivity).
Defined.

(** * Building the graph *)

Lemma edges_mirrored_alt w :
  edges_mirrored w ↔
  map_Forall (λ a na, map_Forall (λ b nb,
    occurrences b (n_successors na) = occurrences a (n_dependents nb)) (w_nodes w))
    (w_nodes w).
Proof.
  unfold edges_mirrored, map_Forall. split.
  - intros H a na Ha b nb Hb. by apply H.
  - intros H a b na nb Ha Hb. by apply (H a na Ha b nb Hb).
Qed.

#[global] Instance edges_mirrored_dec w : Decision (edges_mirrored w).
Proof.
  refine (cast_if (decide (map_Forall (λ a na, map_Forall (λ b nb,
    occurrences b (n_successors na) = occurrences a (n_dependents nb)) (w_nodes w))
    (w_nodes w)))); by rewrite edges_mirrored_alt.
Defined.

Lemma innerNode_precede_ok n v nn nv w :
  w_nodes w !! n = Some nn →
  w_nodes w !! v = Some nv →
  innerNode_precede n v w =
    (Ret tt,
     set_nodes
       (<[v := node_set_dependents
                 (n_dependents (if decide (v = n)
                                then node_set_successors (n_successors nn ++ [v]) nn
                                else nv) ++ [n])
                 (if decide (v = n)
                  then node_set_successors (n_successors nn ++ [v]) nn
                  else nv)]>
          (<[n := node_set_successors (n_successors nn ++ [v]) nn]> (w_nodes w)))
       w).
Proof.
  intros Hn Hv. unfold innerNode_precede.
  rewrite (run_bind_ret _ _ _ _ _ (modNode_ok _ _ _ _ Hn)).
  case_decide as E.
  - subst v. etrans; [apply modNode_ok; world_simpl; apply lookup_insert_eq|]. done.
  - etrans; [apply modNode_ok; world_simpl; by rewrite lookup_insert_ne|]. done.
Qed.

(** X1: precede on two allocated vertices returns and appends [v] to the
    successors of [n] and [n] to the predecessors of [v] ([n = v] included).
    When the successor lists and the predecessor lists mirrored each other
    before, they still do; no state, join-counter or owner is touched. *)
Theorem innerNode_precede_keeps_edges_mirrored (w : World) (n v : positive)
    (nn nv : innerNode) :
  w_nodes w !! n = Some nn →
  w_nodes w !! v = Some nv →
  edges_mirrored w →
  ∃ w', innerNode_precede n v w = (Ret tt, w') ∧
        edges_mirrored w' ∧
        (∃ nn', w_nodes w' !! n = Some nn' ∧
                n_successors nn' = n_successors nn ++ [v]) ∧
        (∃ nv', w_nodes w' !! v = Some nv' ∧
                n_dependents nv' = n_dependents nv ++ [n]) ∧
        same (node_view (λ x, (n_state x, n_joinCounter x, n_g x))) w w'.
Proof.
  intros Hn Hv Hm. eexists. split; [by apply innerNode_precede_ok|].
  world_simpl.
  (* the successors and the dependents of every vertex afterwards *)
  assert (∀ a na', (<[v := node_set_dependents
                 (n_dependents (if decide (v = n)
                                then node_set_successors (n_successors nn ++ [v]) nn
                                else nv) ++ [n])
                 (if decide (v = n)
                  then node_set_successors (n_successors nn ++ [v]) nn
                  else nv)]>
          (<[n := node_set_successors (n_successors nn ++ [v]) nn]> (w_nodes w)))
          !! a = Some na' →
     ∃ na, w_nodes w !! a = Some na ∧
           n_successors na' = n_successors na ++ (if decide (a = n) then [v] else []) ∧
           n_dependents na' = n_dependents na ++ (if decide (a = v) then [n] else []) ∧
           (n_state na', n_joinCounter na', n_g na') = (n_state na, n_joinCounter na, n_g na))
    as Hshape.
  { intros a na' Ha. destruct (decide (a = v)) as [->|Hav].
    - rewrite lookup_insert_eq in Ha. injection Ha as <-.
      case_decide as E.
      + subst v. exists nn. done.
      + exists nv. by rewrite app_nil_r.
    - rewrite lookup_insert_ne in Ha by done.
      destruct (decide (a = n)) as [->|Han].
      + rewrite lookup_insert_eq in Ha. injection Ha as <-.
        exists nn. by rewrite app_nil_r.
      + rewrite lookup_insert_ne in Ha by done.
        exists na'. by rewrite !app_nil_r. }
  split; [|split; [|split]].
  - intros a b na' nb' Ha Hb.
    destruct (Hshape a na' Ha) as (na & Ha0 & -> & _).
    destruct (Hshape b nb' Hb) as (nb & Hb0 & _ & -> & _).
    specialize (Hm a b na nb Ha0 Hb0).
    unfold occurrences in *. rewrite !filter_app, !length_app.
    repeat case_decide; subst; rewrite ?filter_cons, ?filter_nil;
      repeat case_decide; simpl; try congruence; lia.
  - case_decide as E.
    + subst v. eexists. rewrite lookup_insert_eq. split; [reflexivity|]. done.
    + eexists. rewrite lookup_insert_ne, lookup_insert_eq by done.
      split; [reflexivity|]. done.
  - eexists. rewrite lookup_insert_eq. split; [reflexivity|].
    case_decide; [subst v; by simplify_eq | done].
  - unfold same, node_view. world_simpl. apply map_eq. intros a.
    rewrite !lookup_fmap.
    destruct (decide (a = v)) as [->|Hav].
    + rewrite lookup_insert_eq, Hv. simpl. case_decide; [subst; by simplify_eq | done].
    + rewrite lookup_insert_ne by done.
      destruct (decide (a = n)) as [->|Han].
      * by rewrite lookup_insert_eq, Hn.
      * by rewrite lookup_insert_ne by done.
Qed.

(** X1 at [diamond_world]: an edge from B to C. *)
Lemma innerNode_precede_keeps_edges_mirrored_witness :
  ∃ w', innerNode_precede 2 3 diamond_world = (Ret tt, w') ∧
        edges_mirrored w' ∧
        (∃ nn', w_nodes w' !! 2%positive = Some nn' ∧
                n_successors nn' = [4%positive] ++ [3%positive]) ∧
        (∃ nv', w_nodes w' !! 3%positive = Some nv' ∧
                n_dependents nv' = [1%positive] ++ [2%positive]) ∧
        same (node_view (λ x, (n_state x, n_joinCounter x, n_g x))) diamond_world w'.
Proof.
  apply (innerNode_precede_keeps_edges_mirrored diamond_world 2 3
           (vertex "B" [4%positive] [1%positive] nodeStatic (PStatic returns) 1 2)
           (vertex "C" [4%positive] [1%positive] nodeStatic (PStatic returns) 1 1)).
  - reflexivity.
  - reflexivity.
  - apply (bool_decide_unpack _). vm_compute. exact I.
Defined.

Lemma forM_push_owner g l w :
  (∀ n, n ∈ l → is_Some (w_nodes w !! n)) →
  ∃ h, forM_ l (λ node, modNode node (node_set_g g)) w = (Ret tt, set_nodes h w) ∧
       ∀ n, h !! n = (λ nd, if decide (n ∈ l) then node_set_g g nd else nd) <$> w_nodes w !! n.
Proof.
  revert w. induction l as [|x l IH]; intros w Hl; cbn [forM_].
  { exists (w_nodes w). split; [by destruct w|]. intros n.
    destruct (w_nodes w !! n) as [nd|]; [|done]. cbn [fmap option_fmap option_map].
    case_decide as Hin; [by apply elem_of_nil in Hin | done]. }
  destruct (Hl x) as [xd Hx]; [left|].
  rewrite (run_bind_ret _ _ _ _ _ (modNode_ok _ _ _ _ Hx)).
  destruct (IH (set_nodes (<[x := node_set_g g xd]> (w_nodes w)) w)) as (h & E & Hh).
  { intros n Hn. world_simpl. destruct (decide (n = x)) as [->|Hne].
    - rewrite lookup_insert_eq. by eexists.
    - rewrite lookup_insert_ne by done. apply Hl. by right. }
  exists h. split; [exact E|]. intros n. rewrite Hh. world_simpl.
  destruct (decide (n = x)) as [->|Hne].
  - rewrite lookup_insert_eq, Hx. simpl.
    rewrite (decide_True (P := x ∈ x :: l)) by left.
    case_decide; by destruct xd.
  - rewrite lookup_insert_ne by done. destruct (w_nodes w !! n); simpl; [|done].
    f_equal. repeat case_decide; try done.
    + exfalso. apply H0. by right.
    + exfalso. apply elem_of_cons in H0 as [?|?]; done.
Qed.

Lemma eGraph_push_ok g gr l w :
  w_graphs w !! g = Some gr →
  (∀ n, n ∈ l → is_Some (w_nodes w !! n)) →
  ∃ h, eGraph_push g l w =
         (Ret tt, set_nodes h
                    (set_graphs (<[g := graph_set_nodes (g_nodes gr ++ l) gr]> (w_graphs w)) w)) ∧
       ∀ n, h !! n = (λ nd, if decide (n ∈ l) then node_set_g g nd else nd) <$> w_nodes w !! n.
Proof.
  intros Hg Hl. unfold eGraph_push.
  rewrite (run_bind_ret _ _ _ _ _ (modGraph_ok _ _ _ _ Hg)).
  destruct (forM_push_owner g l
    (set_graphs (<[g := graph_set_nodes (g_nodes gr ++ l) gr]> (w_graphs w)) w) Hl)
    as (h & E & Hh).
  exists h. split; [exact E | exact Hh].
Qed.

(** X2: push on an allocated graph with allocated vertices returns; the
    vertex list of the graph is the old one followed by the pushed vertices,
    every pushed vertex has the graph as its owner, every other vertex and
    every other graph (a previous owner too) is as it was, and the executor
    is not touched. *)
Theorem eGraph_push_appends_and_owns (w : World) (g : positive) (gr : eGraph)
    (l : list positive) :
  w_graphs w !! g = Some gr →
  (∀ n, n ∈ l → is_Some (w_nodes w !! n)) →
  ∃ w', eGraph_push g l w = (Ret tt, w') ∧
        w_graphs w' = <[g := graph_set_nodes (g_nodes gr ++ l) gr]> (w_graphs w) ∧
        (∀ n, w_nodes w' !! n =
              (λ nd, if decide (n ∈ l) then node_set_g g nd else nd) <$> w_nodes w !! n) ∧
        e_wq w' = e_wq w ∧ e_wg w' = e_wg w.
Proof.
  intros Hg Hl. destruct (eGraph_push_ok g gr l w Hg Hl) as (h & E & Hh).
  eexists. split; [exact E|]. world_simpl. done.
Qed.

(** X2 at [subflow_world]: S1 pushed into the sub-graph. *)
Lemma eGraph_push_appends_and_owns_witness :
  ∃ w', eGraph_push 2 [4%positive] subflow_world = (Ret tt, w') ∧
        w_graphs w' = <[2%positive := graph_set_nodes ([] ++ [4%positive]) (graph "sub" [] false)]>
                        (w_graphs subflow_world) ∧
        (∀ n, w_nodes w' !! n =
              (λ nd, if decide (n ∈ [4%positive]) then node_set_g 2 nd else nd)
                <$> w_nodes subflow_world !! n) ∧
        e_wq w' = e_wq subflow_world ∧ e_wg w' = e_wg subflow_world.
Proof.
  apply (eGraph_push_appends_and_owns subflow_world 2 (graph "sub" [] false) [4%positive]).
  - reflexivity.
  - intros n Hin. in_list Hin. by eexists.
Defined.

(** X3: pushing [l1] and then [l2] into a graph is pushing [l1 ++ l2]. *)
Theorem eGraph_push_twice (w : World) (g : positive) (gr : eGraph)
    (l1 l2 : list positive) :
  w_graphs w !! g = Some gr →
  (∀ n, n ∈ l1 ++ l2 → is_Some (w_nodes w !! n)) →
  (eGraph_push g l1 ;; eGraph_push g l2) w = eGraph_push g (l1 ++ l2) w ∧
  (eGraph_push g (l1 ++ l2) w).1 = Ret tt.
Proof.
  intros Hg Hl.
  destruct (eGraph_push_ok g gr (l1 ++ l2) w Hg Hl) as (h & E & Hh).
  destruct (eGraph_push_ok g gr l1 w Hg) as (h1 & E1 & Hh1).
  { intros n Hn. apply Hl, elem_of_app. by left. }
  rewrite E. split; [|done].
  rewrite (run_bind_ret _ _ _ _ _ E1).
  set (w1 := set_nodes h1 _).
  destruct (eGraph_push_ok g (graph_set_nodes (g_nodes gr ++ l1) gr) l2 w1) as (h2 & E2 & Hh2).
  { subst w1. world_simpl. apply lookup_insert_eq. }
  { intros n Hn. subst w1. world_simpl. rewrite Hh1.
    destruct (Hl n) as [nd ->]; [apply elem_of_app; by right|]. by eexists. }
  rewrite E2. subst w1. world_simpl. rewrite insert_insert_eq, <- app_assoc.
  assert (h2 = h) as ->; [|reflexivity].
  apply map_eq. intros n. rewrite Hh2, Hh. world_simpl. rewrite Hh1.
  destruct (w_nodes w !! n) as [nd|]; simpl; [|done]. f_equal.
  repeat case_decide; try done; try by destruct nd.
  all: exfalso; rewrite elem_of_app in *; tauto.
Qed.

(** X3 at [subflow_world]. *)
Lemma eGraph_push_twice_witness :
  (eGraph_push 2 [4%positive] ;; eGraph_push 2 [3%positive]) subflow_world
    = eGraph_push 2 ([4%positive] ++ [3%positive]) subflow_world ∧
  (eGraph_push 2 ([4%positive] ++ [3%positive]) subflow_world).1 = Ret tt.
Proof.
  apply (eGraph_push_twice subflow_world 2 (graph "sub" [] false)).
  - reflexivity.
  - intros n Hin. simpl in Hin. in_list Hin; by eexists.
Defined.

(** * Join-counters: setup and drop *)

Lemma innerNode_drop_ok n nd w :
  w_nodes w !! n = Some nd →
  n_Typ nd ≠ nodeCondition →
  (∀ s, s ∈ n_successors nd → is_Some (w_nodes w !! s)) →
  ∃ w', innerNode_drop n w = (Ret tt, w') ∧
        (∀ v, n_joinCounter <$> w_nodes w' !! v =
              (λ x, n_joinCounter x - occurrences v (n_successors nd)) <$> w_nodes w !! v) ∧
        same (node_view (λ x, (built x, n_state x, n_calls x))) w w' ∧
        w_graphs w' = w_graphs w ∧ e_wq w' = e_wq w ∧ e_wg w' = e_wg w ∧
        w_trace w' = w_trace w.
Proof.
  intros Hn Ht Hs. unfold innerNode_drop.
  rewrite (run_bind_ret _ _ _ _ _ (getNode_ok _ _ _ Hn)).
  destruct (forM_invariant (λ d w1,
      (∀ v, n_joinCounter <$> w_nodes w1 !! v =
            (λ x, n_joinCounter x - occurrences v d) <$> w_nodes w !! v) ∧
      same (node_view (λ x, (built x, n_state x, n_calls x))) w w1 ∧
      w_graphs w1 = w_graphs w ∧ e_wq w1 = e_wq w ∧ e_wg w1 = e_wg w ∧
      w_trace w1 = w_trace w)
    (n_successors nd)
    (λ node, getNode n ≫= λ nd',
       if decide (n_Typ nd' ≠ nodeCondition) then node_joinCounter_Decrease node
       else mret tt)) with w as (w' & E & H').
  - intros d x r w1 Hsplit (J & B & G & Q & WG & T).
    destruct (node_view_transport _ _ _ _ _ B Hn) as (nd1 & Hn1 & Hb1).
    assert (n_Typ nd1 = n_Typ nd) as Ht1.
    { apply (f_equal (λ p, p.1.1)) in Hb1. cbn [fst] in Hb1.
      apply built_inv in Hb1. tauto. }
    destruct (Hs x) as [xd Hx]; [rewrite Hsplit; apply elem_of_app; right; left|].
    destruct (node_view_transport _ _ _ _ _ B Hx) as (xd1 & Hx1 & Hbx).
    rewrite (run_bind_ret _ _ _ _ _ (getNode_ok _ _ _ Hn1)).
    rewrite decide_True by congruence.
    unfold node_joinCounter_Decrease. rewrite (modNode_ok _ _ _ _ Hx1).
    eexists. split; [reflexivity|]. world_simpl.
    split; [|split; [|done]].
    + intros v. destruct (decide (v = x)) as [->|Hne].
      * rewrite lookup_insert_eq, Hx. simpl. f_equal.
        specialize (J x). rewrite Hx1, Hx in J. simpl in J. injection J as J.
        rewrite occurrences_snoc, decide_True by done. lia.
      * rewrite lookup_insert_ne by done. rewrite J.
        destruct (w_nodes w !! v); simpl; [|done].
        rewrite occurrences_snoc, decide_False by done. f_equal. lia.
    + etrans; [exact B|]. unfold same, node_view. world_simpl.
      eapply fmap_insert_same; [exact Hx1 | done].
  - split; [|done]. intros v. destruct (w_nodes w !! v); simpl; [|done].
    f_equal. unfold occurrences. simpl. lia.
  - exists w'. done.
Qed.

(** X4: drop on a vertex that is not of kind condition, when every
    successor holds a join-counter at least as large as the number of times
    it occurs among the successors (as after setup), returns and takes that
    number from the join-counter of every vertex; no join-counter goes
    below zero.  Nothing else changes. *)
Theorem innerNode_drop_releases_one_per_edge (w : World) (n : positive) (nd : innerNode) :
  w_nodes w !! n = Some nd →
  n_Typ nd ≠ nodeCondition →
  (∀ s, s ∈ n_successors nd →
        ∃ sd, w_nodes w !! s = Some sd ∧
              occurrences s (n_successors nd) ≤ n_joinCounter sd) →
  ∃ w', innerNode_drop n w = (Ret tt, w') ∧
        (∀ v, n_joinCounter <$> w_nodes w' !! v =
              (λ x, n_joinCounter x - occurrences v (n_successors nd)) <$> w_nodes w !! v) ∧
        (∀ s sd', s ∈ n_successors nd → w_nodes w' !! s = Some sd' →
                  0 ≤ n_joinCounter sd') ∧
        same (node_view (λ x, (built x, n_state x, n_calls x))) w w' ∧
        w_graphs w' = w_graphs w ∧ e_wq w' = e_wq w ∧ e_wg w' = e_wg w.
Proof.
  intros Hn Ht Hs.
  destruct (innerNode_drop_ok n nd w Hn Ht) as (w' & E & J & B & G & Q & WG & _).
  { intros s Hin. destruct (Hs s Hin) as (sd & -> & _). by eexists. }
  exists w'. split; [exact E|]. split; [exact J|]. split; [|done].
  intros s sd' Hin Hs'. destruct (Hs s Hin) as (sd & Hsd & Hle).
  specialize (J s). rewrite Hs', Hsd in J. simpl in J. injection J as ->. lia.
Qed.

(** X4 at [diamond_world] after setup: A releases B and C. *)
Lemma innerNode_drop_releases_one_per_edge_witness :
  let w := (eGraph_setup 1 diamond_world).2 in
  ∃ w', innerNode_drop 1 w = (Ret tt, w') ∧
        (∀ v, n_joinCounter <$> w_nodes w' !! v =
              (λ x, n_joinCounter x - occurrences v [2; 3]%positive)
                <$> w_nodes w !! v) ∧
        (∀ s sd', s ∈ [2; 3]%positive → w_nodes w' !! s = Some sd' →
                  0 ≤ n_joinCounter sd') ∧
        same (node_view (λ x, (built x, n_state x, n_calls x))) w w' ∧
        w_graphs w' = w_graphs w ∧ e_wq w' = e_wq w ∧ e_wg w' = e_wg w.
Proof.
  apply (innerNode_drop_releases_one_per_edge (eGraph_setup 1 diamond_world).2 1
           (vertex "A" [2; 3]%positive [] nodeStatic (PStatic returns) 1 2)).
  - vm_compute. reflexivity.
  - discriminate.
  - intros s Hin. simpl in Hin.
    in_list Hin; (eexists; split; [vm_compute; reflexivity|]); vm_compute; discriminate.
Defined.

Lemma edges_into_snoc w u ds p :
  edges_into w u (ds ++ [p]) = edges_into w u ds + occurrences u (successorsOf w p).
Proof.
  unfold edges_into. induction ds as [|q ds IH]; simpl; [lia|]. rewrite IH. lia.
Qed.

(** Counting the occurrences in [l] of each element of a list without
    repeats counts the elements of [l] that are in that list. *)
Lemma sum_occurrences (ds l : list positive) :
  NoDup ds →
  foldr (λ p acc, occurrences p l + acc) 0 ds = Z.of_nat (length (filter (.∈ ds) l)).
Proof.
  intros Hnd. induction l as [|x l IH].
  { simpl. induction ds as [|p ds IHd]; [done|].
    simpl. apply NoDup_cons in Hnd as [_ Hnd]. rewrite (IHd Hnd). done. }
  assert (∀ ds', foldr (λ p acc, occurrences p (x :: l) + acc) 0 ds'
                 = foldr (λ p acc, occurrences p l + acc) 0 ds' + occurrences x ds') as Hstep.
  { induction ds' as [|p ds' IHd]; simpl; [done|].
    rewrite IHd, !occurrences_cons.
    destruct (decide (x = p)) as [->|Hne].
    - rewrite !decide_True by done. lia.
    - rewrite !decide_False by congruence. lia. }
  rewrite Hstep, IH, occurrences_NoDup by done.
  rewrite filter_cons. case_decide; simpl length; lia.
Qed.

Lemma filter_agree {A} (P Q : A → Prop) `{!∀ x, Decision (P x), !∀ x, Decision (Q x)}
    (l : list A) :
  (∀ x, x ∈ l → P x ↔ Q x) → filter P l = filter Q l.
Proof.
  induction l as [|x l IH]; intros Hpq; [done|].
  rewrite !filter_cons. rewrite IH by (intros y Hy; apply Hpq; by right).
  destruct (Hpq x ltac:(left)). repeat case_decide; tauto || done.
Qed.

(** Dropping each vertex of [ds] once takes from every join-counter the
    number of edges that lead to it from [ds]. *)
Lemma drops_release ds w :
  (∀ d, d ∈ ds → ∃ nd, w_nodes w !! d = Some nd ∧ n_Typ nd ≠ nodeCondition ∧
                       ∀ s, s ∈ n_successors nd → is_Some (w_nodes w !! s)) →
  ∃ w', forM_ ds innerNode_drop w = (Ret tt, w') ∧
        (∀ u, n_joinCounter <$> w_nodes w' !! u =
              (λ x, n_joinCounter x - edges_into w u ds) <$> w_nodes w !! u) ∧
        same (node_view (λ x, (built x, n_state x, n_calls x))) w w'.
Proof.
  intros Hds.
  apply (forM_invariant (λ d w1,
      (∀ u, n_joinCounter <$> w_nodes w1 !! u =
            (λ x, n_joinCounter x - edges_into w u d) <$> w_nodes w !! u) ∧
      same (node_view (λ x, (built x, n_state x, n_calls x))) w w1)).
  - intros d x r w1 Hsplit (J & B).
    destruct (Hds x) as (xd & Hx & Ht & Hs); [rewrite Hsplit; apply elem_of_app; right; left|].
    destruct (node_view_transport _ _ _ _ _ B Hx) as (xd1 & Hx1 & Hb1).
    apply (f_equal (λ p, p.1.1)) in Hb1. cbn [fst] in Hb1.
    apply built_inv in Hb1. destruct Hb1 as (_ & Hsucc & _ & Htyp & _).
    destruct (innerNode_drop_ok x xd1 w1 Hx1) as (w2 & E2 & J2 & B2 & _).
    { congruence. }
    { intros s Hin. rewrite Hsucc in Hin. destruct (Hs s Hin) as [sd Hsd].
      destruct (node_view_transport _ _ _ _ _ B Hsd) as (? & -> & _). by eexists. }
    exists w2. split; [exact E2|]. split; [|etrans; [exact B | exact B2]].
    intros u. rewrite J2. specialize (J u).
    destruct (w_nodes w1 !! u) as [u1|]; destruct (w_nodes w !! u) as [u0|];
      simpl in J |- *; try done.
    injection J as J. f_equal. rewrite J, edges_into_snoc. unfold successorsOf.
    rewrite Hx. simpl. rewrite Hsucc. lia.
  - split; [|reflexivity]. intros u. destruct (w_nodes w !! u); simpl; [|done].
    f_equal. unfold edges_into. simpl. lia.
Qed.

Lemma edges_into_mirrored w v ndv ds :
  edges_mirrored w →
  w_nodes w !! v = Some ndv →
  (∀ d, d ∈ ds → is_Some (w_nodes w !! d)) →
  edges_into w v ds = foldr (λ p acc, occurrences p (n_dependents ndv) + acc) 0 ds.
Proof.
  intros Hm Hv. induction ds as [|p ds IH]; intros Hal; [done|].
  unfold edges_into in *. simpl. rewrite IH by (intros d ?; apply Hal; by right).
  destruct (Hal p) as [pd Hp]; [left|].
  unfold successorsOf. rewrite Hp. simpl. by rewrite (Hm p v pd ndv Hp Hv).
Qed.

Lemma edges_mirrored_same w w' :
  same (node_view built) w w' → edges_mirrored w → edges_mirrored w'.
Proof.
  intros B Hm a b na' nb' Ha Hb.
  assert (same (node_view built) w' w) as B' by done.
  destruct (node_view_transport built _ _ _ _ B' Ha) as (na & Ha0 & Hba).
  destruct (node_view_transport built _ _ _ _ B' Hb) as (nb & Hb0 & Hbb).
  apply built_inv in Hba, Hbb.
  destruct Hba as (_ & Hs & _). destruct Hbb as (_ & _ & Hd & _).
  rewrite <- Hs, <- Hd. by apply Hm.
Qed.

(** X5: in a store whose edges are mirrored, setup on [v] adds the number of
    its predecessors that are not conditions to its join-counter, and one
    drop from each of these predecessors ([ds], each once) brings the
    join-counter back to where it was. *)
Theorem setup_then_drops_round_trip (w : World) (v : positive) (ndv : innerNode)
    (ds : list positive) :
  edges_mirrored w →
  w_nodes w !! v = Some ndv →
  (∀ d, d ∈ n_dependents ndv → is_Some (w_nodes w !! d)) →
  NoDup ds →
  (∀ d, d ∈ n_dependents ndv → d ∈ ds ↔ not_condition w d) →
  (∀ d, d ∈ ds → ∃ nd, w_nodes w !! d = Some nd ∧ n_Typ nd ≠ nodeCondition ∧
                       ∀ s, s ∈ n_successors nd → is_Some (w_nodes w !! s)) →
  ∃ w1 w2,
    innerNode_setup v w = (Ret tt, w1) ∧
    n_joinCounter <$> w_nodes w1 !! v
      = Some (n_joinCounter ndv + counted_dependents w (n_dependents ndv)) ∧
    forM_ ds innerNode_drop w1 = (Ret tt, w2) ∧
    n_joinCounter <$> w_nodes w2 !! v = Some (n_joinCounter ndv).
Proof.
  intros Hm Hv Hdeps Hnd Hds Hal.
  destruct (innerNode_setup_spec v ndv w Hv Hdeps) as (w1 & E1 & N1 & _).
  assert (same (node_view built) w w1) as B1.
  { unfold same, node_view. rewrite N1. eapply fmap_insert_same; [exact Hv | done]. }
  assert (w_nodes w1 !! v = Some (node_set_joinCounter
            (n_joinCounter ndv + counted_dependents w (n_dependents ndv))
            (node_set_state kNodeStateIdle ndv))) as Hv1.
  { rewrite N1. apply lookup_insert_eq. }
  destruct (drops_release ds w1) as (w2 & E2 & J2 & _).
  { intros d Hd. destruct (Hal d Hd) as (nd & Hdn & Ht & Hs).
    destruct (node_view_transport built _ _ _ _ B1 Hdn) as (nd1 & Hdn1 & Hb).
    apply built_inv in Hb. destruct Hb as (_ & Hsucc & _ & Htyp & _).
    exists nd1. split; [done|]. split; [congruence|].
    intros s Hin. rewrite Hsucc in Hin. destruct (Hs s Hin) as [sd Hsd].
    destruct (node_view_transport built _ _ _ _ B1 Hsd) as (? & -> & _). by eexists. }
  exists w1, w2. split; [exact E1|]. split; [by rewrite Hv1|]. split; [exact E2|].
  rewrite J2, Hv1. simpl. f_equal.
  rewrite (edges_into_mirrored w1 v _ ds (edges_mirrored_same _ _ B1 Hm) Hv1).
  2:{ intros d Hd. destruct (Hal d Hd) as (nd & Hdn & _).
      destruct (node_view_transport built _ _ _ _ B1 Hdn) as (? & -> & _). by eexists. }
  simpl. rewrite sum_occurrences by done.
  unfold counted_dependents.
  rewrite (filter_agree (.∈ ds) (not_condition w) (n_dependents ndv)) by done. lia.
Qed.

(** X5 at [loop_world]: B counts A and not the condition. *)
Lemma setup_then_drops_round_trip_witness :
  ∃ w1 w2,
    innerNode_setup 2 loop_world = (Ret tt, w1) ∧
    n_joinCounter <$> w_nodes w1 !! 2%positive
      = Some (0 + counted_dependents loop_world [1; 3]%positive) ∧
    forM_ [1%positive] innerNode_drop w1 = (Ret tt, w2) ∧
    n_joinCounter <$> w_nodes w2 !! 2%positive = Some 0.
Proof.
  apply (setup_then_drops_round_trip loop_world 2
           (vertex "B" [3%positive] [1; 3]%positive nodeStatic (PStatic returns) 1 2)
           [1%positive]).
  - apply (bool_decide_unpack _). vm_compute. exact I.
  - reflexivity.
  - intros d Hin. simpl in Hin. in_list Hin; by eexists.
  - apply (bool_decide_unpack _). vm_compute. exact I.
  - intros d Hin. simpl in Hin. in_list Hin.
    + split; [intros _; by vm_compute | intros _; left].
    + split; [intros Hd; in_list Hd; discriminate | intros Hc; by vm_compute in Hc].
  - intros d Hin. in_list Hin. eexists. split; [reflexivity|]. split; [discriminate|].
    intros s Hs. simpl in Hs. in_list Hs. by eexists.
Defined.

(** * The accounts of schedule *)

Lemma owned_cons w g n l :
  owned w g (n :: l) =
  (if decide (n_g <$> w_nodes w !! n = Some g) then 1 else 0) + owned w g l.
Proof. unfold owned. rewrite filter_cons. case_decide; simpl length; lia. Qed.

Lemma owned_same w w' g l :
  same (node_view n_g) w w' → owned w' g l = owned w g l.
Proof.
  intros B. unfold owned. f_equal. f_equal. apply filter_agree. intros n _.
  rewrite <- !node_view_lookup. unfold same in B. by rewrite B.
Qed.

Lemma same_built_owner w w' :
  same (node_view built) w w' → same (node_view n_g) w w'.
Proof.
  unfold same, node_view. intros B.
  apply (f_equal (fmap (λ q : string * list positive * list positive * nodeType
                               * payload * positive * Z, q.1.2))) in B.
  by rewrite <- !map_fmap_compose in B.
Qed.

Lemma owned_all w g (l : list positive) :
  (∀ n, n ∈ l → n_g <$> w_nodes w !! n = Some g) → owned w g l = Z.of_nat (length l).
Proof.
  intros H. unfold owned. f_equal. f_equal.
  induction l as [|x l IH]; [done|].
  rewrite filter_cons, decide_True by (apply H; left).
  f_equal. apply IH. intros n Hn. apply H. by right.
Qed.

(** One iteration of [schedule] on a vertex whose graph is not cancelled. *)
Lemma schedule_step n nd gr l w :
  w_nodes w !! n = Some nd →
  w_graphs w !! n_g nd = Some gr →
  g_canceled gr = false →
  ∃ w1, schedule (n :: l) w = schedule l w1 ∧
        w_nodes w1 = <[n := node_set_state kNodeStateWaiting nd]> (w_nodes w) ∧
        w_graphs w1 = <[n_g nd := graph_set_scheCond (S (g_scheCond gr))
                                   (graph_set_joinCounter (g_joinCounter gr + 1) gr)]>
                        (w_graphs w) ∧
        e_wq w1 = e_wq w ++ [n] ∧
        e_wg w1 = S (e_wg w) ∧
        w_trace w1 = w_trace w ++ [(n, kNodeStateWaiting)] ∧
        w_stdout w1 = w_stdout w ∧ e_profiler w1 = e_profiler w.
Proof.
  intros Hn Hg Hc.
  eexists. split.
  { etrans; [mrun | symmetry; apply surjective_pairing]. }
  world_simpl. rewrite insert_insert_eq. done.
Qed.

Lemma schedule_nil_node n l w :
  w_nodes w !! n = None → schedule (n :: l) w = (Stop (Panic NilDeref), w).
Proof. intros Hn. cbn [schedule]. rewrite run_bind. unfold getNode. by rewrite Hn. Qed.

Lemma schedule_nil_graph n nd l w :
  w_nodes w !! n = Some nd → w_graphs w !! n_g nd = None →
  schedule (n :: l) w = (Stop (Panic NilDeref), w).
Proof.
  intros Hn Hg. cbn [schedule].
  rewrite (run_bind_ret _ _ _ _ _ (getNode_ok _ _ _ Hn)).
  rewrite run_bind. unfold getGraph. by rewrite Hg.
Qed.

Lemma schedule_canceled_head n nd gr l w :
  w_nodes w !! n = Some nd →
  w_graphs w !! n_g nd = Some gr →
  g_canceled gr = true →
  schedule (n :: l) w =
    (Ret tt,
     set_stdout (w_stdout w ++ [LogNotScheduled (n_name nd) (g_name gr)])
       (set_graphs (<[n_g nd := graph_set_scheCond (S (g_scheCond gr)) gr]> (w_graphs w)) w)).
Proof. intros Hn Hg Hc. etrans; [mrun | reflexivity]. Qed.

(** A vertex that is waiting stays waiting while others are scheduled. *)
Lemma schedule_keeps_waiting l w m :
  n_state <$> w_nodes w !! m = Some kNodeStateWaiting →
  n_state <$> w_nodes (schedule l w).2 !! m = Some kNodeStateWaiting.
Proof.
  revert w. induction l as [|n l IH]; intros w Hm; [done|].
  destruct (w_nodes w !! n) as [nd|] eqn:Hn; [|by rewrite schedule_nil_node].
  destruct (w_graphs w !! n_g nd) as [gr|] eqn:Hg; [|by erewrite schedule_nil_graph].
  destruct (g_canceled gr) eqn:Hc; [by erewrite schedule_canceled_head|].
  destruct (schedule_step n nd gr l w Hn Hg Hc) as (w1 & -> & N1 & _).
  apply IH. rewrite N1. destruct (decide (m = n)) as [->|Hne].
  - by rewrite lookup_insert_eq.
  - by rewrite lookup_insert_ne.
Qed.

Lemma schedule_accounts l w :
  ∃ pushed,
    pushed `prefix_of` l ∧
    e_wq (schedule l w).2 = e_wq w ++ pushed ∧
    e_wg (schedule l w).2 = (e_wg w + length pushed)%nat ∧
    (∀ g, g_joinCounter <$> w_graphs (schedule l w).2 !! g =
          (λ gr, g_joinCounter gr + owned w g pushed) <$> w_graphs w !! g) ∧
    (∀ n, n ∈ pushed →
          n_state <$> w_nodes (schedule l w).2 !! n = Some kNodeStateWaiting).
Proof.
  revert w. induction l as [|n l IH]; intros w.
  { exists []. split; [done|]. simpl. split; [by rewrite app_nil_r|].
    split; [lia|]. split; [|intros n Hn; by apply elem_of_nil in Hn].
    intros g. destruct (w_graphs w !! g); simpl; [|done]. f_equal. unfold owned. simpl. lia. }
  assert (∀ w', e_wq w' = e_wq w → e_wg w' = e_wg w →
                g_joinCounter <$> w_graphs w' = g_joinCounter <$> w_graphs w →
    ∃ pushed, pushed `prefix_of` n :: l ∧ e_wq w' = e_wq w ++ pushed ∧
      e_wg w' = (e_wg w + length pushed)%nat ∧
      (∀ g, g_joinCounter <$> w_graphs w' !! g =
            (λ gr, g_joinCounter gr + owned w g pushed) <$> w_graphs w !! g) ∧
      (∀ n, n ∈ pushed → n_state <$> w_nodes w' !! n = Some kNodeStateWaiting)) as Hnil.
  { intros w' Q WG J. exists []. split; [apply prefix_nil|].
    split; [by rewrite app_nil_r|]. split; [simpl; lia|].
    split; [|intros m Hm; by apply elem_of_nil in Hm].
    intros g. rewrite <- (lookup_fmap g_joinCounter), J, lookup_fmap.
    destruct (w_graphs w !! g); simpl; [|done]. f_equal. unfold owned. simpl. lia. }
  destruct (w_nodes w !! n) as [nd|] eqn:Hn.
  2:{ rewrite schedule_nil_node by done. by apply Hnil. }
  destruct (w_graphs w !! n_g nd) as [gr|] eqn:Hg.
  2:{ erewrite schedule_nil_graph by done. by apply Hnil. }
  destruct (g_canceled gr) eqn:Hc.
  { erewrite schedule_canceled_head by done. apply Hnil; world_simpl; [done..|].
    rewrite fmap_insert. apply insert_id. by rewrite lookup_fmap, Hg. }
  destruct (schedule_step n nd gr l w Hn Hg Hc) as (w1 & -> & N1 & G1 & Q1 & WG1 & _).
  destruct (IH w1) as (pushed & Hp & Q & WG & J & St).
  assert (same (node_view n_g) w w1) as B1.
  { unfold same, node_view. rewrite N1. eapply fmap_insert_same; [exact Hn | done]. }
  exists (n :: pushed). split; [by apply prefix_cons|].
  split; [by rewrite Q, Q1, <- app_assoc|].
  split; [rewrite WG, WG1; simpl; lia|].
  split.
  - intros g. rewrite J, G1, owned_cons, Hn, (owned_same w w1) by done. simpl.
    destruct (decide (g = n_g nd)) as [->|Hne].
    + rewrite lookup_insert_eq, Hg. simpl. rewrite decide_True by done. f_equal. lia.
    + rewrite lookup_insert_ne by done.
      destruct (w_graphs w !! g) as [gr0|]; [|done]. simpl.
      rewrite decide_False by congruence. f_equal; lia.
  - intros m [->|Hm]%elem_of_cons; [|by apply St].
    apply schedule_keeps_waiting. rewrite N1, lookup_insert_eq. done.
Qed.

(** X8: whatever its argument and however it ends, schedule appends a prefix
    of its argument to the work queue, adds the length of that prefix to the
    wait counter, adds to the join-counter of every graph the number of
    enqueued vertices it owns, and leaves every enqueued vertex waiting. *)
Theorem schedule_counts_what_it_enqueues (l : list positive) (w : World) :
  ∃ pushed,
    pushed `prefix_of` l ∧
    e_wq (schedule l w).2 = e_wq w ++ pushed ∧
    e_wg (schedule l w).2 = (e_wg w + length pushed)%nat ∧
    (∀ g, g_joinCounter <$> w_graphs (schedule l w).2 !! g =
          (λ gr, g_joinCounter gr + owned w g pushed) <$> w_graphs w !! g) ∧
    (∀ n, n ∈ pushed →
          n_state <$> w_nodes (schedule l w).2 !! n = Some kNodeStateWaiting).
Proof.
  destruct (schedule_accounts l w) as (pushed & Hp & Q & WG & J & St).
  exists pushed. split; [exact Hp|]. split; [exact Q|]. split; [exact WG|].
  split; [exact J | exact St].
Qed.

(** * The ready vertices, by priority *)

(** The part of [scheduleGraph] before the dispatcher loop, on a graph whose
    entry vertices can be scheduled. *)
Lemma scheduleGraph_entries_spec g gr w :
  w_graphs w !! g = Some gr →
  (∀ n, n ∈ g_nodes gr →
        ∃ nd, w_nodes w !! n = Some nd ∧
              ∀ d, d ∈ n_dependents nd → is_Some (w_nodes w !! d)) →
  (∀ n, n ∈ g_nodes gr → has_no_dependents w n → schedulable w n) →
  ∃ w' L,
    scheduleGraph_entries g w = (Ret tt, w') ∧
    L ≡ₚ filter (has_no_dependents w) (g_nodes gr) ∧
    StronglySorted (priority_le w) L ∧
    e_wq w' = e_wq w ++ L ∧
    e_wg w' = (e_wg w + length L)%nat ∧
    g_joinCounter <$> w_graphs w' !! g = Some (owned w g L) ∧
    (∀ n, n ∈ L → n_state <$> w_nodes w' !! n = Some kNodeStateWaiting).
Proof.
  intros Hg Hall Hsch.
  destruct (eGraph_setup_counts g gr w Hg Hall) as (w1 & gr1 & E1 & Hg1 & J1 & En1 & _).
  assert (same (node_view built) w w1) as B1.
  { eapply keeps_run; [|exact E1]. keeps_walk. }
  assert (same (graph_view g_canceled) w w1) as C1.
  { eapply keeps_run; [|exact E1]. keeps_walk. }
  assert (e_wq w1 = e_wq w ∧ e_wg w1 = e_wg w) as [Q1 WG1].
  { split.
    - eapply (keeps_run (same e_wq)); [|exact E1]. keeps_walk.
    - eapply (keeps_run (same e_wg)); [|exact E1]. keeps_walk. }
  set (L := insertionSortCmpFunc w1 (g_entries gr1)).
  set (w2 := set_graphs (<[g := graph_set_entries L gr1]> (w_graphs w1)) w1).
  assert (scheduleGraph_entries g w = schedule L w2) as E.
  { unfold scheduleGraph_entries.
    rewrite (run_bind_ret _ _ _ _ _ E1), (run_bind_ret _ _ _ _ _ (getGraph_ok _ _ _ Hg1)).
    rewrite (run_bind_ret _ _ _ _ _ (sortByPriority_ok _ _)).
    rewrite (run_bind_ret _ _ _ _ _ (modGraph_ok _ _ _ _ Hg1)). reflexivity. }
  assert (same (node_view built) w w2) as B2 by exact B1.
  assert (same (graph_view g_canceled) w w2) as C2.
  { etrans; [exact C1|]. subst w2. unfold same, graph_view. world_simpl.
    eapply fmap_insert_same; [exact Hg1 | done]. }
  assert (L ≡ₚ filter (has_no_dependents w) (g_nodes gr)) as HL.
  { subst L. by rewrite insertionSortCmpFunc_Permutation, En1. }
  destruct (schedule_all L w2) as [Rf Qf].
  { intros n Hin. rewrite HL in Hin. apply list_elem_of_filter in Hin as [He Hin].
    eapply schedulable_same; [exact B2 | exact C2 | by apply Hsch]. }
  destruct (schedule_accounts L w2) as (pushed & _ & Qf' & WGf & Jf & St).
  assert (pushed = L) as -> by (rewrite Qf in Qf'; by apply app_inv_head in Qf').
  rewrite E. destruct (schedule L w2) as [rf w3]. simpl in *. subst rf.
  exists w3, L. split; [done|]. split; [exact HL|]. split.
  { subst L. eapply StronglySorted_weaken; [|apply insertionSortCmpFunc_sorted].
    intros i j. unfold priority_le. by rewrite !(priorityOf_same w w1). }
  split; [by rewrite Qf, Q1|]. split; [by rewrite WGf, WG1|]. split; [|exact St].
  rewrite Jf. subst w2. world_simpl. rewrite lookup_insert_eq. simpl. rewrite J1.
  f_equal. rewrite Z.add_0_l. apply owned_same, same_built_owner.
  exact B1.
Qed.

(** C8: what one call of [sche_successors] appends to the work queue is in
    ascending order of priority, and when the successors can be scheduled it
    is, up to the order of equal priorities, the successors that are ready
    (join-counter zero, or of kind condition): all the siblings that became
    ready are enqueued, lowest priority value first.  Likewise for what
    [scheduleGraph] appends at the start of a graph and the vertices without
    predecessors. *)
Theorem ready_vertices_enqueued_by_priority (w : World) :
  (∀ node, ∃ pushed,
     e_wq (sche_successors node w).2 = e_wq w ++ pushed ∧
     StronglySorted (priority_le w) pushed ∧
     ∀ nd, w_nodes w !! node = Some nd →
           (∀ d, d ∈ n_dependents nd → is_Some (w_nodes w !! d)) →
           (∀ s, s ∈ n_successors nd → schedulable w s) →
           pushed ≡ₚ filter (ready w) (n_successors nd)) ∧
  (∀ g, ∃ pushed,
     e_wq (scheduleGraph_entries g w).2 = e_wq w ++ pushed ∧
     StronglySorted (priority_le w) pushed ∧
     ∀ gr, w_graphs w !! g = Some gr →
           (∀ n, n ∈ g_nodes gr →
                 ∃ nd, w_nodes w !! n = Some nd ∧
                       ∀ d, d ∈ n_dependents nd → is_Some (w_nodes w !! d)) →
           (∀ n, n ∈ g_nodes gr → has_no_dependents w n → schedulable w n) →
           pushed ≡ₚ filter (has_no_dependents w) (g_nodes gr)).
Proof.
  split.
  - intros node. destruct (sche_successors_sorted node w) as (pushed & Q & Hs).
    exists pushed. split; [exact Q|]. split; [exact Hs|].
    intros nd Hn Hd Hsch.
    pose proof (sche_successors_all_ready node nd w Hn Hd Hsch) as Q'.
    rewrite Q in Q'. apply app_inv_head in Q'. rewrite Q'.
    apply insertionSortCmpFunc_Permutation.
  - intros g. destruct (scheduleGraph_entries_sorted g w) as (pushed & Q & Hs).
    exists pushed. split; [exact Q|]. split; [exact Hs|].
    intros gr Hg Hall Hsch.
    destruct (scheduleGraph_entries_spec g gr w Hg Hall Hsch)
      as (w' & L & E & HL & _ & Q' & _).
    rewrite E in Q. simpl in Q. rewrite Q' in Q. apply app_inv_head in Q. by subst L.
Qed.

(** C8 at [diamond_world], when A is done, and at [entries_world]. *)
Lemma ready_vertices_enqueued_by_priority_witness :
  (∃ pushed,
     e_wq (sche_successors 1 diamond_world).2 = e_wq diamond_world ++ pushed ∧
     StronglySorted (priority_le diamond_world) pushed ∧
     pushed ≡ₚ filter (ready diamond_world) [2; 3]%positive) ∧
  (∃ pushed,
     e_wq (scheduleGraph_entries 1 entries_world).2 = e_wq entries_world ++ pushed ∧
     StronglySorted (priority_le entries_world) pushed ∧
     pushed ≡ₚ filter (has_no_dependents entries_world) [1; 2; 3]%positive).
Proof.
  split.
  - destruct (proj1 (ready_vertices_enqueued_by_priority diamond_world) 1%positive)
      as (pushed & Q & Hs & Hall).
    exists pushed. split; [exact Q|]. split; [exact Hs|]. clear Q Hs.
    apply (Hall (vertex "A" [2; 3]%positive [] nodeStatic (PStatic returns) 1 2)).
    + reflexivity.
    + intros d Hin. by apply elem_of_nil in Hin.
    + intros s Hin. simpl in Hin.
      in_list Hin; (eexists _, _; split; [reflexivity|]; split; reflexivity).
  - destruct (proj2 (ready_vertices_enqueued_by_priority entries_world) 1%positive)
      as (pushed & Q & Hs & Hall).
    exists pushed. split; [exact Q|]. split; [exact Hs|]. clear Q Hs.
    apply (Hall (graph "g" [1; 2; 3]%positive false)).
    + reflexivity.
    + intros n Hin. simpl in Hin.
      in_list Hin; (eexists; split; [reflexivity|]); intros d Hd; by apply elem_of_nil in Hd.
    + intros n Hin _. simpl in Hin.
      in_list Hin; (eexists _, _; split; [reflexivity|]; split; reflexivity).
Defined.

(** S2: when A is done, C is enqueued before B. *)
Example diamond_successors_by_priority :
  e_wq (sche_successors 1 diamond_world).2 = [3; 2]%positive.
Proof. vm_compute. reflexivity. Qed.

(** Entries are enqueued by priority as well. *)
Example entries_by_priority :
  e_wq (scheduleGraph_entries 1 entries_world).2 = [2; 3; 1]%positive.
Proof. vm_compute. reflexivity. Qed.

(** * Run on the caller's thread *)

(** One turn of the dispatcher loop that finds a vertex in the queue: the
    vertex is taken, and what runs next is [Go] on the invoker of the vertex;
    the dispatcher itself runs no invoker. *)
Lemma invokeGraph_takes Go fuel g parentSpan w gr node q nd :
  w_graphs w !! g = Some gr →
  g_joinCounter gr ≠ 0 →
  g_canceled gr = false →
  e_wq w = node :: q →
  w_nodes w !! node = Some nd →
  invokeGraph Go (S fuel) g parentSpan w =
    (match n_ptr nd with
     | PStatic p => Go (invokeStatic node parentSpan p)
     | PSubflow p => Go (invokeSubflow (scheduleGraph Go fuel) node parentSpan p)
     | PCondition p => Go (invokeCondition node parentSpan p)
     | POther => panic UnsupportedNode
     end ;; invokeGraph Go fuel g parentSpan) (set_wq q w).
Proof.
  intros Hg Hj Hc Hq Hn. cbn [invokeGraph].
  rewrite run_bind, invokeGraph_poll_spec, Hg.
  rewrite decide_False by (rewrite Hq; intros (_ & ? & _); done).
  rewrite decide_False by (rewrite Hc; intros [?|?]; done).
  rewrite run_bind. unfold wq_PeakAndTake. rewrite Hq.
  rewrite !run_bind. unfold invokeNode.
  rewrite (run_bind_ret _ _ _ _ _ (getNode_ok node nd (set_wq q w) Hn)).
  reflexivity.
Qed.

(** A turn of the dispatcher loop that finds vertices outstanding, nothing in
    the queue and the graph not cancelled waits on the scheduling condition. *)
Lemma invokeGraph_waits Go fuel g parentSpan w gr :
  w_graphs w !! g = Some gr →
  g_joinCounter gr ≠ 0 →
  g_canceled gr = false →
  e_wq w = [] →
  invokeGraph Go (S fuel) g parentSpan w = (Stop Hang, w).
Proof.
  intros Hg Hj Hc Hq. cbn [invokeGraph].
  rewrite run_bind, invokeGraph_poll_spec, Hg.
  rewrite decide_True by (rewrite Hq; done). reflexivity.
Qed.

(** The dispatcher loop with a pool that has not started any closure yet:
    every queued vertex is taken and handed over, and then the dispatcher
    waits. *)
Lemma invokeGraph_pool_idle g parentSpan gr q :
  ∀ fuel w,
  w_graphs w !! g = Some gr →
  g_joinCounter gr ≠ 0 →
  g_canceled gr = false →
  e_wq w = q →
  (∀ n, n ∈ q → ∃ nd, w_nodes w !! n = Some nd ∧ n_ptr nd ≠ POther) →
  (length q < fuel)%nat →
  invokeGraph pool_idle fuel g parentSpan w = (Stop Hang, set_wq [] w).
Proof.
  induction q as [|node q IH]; intros fuel w Hg Hj Hc Hq Hall Hfuel;
    (destruct fuel as [|fuel]; [simpl in Hfuel; lia|]).
  - cbn [invokeGraph]. rewrite run_bind, invokeGraph_poll_spec, Hg.
    rewrite decide_True by (rewrite Hq; done).
    destruct w. simpl in Hq. subst. reflexivity.
  - destruct (Hall node) as (nd & Hn & Hp); [left|].
    rewrite (invokeGraph_takes _ _ _ _ _ _ _ _ _ Hg Hj Hc Hq Hn).
    assert ((match n_ptr nd with
             | PStatic p => pool_idle (invokeStatic node parentSpan p)
             | PSubflow p =>
                 pool_idle (invokeSubflow (scheduleGraph pool_idle fuel) node parentSpan p)
             | PCondition p => pool_idle (invokeCondition node parentSpan p)
             | POther => panic UnsupportedNode
             end) (set_wq q w) = (Ret tt, set_wq q w)) as E.
    { destruct (n_ptr nd); done. }
    rewrite (run_bind_ret _ _ _ _ _ E).
    rewrite (IH fuel (set_wq q w)); [done | done | done | done | done | |].
    + intros n Hin. apply Hall. by right.
    + simpl in Hfuel. lia.
Qed.

(** C2 (as the code has it): Run executes scheduleGraph, and with it the
    dispatcher loop, on the caller's thread.  (1) On a graph with an entry
    vertex, Run first sets the graph up and schedules the entry vertices
    (waiting, in the queue, counted by the join-counter of the graph and by
    the wait counter, no payload called), and goes on with the dispatcher
    loop, whatever the pool; with a pool that has accepted the closures and
    not started them, Run then takes every entry vertex from the queue,
    hands it to the pool and waits on the scheduling condition: it does not
    return.  (2) For every pool, the dispatcher takes the vertex at the
    head of the queue and passes its invoker to [Go]; it runs no invoker
    itself.  (3) For every pool, with vertices outstanding, nothing in the
    queue and the graph not cancelled, the dispatcher waits.  (4) For every
    pool, when Run returns the graph's join-counter is zero or its
    cancellation flag is set. *)
Theorem Run_dispatches_on_the_callers_thread :
  (∀ (fuel : nat) (tf : TaskFlow) (w : World) (gr : eGraph),
     w_graphs w !! tf_graph tf = Some gr →
     g_canceled gr = false →
     e_wq w = [] →
     (∀ n, n ∈ g_nodes gr →
           ∃ nd, w_nodes w !! n = Some nd ∧ n_g nd = tf_graph tf ∧ n_ptr nd ≠ POther ∧
                 ∀ d, d ∈ n_dependents nd → is_Some (w_nodes w !! d)) →
     (∃ n, n ∈ g_nodes gr ∧ has_no_dependents w n) →
     (length (filter (has_no_dependents w) (g_nodes gr)) < fuel)%nat →
     ∃ w1 entries,
       scheduleGraph_entries (tf_graph tf) w = (Ret tt, w1) ∧
       entries ≡ₚ filter (has_no_dependents w) (g_nodes gr) ∧
       e_wq w1 = entries ∧
       e_wg w1 = (e_wg w + length entries)%nat ∧
       g_joinCounter <$> w_graphs w1 !! tf_graph tf = Some (Z.of_nat (length entries)) ∧
       (∀ n, n ∈ entries → n_state <$> w_nodes w1 !! n = Some kNodeStateWaiting) ∧
       (∀ n, n_calls <$> w_nodes w1 !! n = n_calls <$> w_nodes w !! n) ∧
       (∀ Go, Run Go fuel tf w =
              (invokeGraph Go fuel (tf_graph tf) None ;; scheCond_Signal (tf_graph tf)) w1) ∧
       Run pool_idle fuel tf w = (Stop Hang, set_wq [] w1)) ∧
  (∀ (Go : M unit → M unit) (fuel : nat) (g : positive) (parentSpan : option span)
     (w : World) (gr : eGraph) (node : positive) (q : list positive) (nd : innerNode),
     w_graphs w !! g = Some gr →
     g_joinCounter gr ≠ 0 →
     g_canceled gr = false →
     e_wq w = node :: q →
     w_nodes w !! node = Some nd →
     invokeGraph Go (S fuel) g parentSpan w =
       (match n_ptr nd with
        | PStatic p => Go (invokeStatic node parentSpan p)
        | PSubflow p => Go (invokeSubflow (scheduleGraph Go fuel) node parentSpan p)
        | PCondition p => Go (invokeCondition node parentSpan p)
        | POther => panic UnsupportedNode
        end ;; invokeGraph Go fuel g parentSpan) (set_wq q w)) ∧
  (∀ (Go : M unit → M unit) (fuel : nat) (g : positive) (parentSpan : option span)
     (w : World) (gr : eGraph),
     w_graphs w !! g = Some gr →
     g_joinCounter gr ≠ 0 →
     g_canceled gr = false →
     e_wq w = [] →
     invokeGraph Go (S fuel) g parentSpan w = (Stop Hang, w)) ∧
  (∀ (Go : M unit → M unit) (fuel : nat) (tf : TaskFlow) (w w' : World),
     Run Go fuel tf w = (Ret tt, w') →
     ∃ gr, w_graphs w' !! tf_graph tf = Some gr ∧
           (g_joinCounter gr = 0 ∨ g_canceled gr = true)).
Proof.
  split; [|split; [|split]].
  - intros fuel tf w gr Hg Hc Hq Hall [e [He1 He2]] Hfuel.
    set (g := tf_graph tf) in *.
    destruct (scheduleGraph_entries_spec g gr w Hg) as (w1 & L & E & HL & _ & Q & WG & J & St).
    { intros n Hn. destruct (Hall n Hn) as (nd & Hnd & _ & _ & Hd). by exists nd. }
    { intros n Hn _. destruct (Hall n Hn) as (nd & Hnd & Hgn & _).
      exists nd, gr. rewrite Hgn. done. }
    assert (owned w g L = Z.of_nat (length L)) as Ho.
    { apply owned_all. intros n Hn. rewrite HL in Hn.
      apply list_elem_of_filter in Hn as [_ Hn].
      destruct (Hall n Hn) as (nd & -> & <- & _). done. }
    assert (same (node_view built) w w1) as B1.
    { eapply keeps_run; [|exact E]. keeps_walk. }
    assert (same (node_view n_calls) w w1) as C1.
    { eapply keeps_run; [|exact E]. keeps_walk. }
    assert (same (graph_view g_canceled) w w1) as G1.
    { eapply keeps_run; [|exact E]. keeps_walk. }
    rewrite Hq in Q. simpl in Q. rewrite Ho in J.
    exists w1, L. split; [exact E|]. split; [exact HL|]. split; [exact Q|].
    split; [exact WG|]. split; [exact J|]. split; [exact St|].
    split; [intros n; by apply (node_view_at n_calls)|].
    split.
    { intros Go. unfold Run, scheduleGraph, scheduleGraph_body. fold g.
      by rewrite (run_bind_ret _ _ _ _ _ E). }
    unfold Run, scheduleGraph, scheduleGraph_body. fold g.
    rewrite (run_bind_ret _ _ _ _ _ E).
    destruct (w_graphs w1 !! g) as [gr1|] eqn:Hg1; [|done].
    injection J as J.
    pose proof (graph_view_at g_canceled _ _ g G1) as Hc1. rewrite Hg, Hg1 in Hc1.
    injection Hc1 as Hc1.
    assert (L ≠ []) as Hne.
    { intros ->. apply Permutation_nil in HL.
      assert (e ∈ filter (has_no_dependents w) (g_nodes gr)) as Hin
        by (by apply list_elem_of_filter).
      rewrite HL in Hin. by apply elem_of_nil in Hin. }
    erewrite run_bind_stop; [reflexivity|].
    apply (invokeGraph_pool_idle g None gr1 L); [done| |congruence|done| |].
    + rewrite J. destruct L; [done|]. simpl. lia.
    + intros n Hn. rewrite HL in Hn. apply list_elem_of_filter in Hn as [_ Hn].
      destruct (Hall n Hn) as (nd & Hnd & _ & Hp & _).
      destruct (node_view_transport built _ _ _ _ B1 Hnd) as (nd1 & Hnd1 & Hb).
      apply built_inv in Hb. destruct Hb as (_ & _ & _ & _ & Hb & _).
      exists nd1. split; [done | congruence].
    + by rewrite HL.
  - intros. by eapply invokeGraph_takes.
  - intros. by eapply invokeGraph_waits.
  - intros Go fuel tf w w'.
    unfold Run, scheduleGraph, scheduleGraph_body.
    rewrite run_bind.
    destruct (scheduleGraph_entries _ _) as [[[]|s] w1]; [|done].
    rewrite run_bind.
    destruct (invokeGraph _ _ _ _ _) as [[[]|s] w2] eqn:E; [|done].
    apply invokeGraph_returns in E as (gr & Hg & Hdone).
    unfold scheCond_Signal. rewrite (modGraph_ok _ _ _ _ Hg).
    intros [= <-]. world_simpl. rewrite lookup_insert_eq.
    eexists. split; [reflexivity|]. exact Hdone.
Qed.

(** C2 at [single_world]: A is scheduled and handed to the pool, and the
    caller of Run waits. *)
Lemma Run_dispatches_on_the_callers_thread_witness :
  ∃ w1 entries,
    scheduleGraph_entries 1 (single_world returns) = (Ret tt, w1) ∧
    entries ≡ₚ filter (has_no_dependents (single_world returns)) [1%positive] ∧
    e_wq w1 = entries ∧
    e_wg w1 = (e_wg (single_world returns) + length entries)%nat ∧
    g_joinCounter <$> w_graphs w1 !! 1%positive = Some (Z.of_nat (length entries)) ∧
    (∀ n, n ∈ entries → n_state <$> w_nodes w1 !! n = Some kNodeStateWaiting) ∧
    (∀ n, n_calls <$> w_nodes w1 !! n = n_calls <$> w_nodes (single_world returns) !! n) ∧
    (∀ Go, Run Go 2 single_flow (single_world returns) =
           (invokeGraph Go 2 1 None ;; scheCond_Signal 1) w1) ∧
    Run pool_idle 2 single_flow (single_world returns) = (Stop Hang, set_wq [] w1).
Proof.
  apply (proj1 Run_dispatches_on_the_callers_thread 2%nat single_flow
           (single_world returns) (graph "g" [1%positive] false)).
  - reflexivity.
  - reflexivity.
  - reflexivity.
  - intros n Hin. simpl in Hin. in_list Hin.
    eexists. split; [reflexivity|]. split; [reflexivity|]. split; [discriminate|].
    intros d Hd. by apply elem_of_nil in Hd.
  - exists 1%positive. split; [left | reflexivity].
  - vm_compute. lia.
Defined.

(** C2, the claim fails: A has been handed to the pool and no worker has run
    it yet; the caller of Run is not back, it waits on the scheduling
    condition inside the dispatcher loop.  Once the worker has run A, Run
    returns. *)
Lemma Run_blocks_the_caller :
  (Run pool_idle 3 single_flow (single_world returns)).1 = Stop Hang ∧
  (Run pool_runs 3 single_flow (single_world returns)).1 = Ret tt.
Proof. vm_compute. split; reflexivity. Qed.

(** * schedule on a slice that reaches a cancelled graph *)

Lemma on_cancelled_graph_same w w' n :
  same (node_view built) w w' → same (graph_view g_canceled) w w' →
  on_cancelled_graph w n → on_cancelled_graph w' n.
Proof.
  intros B C (nd & gr & Hn & Hg & Hc).
  destruct (node_view_transport built _ _ _ _ B Hn) as (nd' & Hn' & Hb).
  apply built_inv in Hb. destruct Hb as (_ & _ & _ & _ & _ & Hgb & _).
  destruct (graph_view_transport g_canceled _ _ _ _ C Hg) as (gr' & Hg' & Hc').
  exists nd', gr'. rewrite Hgb. split; [done|]. split; [done | congruence].
Qed.

Lemma schedule_until_cancelled l1 n l2 w :
  (∀ m, m ∈ l1 → schedulable w m) →
  on_cancelled_graph w n →
  schedule (l1 ++ n :: l2) w = schedule (l1 ++ [n]) w ∧
  (schedule (l1 ++ n :: l2) w).1 = Ret tt ∧
  e_wq (schedule (l1 ++ n :: l2) w).2 = e_wq w ++ l1 ∧
  e_wg (schedule (l1 ++ n :: l2) w).2 = (e_wg w + length l1)%nat.
Proof.
  revert w. induction l1 as [|m l1 IH]; intros w Hs Hc.
  { destruct Hc as (nd & gr & Hn & Hg & Hc). cbn [app length].
    rewrite !(schedule_canceled_head n nd gr) by done. world_simpl.
    rewrite app_nil_r. split; [done|]. split; [done|]. split; [done | lia]. }
  destruct (Hs m) as (md & mg & Hm & Hmg & Hmc); [left|].
  rewrite <- !app_comm_cons.
  destruct (schedule_step m md mg (l1 ++ n :: l2) w Hm Hmg Hmc)
    as (w1 & -> & N1 & G1 & Q1 & WG1 & T1 & O1 & P1).
  destruct (schedule_step m md mg (l1 ++ [n]) w Hm Hmg Hmc)
    as (w1' & -> & N1' & G1' & Q1' & WG1' & T1' & O1' & P1').
  assert (w1' = w1) as ->.
  { destruct w1, w1'. simpl in *. congruence. }
  assert (same (node_view built) w w1) as B.
  { unfold same, node_view. rewrite N1. eapply fmap_insert_same; [exact Hm | done]. }
  assert (same (graph_view g_canceled) w w1) as C.
  { unfold same, graph_view. rewrite G1. eapply fmap_insert_same; [exact Hmg | done]. }
  destruct (IH w1) as (E & R & Q & WG).
  { intros x Hx. eapply schedulable_same; [exact B | exact C |]. apply Hs. by right. }
  { by eapply on_cancelled_graph_same. }
  split; [exact E|]. split; [exact R|].
  split; [by rewrite Q, Q1, <- app_assoc|]. rewrite WG, WG1. simpl. lia.
Qed.

(** X9: schedule returns at the first vertex whose graph is cancelled: the
    vertices before it are enqueued and counted, the vertices after it are
    not looked at, whatever their graphs are. *)
Theorem schedule_stops_at_the_first_cancelled (w : World) (l1 l2 : list positive)
    (n : positive) (nd : innerNode) (gr : eGraph) :
  (∀ m, m ∈ l1 → schedulable w m) →
  w_nodes w !! n = Some nd →
  w_graphs w !! n_g nd = Some gr →
  g_canceled gr = true →
  schedule (l1 ++ n :: l2) w = schedule (l1 ++ [n]) w ∧
  (schedule (l1 ++ n :: l2) w).1 = Ret tt ∧
  e_wq (schedule (l1 ++ n :: l2) w).2 = e_wq w ++ l1 ∧
  e_wg (schedule (l1 ++ n :: l2) w).2 = (e_wg w + length l1)%nat.
Proof.
  intros Hs Hn Hg Hc. apply schedule_until_cancelled; [done|].
  by exists nd, gr.
Qed.

(** X9 at [mixed_world]: C is not enqueued though its graph is not
    cancelled. *)
Lemma schedule_stops_at_the_first_cancelled_witness :
  schedule ([1%positive] ++ 2%positive :: [3%positive]) mixed_world
    = schedule ([1%positive] ++ [2%positive]) mixed_world ∧
  (schedule ([1%positive] ++ 2%positive :: [3%positive]) mixed_world).1 = Ret tt ∧
  e_wq (schedule ([1%positive] ++ 2%positive :: [3%positive]) mixed_world).2
    = e_wq mixed_world ++ [1%positive] ∧
  e_wg (schedule ([1%positive] ++ 2%positive :: [3%positive]) mixed_world).2
    = (e_wg mixed_world + length [1%positive])%nat.
Proof.
  apply (schedule_stops_at_the_first_cancelled mixed_world [1%positive] [3%positive] 2
           (vertex "B" [] [] nodeStatic (PStatic returns) 2 2)
           (graph "h" [2%positive] true)).
  - intros m Hin. in_list Hin. eexists _, _. split; [reflexivity|]. split; reflexivity.
  - reflexivity.
  - reflexivity.
  - reflexivity.
Defined.

(** * The dispatcher at its edges *)

(** X16: when the dispatcher takes a vertex whose payload is none of the
    three kinds, [invokeNode] panics with [unsupported node] on the
    dispatcher's own thread, whatever the pool: the vertex has left the
    queue and is still counted by the wait counter and by the join-counter
    of its graph. *)
Theorem invokeGraph_unsupported_node (Go : M unit → M unit) (fuel : nat)
    (w : World) (g node : positive) (q : list positive) (parentSpan : option span)
    (gr : eGraph) (nd : innerNode) :
  w_graphs w !! g = Some gr →
  g_joinCounter gr ≠ 0 →
  g_canceled gr = false →
  e_wq w = node :: q →
  w_nodes w !! node = Some nd →
  n_ptr nd = POther →
  invokeGraph Go (S fuel) g parentSpan w = (Stop (Panic UnsupportedNode), set_wq q w).
Proof.
  intros Hg Hj Hc Hq Hn Hp. cbn [invokeGraph].
  rewrite run_bind, invokeGraph_poll_spec, Hg.
  rewrite decide_False by (rewrite Hq; intros (_ & ? & _); done).
  rewrite decide_False by (rewrite Hc; intros [?|?]; done).
  rewrite run_bind. unfold wq_PeakAndTake. rewrite Hq.
  rewrite run_bind. unfold invokeNode.
  rewrite (run_bind_ret _ _ _ _ _ (getNode_ok node nd (set_wq q w) Hn)), Hp. reflexivity.
Qed.

(** X16 at [bare_world]. *)
Lemma invokeGraph_unsupported_node_witness :
  invokeGraph pool_runs 1 1 None bare_world
    = (Stop (Panic UnsupportedNode), set_wq [] bare_world).
Proof.
  apply (invokeGraph_unsupported_node pool_runs 0 bare_world 1 1 [] None
           {| g_name := "g"; g_nodes := [1%positive]; g_joinCounter := 1;
              g_entries := [1%positive]; g_scheCond := 1; g_instancelized := false;
              g_canceled := false |}
           {| n_name := "N"; n_successors := []; n_dependents := []; n_Typ := "";
              n_ptr := POther; n_state := kNodeStateWaiting; n_joinCounter := 0;
              n_g := 1; n_priority := 2; n_calls := 0 |}).
  - reflexivity.
  - discriminate.
  - reflexivity.
  - reflexivity.
  - reflexivity.
  - reflexivity.
Defined.

(** X17: Run on a graph without vertices returns at once, for every pool:
    the join-counter of the graph is zero, its entries are empty, its
    condition variable has been signalled once, and nothing else changes. *)
Theorem Run_on_an_empty_graph (Go : M unit → M unit) (fuel : nat) (tf : TaskFlow)
    (w : World) (gr : eGraph) :
  w_graphs w !! tf_graph tf = Some gr →
  g_nodes gr = [] →
  Run Go (S fuel) tf w =
    (Ret tt,
     set_graphs (<[tf_graph tf := graph_set_scheCond (S (g_scheCond gr))
                                    (graph_set_entries [] (graph_set_joinCounter 0 gr))]>
                   (w_graphs w)) w).
Proof.
  intros Hg Hnil. unfold Run, scheduleGraph, scheduleGraph_body.
  assert (scheduleGraph_entries (tf_graph tf) w =
    (Ret tt, set_graphs (<[tf_graph tf := graph_set_entries [] (graph_set_joinCounter 0 gr)]>
                           (w_graphs w)) w)) as E.
  { destruct gr as [name nodes jc entries sc inst canc]. simpl in Hnil. subst nodes.
    unfold scheduleGraph_entries.
    assert (eGraph_setup (tf_graph tf) w =
      (Ret tt, set_graphs (<[tf_graph tf := graph_set_entries []
                 (graph_set_joinCounter 0
                    {| g_name := name; g_nodes := []; g_joinCounter := jc;
                       g_entries := entries; g_scheCond := sc;
                       g_instancelized := inst; g_canceled := canc |})]>
               (w_graphs w)) w)) as E0.
    { etrans; [mrun|]. world_simpl. by rewrite !insert_insert_eq. }
    rewrite (run_bind_ret _ _ _ _ _ E0).
    set (w0 := set_graphs _ w).
    assert (w_graphs w0 !! tf_graph tf = Some (graph_set_entries []
                 (graph_set_joinCounter 0
                    {| g_name := name; g_nodes := []; g_joinCounter := jc;
                       g_entries := entries; g_scheCond := sc;
                       g_instancelized := inst; g_canceled := canc |}))) as Hg0.
    { subst w0. world_simpl. apply lookup_insert_eq. }
    rewrite (run_bind_ret _ _ _ _ _ (getGraph_ok _ _ _ Hg0)).
    rewrite (run_bind_ret _ _ _ _ _ (sortByPriority_ok _ _)).
    rewrite (run_bind_ret _ _ _ _ _ (modGraph_ok _ _ _ _ Hg0)).
    subst w0. world_simpl. by rewrite !insert_insert_eq. }
  rewrite (run_bind_ret _ _ _ _ _ E).
  set (w1 := set_graphs _ w).
  assert (w_graphs w1 !! tf_graph tf
          = Some (graph_set_entries [] (graph_set_joinCounter 0 gr))) as Hg1.
  { subst w1. world_simpl. apply lookup_insert_eq. }
  assert (invokeGraph Go (S fuel) (tf_graph tf) None w1 = (Ret tt, w1)) as E2.
  { cbn [invokeGraph]. rewrite run_bind, invokeGraph_poll_spec, Hg1. world_simpl.
    rewrite decide_False by (intros (? & _); done).
    rewrite decide_True by (by left). reflexivity. }
  rewrite (run_bind_ret _ _ _ _ _ E2).
  unfold scheCond_Signal. rewrite (modGraph_ok _ _ _ _ Hg1).
  subst w1. world_simpl. rewrite insert_insert_eq. reflexivity.
Qed.

(** X17 at [empty_world]. *)
Lemma Run_on_an_empty_graph_witness :
  Run pool_idle 1 single_flow empty_world =
    (Ret tt,
     set_graphs (<[1%positive := graph_set_scheCond 1
                     (graph_set_entries [] (graph_set_joinCounter 0 (graph "g" [] false)))]>
                   (w_graphs empty_world)) empty_world).
Proof.
  apply (Run_on_an_empty_graph pool_idle 0 single_flow empty_world (graph "g" [] false)).
  - reflexivity.
  - reflexivity.
Defined.

(** X18: Run on a graph whose flag is latched calls no payload, for every
    pool and every budget, and the flag is still latched afterwards. *)
Theorem Run_on_a_cancelled_graph (Go : M unit → M unit) (fuel : nat) (tf : TaskFlow)
    (w : World) :
  latched (tf_graph tf) w →
  let w' := (Run Go fuel tf w).2 in
  (∀ n, n_calls <$> w_nodes w' !! n = n_calls <$> w_nodes w !! n) ∧
  latched (tf_graph tf) w'.
Proof.
  intros Hl. cbv zeta. unfold Run. split.
  - intros n. rewrite <- !node_view_lookup. f_equal.
    apply (scheduleGraph_on_latched (same (node_view n_calls))); [| |done]; keeps_walk.
  - eapply latch_kept_latched; [|exact Hl].
    apply (scheduleGraph_on_latched latch_kept); [| |done]; keeps_walk.
Qed.

(** X18 at [latched_world]. *)
Lemma Run_on_a_cancelled_graph_witness :
  let w' := (Run pool_runs 3 single_flow latched_world).2 in
  (∀ n, n_calls <$> w_nodes w' !! n = n_calls <$> w_nodes latched_world !! n) ∧
  latched 1 w'.
Proof.
  apply (Run_on_a_cancelled_graph pool_runs 3 single_flow latched_world).
  eexists. split; [reflexivity|]. reflexivity.
Defined.

(** * Vertices in flight *)

#[global] Instance lag_preorder : PreOrder (lag 0).
Proof. split; unfold lag; [intros w | intros w1 w2 w3 ? ?]; lia. Qed.

#[global] Instance in_flight_nodes : NodesApart in_flight.
Proof. done. Qed.
#[global] Instance in_flight_graphs : GraphsApart in_flight.
Proof. done. Qed.
#[global] Instance in_flight_ghost : GhostApart in_flight.
Proof. done. Qed.

Lemma lag_of_same_in_flight {A} (m : M A) :
  keeps (same in_flight) m → keeps (lag 0) m.
Proof. intros K w. specialize (K w). unfold same, lag in *. lia. Qed.

#[global] Hint Extern 2 (keeps (lag 0) _) =>
  apply lag_of_same_in_flight; keeps_leaf : keeps.

Lemma lag_weaken {A} k k' (m : M A) : k ≤ k' → keeps (lag k) m → keeps (lag k') m.
Proof. intros Hk K w. specialize (K w). unfold lag in *. lia. Qed.

Lemma lag_bind {A B} k1 k2 (m : M A) (f : A → M B) :
  0 ≤ k2 → keeps (lag k1) m → (∀ a, keeps (lag k2) (f a)) →
  keeps (lag (k1 + k2)) (m ≫= f).
Proof.
  intros Hk Km Kf w. rewrite run_bind. specialize (Km w).
  destruct (m w) as [[a|s] w1]; simpl in *.
  - specialize (Kf a w1). unfold lag in *. lia.
  - unfold lag in *. lia.
Qed.

Lemma lag_then_done {A B} (m : M A) (f : A → M B) :
  keeps (lag 0) m → (∀ a, keeps (lag 1) (f a)) → keeps (lag 1) (m ≫= f).
Proof. intros. by apply (lag_bind 0 1). Qed.

Lemma lag_done_then {A B} (m : M A) (f : A → M B) :
  keeps (lag 1) m → (∀ a, keeps (lag 0) (f a)) → keeps (lag 1) (m ≫= f).
Proof. intros. by apply (lag_bind 1 0). Qed.

Lemma lag_defer k (d : option panicval → M unit) (body : M unit) :
  0 ≤ k → keeps (lag 0) body → (∀ r, keeps (lag k) (d r)) →
  keeps (lag k) (with_defer d body).
Proof.
  intros Hk Kb Kd w. unfold with_defer. specialize (Kb w).
  destruct (body w) as [[a|[v| |]] wb]; simpl in *.
  - specialize (Kd None wb). unfold lag in *. lia.
  - specialize (Kd (Some v) wb). unfold lag in *. lia.
  - unfold lag in *. lia.
  - unfold lag in *. lia.
Qed.

Lemma wg_Done_lag : keeps (lag 1) wg_Done.
Proof.
  intros w. unfold wg_Done, wg_Add, lag, in_flight.
  case_decide; simpl; lia.
Qed.

(** Taking a vertex from the queue puts it in flight. *)
Lemma lag_take {B} (f : positive → M B) :
  (∀ x, keeps (lag 1) (f x)) → keeps (lag 0) (wq_PeakAndTake ≫= f).
Proof.
  intros Kf w. rewrite run_bind. unfold wq_PeakAndTake.
  destruct (e_wq w) as [|x q] eqn:Q; simpl; [reflexivity|].
  specialize (Kf x (set_wq q w)). unfold lag, in_flight in *.
  revert Kf. world_simpl. rewrite Q. simpl length. lia.
Qed.

Lemma schedule_lag l : keeps (lag 0) (schedule l).
Proof.
  induction l as [|n l IH]; intros w; [reflexivity|].
  destruct (w_nodes w !! n) as [nd|] eqn:Hn;
    [|rewrite schedule_nil_node by done; reflexivity].
  destruct (w_graphs w !! n_g nd) as [gr|] eqn:Hg;
    [|erewrite schedule_nil_graph by done; reflexivity].
  destruct (g_canceled gr) eqn:Hc;
    [erewrite schedule_canceled_head by done; unfold lag, in_flight; simpl; lia|].
  destruct (schedule_step n nd gr l w Hn Hg Hc) as (w1 & -> & _ & _ & Q1 & WG1 & _).
  specialize (IH w1). unfold lag, in_flight in *. rewrite Q1, WG1, length_app in IH.
  simpl in IH. lia.
Qed.

#[global] Hint Resolve schedule_lag : keeps.

Lemma schedule_in_flight l : keeps (same in_flight) (schedule l).
Proof.
  induction l as [|n l IH]; intros w; [reflexivity|].
  destruct (w_nodes w !! n) as [nd|] eqn:Hn;
    [|rewrite schedule_nil_node by done; reflexivity].
  destruct (w_graphs w !! n_g nd) as [gr|] eqn:Hg;
    [|erewrite schedule_nil_graph by done; reflexivity].
  destruct (g_canceled gr) eqn:Hc;
    [erewrite schedule_canceled_head by done; reflexivity|].
  destruct (schedule_step n nd gr l w Hn Hg Hc) as (w1 & -> & _ & _ & Q1 & WG1 & _).
  specialize (IH w1). unfold same, in_flight in *. rewrite Q1, WG1, length_app in IH.
  simpl in IH. lia.
Qed.

#[global] Hint Resolve schedule_in_flight : keeps.

Ltac lag_walk :=
  repeat
    (lazymatch goal with
     | |- keeps (lag 1) (wg_Done ≫= _) =>
         apply lag_done_then; [apply wg_Done_lag | intros ?; keeps_walk]
     | |- keeps (lag 1) (wg_Add (-1) ≫= _) =>
         apply lag_done_then; [apply wg_Done_lag | intros ?; keeps_walk]
     | |- keeps (lag 1) (mbind _ _) =>
         apply lag_then_done; [solve [keeps_walk] | intros ?]
     | |- keeps (lag 1) (with_defer _ _) =>
         apply lag_defer; [lia | solve [keeps_walk] | intros ?]
     | |- keeps (lag 1) (let _ := _ in _) => cbv zeta
     | |- keeps (lag 1) (match ?x with _ => _ end) => destruct x
     | |- keeps (lag 1) _ => progress autounfold with taskflow
     end).

Lemma invokeStatic_lag node parentSpan p : keeps (lag 1) (invokeStatic node parentSpan p).
Proof. lag_walk. Qed.

Lemma invokeCondition_lag node parentSpan p :
  keeps (lag 1) (invokeCondition node parentSpan p).
Proof. lag_walk. Qed.

Lemma invokeSubflow_lag rec node parentSpan p :
  (∀ g s, keeps (lag 0) (rec g s)) →
  keeps (lag 1) (invokeSubflow rec node parentSpan p).
Proof. intros Hrec. lag_walk. Qed.

Lemma pool_runs_lags : pool_lags pool_runs.
Proof.
  intros f Kf w. unfold pool_runs. specialize (Kf w).
  destruct (f w) as [[a|[v| |]] w']; simpl in *; done.
Qed.

Lemma pool_idle_lags : pool_lags pool_idle.
Proof. intros f _ w. unfold pool_idle, lag. simpl. lia. Qed.

Lemma invokeGraph_lag Go :
  pool_lags Go →
  ∀ fuel g parentSpan, keeps (lag 0) (invokeGraph Go fuel g parentSpan).
Proof.
  intros HGo fuel. induction fuel as [|fuel IH]; intros g parentSpan; cbn [invokeGraph].
  { keeps_walk. }
  apply keeps_bind; [apply _ | keeps_walk | intros p].
  destruct p; [keeps_walk | keeps_walk |].
  apply lag_take. intros node.
  apply lag_done_then; [|intros ?; apply IH].
  unfold invokeNode.
  apply lag_then_done; [keeps_walk | intros nd].
  destruct (n_ptr nd).
  - apply HGo, invokeStatic_lag.
  - apply HGo, invokeSubflow_lag. intros g' s.
    unfold scheduleGraph_body. keeps_walk.
  - apply HGo, invokeCondition_lag.
  - apply (lag_weaken 0); [lia | keeps_walk].
Qed.

Lemma Run_lag Go fuel tf : pool_lags Go → keeps (lag 0) (Run Go fuel tf).
Proof.
  intros HGo. pose proof (invokeGraph_lag Go HGo fuel).
  unfold Run, scheduleGraph, scheduleGraph_body. keeps_walk.
Qed.

(** X20: a vertex in the work queue is counted by the wait counter, before
    and after every run; so when a run leaves vertices in the queue, Wait
    does not return. *)
Theorem Run_keeps_queued_vertices_counted (Go : M unit → M unit) (fuel : nat)
    (tf : TaskFlow) (w : World) :
  pool_lags Go →
  (length (e_wq w) ≤ e_wg w)%nat →
  let w' := (Run Go fuel tf w).2 in
  (length (e_wq w') ≤ e_wg w')%nat ∧
  (e_wq w' ≠ [] → Wait w' = (Stop Hang, w')).
Proof.
  intros HGo Hw. pose proof (Run_lag Go fuel tf HGo w) as K. cbv zeta.
  unfold lag, in_flight in K.
  assert (length (e_wq (Run Go fuel tf w).2) ≤ e_wg (Run Go fuel tf w).2)%nat as Hle by lia.
  split; [exact Hle|]. intros Hq. unfold Wait, wg_Wait.
  rewrite decide_False; [done|].
  destruct (e_wq (Run Go fuel tf w).2); [done|]. simpl in Hle. lia.
Qed.

(** X20 at [siblings_world]. *)
Lemma Run_keeps_queued_vertices_counted_witness :
  let w' := (Run pool_runs 4 single_flow siblings_world).2 in
  (length (e_wq w') ≤ e_wg w')%nat ∧
  (e_wq w' ≠ [] → Wait w' = (Stop Hang, w')).
Proof.
  apply (Run_keeps_queued_vertices_counted pool_runs 4 single_flow siblings_world).
  - exact pool_runs_lags.
  - simpl. lia.
Defined.

Lemma no_nil_references_alt w :
  no_nil_references w ↔
  map_Forall (λ _ nd,
    is_Some (w_graphs w !! n_g nd) ∧
    Forall (λ s, is_Some (w_nodes w !! s)) (n_successors nd) ∧
    Forall (λ d, is_Some (w_nodes w !! d)) (n_dependents nd)) (w_nodes w).
Proof.
  unfold no_nil_references, map_Forall. setoid_rewrite Forall_forall. done.
Qed.

#[global] Instance no_nil_references_dec w : Decision (no_nil_references w).
Proof.
  refine (cast_if (decide (map_Forall (λ _ nd,
    is_Some (w_graphs w !! n_g nd) ∧
    Forall (λ s, is_Some (w_nodes w !! s)) (n_successors nd) ∧
    Forall (λ d, is_Some (w_nodes w !! d)) (n_dependents nd)) (w_nodes w))));
    by rewrite no_nil_references_alt.
Defined.

(** * Stores without nil references *)

Lemma frame_allocated_graph w w' g :
  frame w w' → is_Some (w_graphs w !! g) → is_Some (w_graphs w' !! g).
Proof.
  intros [_ G] [gr Hg].
  destruct (graph_view_transport _ _ _ _ _ G Hg) as (gr' & -> & _). by eexists.
Qed.

Lemma frame_node w w' n nd :
  frame w w' → w_nodes w !! n = Some nd →
  ∃ nd', w_nodes w' !! n = Some nd' ∧ built nd' = built nd.
Proof. intros [B _] Hn. by apply (node_view_transport built _ _ _ _ B Hn). Qed.

Lemma no_nil_references_frame w w' :
  frame w w' → no_nil_references w → no_nil_references w'.
Proof.
  intros F Hwf n nd' Hn'.
  assert (frame w' w) as F'.
  { destruct F as [B G]. split; done. }
  destruct (frame_node _ _ _ _ F' Hn') as (nd & Hn & Hb).
  apply built_inv in Hb. destruct Hb as (_ & Hs & Hd & _ & _ & Hg & _).
  destruct (Hwf n nd Hn) as (Wg & Ws & Wd).
  split; [|split].
  - rewrite <- Hg. by eapply frame_allocated_graph.
  - intros s Hin. rewrite <- Hs in Hin. destruct (Ws s Hin) as [sd Hsd].
    destruct (frame_node _ _ _ _ F Hsd) as (? & -> & _). by eexists.
  - intros d Hin. rewrite <- Hd in Hin. destruct (Wd d Hin) as [dd Hdd].
    destruct (frame_node _ _ _ _ F Hdd) as (? & -> & _). by eexists.
Qed.

Ltac keeps_frame := unfold frame; apply keeps_and; keeps_walk.

Lemma schedule_same_graphs_allocated l :
  keeps (same (graph_view (λ _, ()))) (schedule l).
Proof. induction l as [|n l IH]; cbn [schedule]; keeps_walk. Qed.

#[global] Hint Resolve schedule_same_graphs_allocated : keeps.

Lemma schedule_frame l : keeps frame (schedule l).
Proof. keeps_frame. Qed.

(** [schedule] returns when its vertices and their graphs are allocated. *)
Lemma schedule_returns l w :
  no_nil_references w →
  (∀ n, n ∈ l → is_Some (w_nodes w !! n)) →
  (schedule l w).1 = Ret tt.
Proof.
  revert w. induction l as [|n l IH]; intros w Hwf Hl; [done|].
  destruct (Hl n) as [nd Hn]; [left|].
  destruct (Hwf n nd Hn) as ([gr Hg] & _).
  destruct (g_canceled gr) eqn:Hc.
  { by erewrite schedule_canceled_head. }
  destruct (schedule_step n nd gr l w Hn Hg Hc) as (w1 & -> & N1 & G1 & _).
  assert (frame w w1) as F.
  { split.
    - unfold same, node_view. rewrite N1. eapply fmap_insert_same; [exact Hn | done].
    - unfold same, graph_view. rewrite G1. eapply fmap_insert_same; [exact Hg | done]. }
  apply IH; [by eapply no_nil_references_frame|].
  intros m Hm. destruct (Hl m) as [md Hmd]; [by right|].
  destruct (frame_node _ _ _ _ F Hmd) as (? & -> & _). by eexists.
Qed.

Lemma sche_successors_returns node nd w :
  no_nil_references w →
  w_nodes w !! node = Some nd →
  ∃ w', sche_successors node w = (Ret tt, w').
Proof.
  intros Hwf Hn. destruct (Hwf node nd Hn) as (_ & Hs & Hd).
  unfold sche_successors.
  rewrite (run_bind_ret _ _ _ _ _ (getNode_ok _ _ _ Hn)).
  rewrite (run_bind_ret _ _ _ _ _ (candidates_spec _ _ Hs)).
  rewrite (run_bind_ret _ _ _ _ _ (sortByPriority_ok _ _)).
  destruct (innerNode_setup_spec node nd w Hn Hd) as (w1 & E1 & N1 & G1 & _).
  rewrite (run_bind_ret _ _ _ _ _ E1).
  assert (frame w w1) as F.
  { split.
    - unfold same, node_view. rewrite N1. eapply fmap_insert_same; [exact Hn | done].
    - unfold same, graph_view. by rewrite G1. }
  pose proof (schedule_returns (insertionSortCmpFunc w (filter (ready w) (n_successors nd)))
                w1 (no_nil_references_frame _ _ F Hwf)) as R.
  destruct (schedule _ w1) as [r w2]. simpl in R. rewrite R; [by eexists|].
  intros s Hin. rewrite insertionSortCmpFunc_Permutation in Hin.
  apply list_elem_of_filter in Hin as [_ Hin].
  destruct (Hs s Hin) as [sd Hsd].
  destruct (frame_node _ _ _ _ F Hsd) as (? & -> & _). by eexists.
Qed.

#[global] Instance wg_grows_preorder : PreOrder wg_grows.
Proof. split; unfold wg_grows; [intros w | intros w1 w2 w3 ? ?]; lia. Qed.

Lemma wg_grows_of_same_wg {A} (m : M A) :
  keeps (same e_wg) m → keeps wg_grows m.
Proof. intros K w. specialize (K w). unfold same, wg_grows in *. lia. Qed.

Lemma wg_grows_Add_one : keeps wg_grows (wg_Add 1).
Proof. intros w. rewrite wg_Add_one. unfold wg_grows. simpl. lia. Qed.

#[global] Hint Resolve wg_grows_Add_one : keeps.
#[global] Hint Extern 2 (keeps wg_grows _) =>
  apply wg_grows_of_same_wg; keeps_leaf : keeps.

Lemma schedule_wg_grows l : keeps wg_grows (schedule l).
Proof. induction l as [|n l IH]; cbn [schedule]; keeps_walk. Qed.

#[global] Hint Resolve schedule_wg_grows schedule_frame : keeps.

(** The statements of a finalizer after [sche_successors]. *)
Lemma finalizer_tail_returns node nd w :
  no_nil_references w →
  w_nodes w !! node = Some nd →
  (1 ≤ e_wg w)%nat →
  ∃ w', (nd ← getNode node;
         graph_joinCounter_Decrease (n_g nd) ;; wg_Done ;; scheCond_Signal (n_g nd)) w
        = (Ret tt, w') ∧
        in_flight w' = in_flight w - 1.
Proof.
  intros Hwf Hn Hwg. destruct (Hwf node nd Hn) as ([gr Hg] & _).
  rewrite (run_bind_ret _ _ _ _ _ (getNode_ok _ _ _ Hn)).
  unfold graph_joinCounter_Decrease.
  rewrite (run_bind_ret _ _ _ _ _ (modGraph_ok _ _ _ _ Hg)).
  unfold wg_Done, wg_Add. rewrite run_bind. world_simpl.
  rewrite decide_False by lia.
  unfold scheCond_Signal. eexists. split.
  { apply modGraph_ok. world_simpl. apply lookup_insert_eq. }
  unfold in_flight. world_simpl. lia.
Qed.

Lemma invokeStatic_deferred_returns node sp r nd w :
  no_nil_references w →
  w_nodes w !! node = Some nd →
  (1 ≤ e_wg w)%nat →
  ∃ w', invokeStatic_deferred node sp r w = (Ret tt, w') ∧
        in_flight w' = in_flight w - 1.
Proof.
  intros Hwf Hn Hwg. destruct (Hwf node nd Hn) as ([gr Hg] & Hs & Hd).
  unfold invokeStatic_deferred.
  set (first := match r with Some _ => _ | None => _ end).
  assert (keeps frame first) as KF by (subst first; destruct r; keeps_frame).
  assert (keeps wg_grows first) as KW by (subst first; keeps_walk).
  assert (keeps (same in_flight) first) as KI by (subst first; keeps_walk).
  assert (∃ w1, first w = (Ret tt, w1)) as (w1 & E1).
  { subst first. destruct r as [v|]; eexists; mrun. }
  rewrite (run_bind_ret _ _ _ _ _ E1).
  pose proof (keeps_run _ _ _ _ _ KF E1) as F1.
  pose proof (keeps_run _ _ _ _ _ KW E1) as W1.
  pose proof (keeps_run _ _ _ _ _ KI E1) as I1.
  destruct (frame_node _ _ _ _ F1 Hn) as (nd1 & Hn1 & Hb1).
  pose proof (no_nil_references_frame _ _ F1 Hwf) as Hwf1.
  destruct (Hwf1 node nd1 Hn1) as (_ & Hs1 & _).
  destruct (innerNode_drop_returns node nd1 w1 Hn1 Hs1) as (w2 & E2 & B2 & _ & G2).
  rewrite (run_bind_ret _ _ _ _ _ E2).
  assert (frame w1 w2) as F2.
  { split; [exact B2|]. unfold same, graph_view. by rewrite G2. }
  assert (e_wg w2 = e_wg w1) as W2.
  { eapply (keeps_run (same e_wg)); [|exact E2]. keeps_walk. }
  assert (in_flight w2 = in_flight w1) as I2.
  { eapply (keeps_run (same in_flight)); [|exact E2]. keeps_walk. }
  destruct (frame_node _ _ _ _ F2 Hn1) as (nd2 & Hn2 & Hb2).
  pose proof (no_nil_references_frame _ _ F2 Hwf1) as Hwf2.
  destruct (sche_successors_returns node nd2 w2 Hwf2 Hn2) as (w3 & E3).
  rewrite (run_bind_ret _ _ _ _ _ E3).
  assert (frame w2 w3) as F3.
  { eapply keeps_run; [|exact E3]. keeps_frame. }
  assert (wg_grows w2 w3) as W3.
  { eapply keeps_run; [|exact E3]. keeps_walk. }
  assert (in_flight w3 = in_flight w2) as I3.
  { eapply (keeps_run (same in_flight)); [|exact E3]. keeps_walk. }
  destruct (frame_node _ _ _ _ F3 Hn2) as (nd3 & Hn3 & Hb3).
  destruct (finalizer_tail_returns node nd3 w3) as (w' & E & I);
    [by eapply no_nil_references_frame | done | |].
  { unfold wg_grows in *. lia. }
  exists w'. split; [exact E|]. unfold same in I1. lia.
Qed.

(** * The invokers return *)

Lemma invokeStatic_deferred_frame node sp r : keeps frame (invokeStatic_deferred node sp r).
Proof. keeps_frame. Qed.

Lemma invokeStatic_deferred_same_calls node sp r :
  keeps (same (node_view n_calls)) (invokeStatic_deferred node sp r).
Proof. keeps_walk. Qed.

(** X12: in a store without nil references and with the wait counter above
    zero, the static invoker returns whether the payload returns or panics;
    it calls the payload once and calls [wg.Done()] once (the wait counter
    goes down by one more than the queue grows); a panic latches the flag of
    the owning graph. *)
Theorem invokeStatic_recovers_and_reports_done (w : World) (node : positive)
    (parentSpan : option span) (nd : innerNode) (p : Static) :
  no_nil_references w →
  w_nodes w !! node = Some nd →
  (1 ≤ e_wg w)%nat →
  ∃ w', invokeStatic node parentSpan p w = (Ret tt, w') ∧
        n_calls <$> w_nodes w' !! node = Some (S (n_calls nd)) ∧
        in_flight w' = in_flight w - 1 ∧
        no_nil_references w' ∧
        (s_handle p (n_calls nd) = Panics → latched (n_g nd) w').
Proof.
  intros Hwf Hn Hwg.
  pose proof (invokeStatic_latches w node parentSpan nd p Hn) as L.
  destruct (Hwf node nd Hn) as (Hg & _). specialize (L Hg).
  revert L. unfold invokeStatic.
  rewrite (run_bind_ret _ _ _ _ _ (getNode_ok _ _ _ Hn)). cbv zeta.
  set (sp := newSpan _ _). unfold with_defer. intros L.
  assert (keeps frame (invokeStatic_body node p)) as KF by keeps_frame.
  assert (keeps (same e_wg) (invokeStatic_body node p)) as KW by keeps_walk.
  assert (keeps (same in_flight) (invokeStatic_body node p)) as KI by keeps_walk.
  assert (∃ r wb, invokeStatic_body node p w = (r, wb) ∧
    (r = Ret tt ∨ r = Stop (Panic UserPanic)) ∧
    n_calls <$> w_nodes wb !! node = Some (S (n_calls nd))) as (r & wb & Eb & Hr & Cb).
  { destruct (s_handle p (n_calls nd)) as [[]|] eqn:Hh.
    - eexists _, _. split; [mrun|]. split; [by left|]. world_simpl.
      by rewrite lookup_insert_eq.
    - eexists _, _. split; [mrun|]. split; [by right|]. world_simpl.
      by rewrite lookup_insert_eq. }
  pose proof (keeps_run _ _ _ _ _ KF Eb) as Fb.
  pose proof (keeps_run _ _ _ _ _ KW Eb) as Wb.
  pose proof (keeps_run _ _ _ _ _ KI Eb) as Ib.
  destruct (frame_node _ _ _ _ Fb Hn) as (ndb & Hnb & _).
  pose proof (no_nil_references_frame _ _ Fb Hwf) as Hwfb.
  rewrite Eb in L |- *.
  assert (∀ rr, ∃ w', invokeStatic_deferred node sp rr wb = (Ret tt, w') ∧
            n_calls <$> w_nodes w' !! node = Some (S (n_calls nd)) ∧
            in_flight w' = in_flight w - 1 ∧ no_nil_references w') as Hd.
  { intros rr.
    destruct (invokeStatic_deferred_returns node sp rr ndb wb Hwfb Hnb) as (w' & E & I).
    { unfold same in Wb. lia. }
    exists w'. split; [exact E|].
    pose proof (keeps_run _ _ _ _ _ (invokeStatic_deferred_same_calls node sp rr) E) as C.
    pose proof (keeps_run _ _ _ _ _ (invokeStatic_deferred_frame node sp rr) E) as F.
    split; [|split].
    - rewrite <- node_view_lookup, C, node_view_lookup. exact Cb.
    - unfold same in Ib. lia.
    - by eapply no_nil_references_frame. }
  destruct Hr as [-> | ->].
  - destruct (Hd None) as (w' & E & C & I & W). rewrite E in L |- *.
    exists w'. split; [done|]. split; [done|]. split; [done|]. split; [done | exact L].
  - destruct (Hd (Some UserPanic)) as (w' & E & C & I & W). rewrite E in L |- *.
    exists w'. split; [done|]. split; [done|]. split; [done|]. split; [done | exact L].
Qed.

(** X12 at [chain_world], on B, whose payload panics. *)
Lemma invokeStatic_recovers_and_reports_done_witness :
  ∃ w', invokeStatic 2 None panics (set_wg 1 chain_world) = (Ret tt, w') ∧
        n_calls <$> w_nodes w' !! 2%positive = Some 1%nat ∧
        in_flight w' = in_flight (set_wg 1 chain_world) - 1 ∧
        no_nil_references w' ∧
        (s_handle panics 0 = Panics → latched 1 w').
Proof.
  apply (invokeStatic_recovers_and_reports_done (set_wg 1 chain_world) 2 None
           (vertex "B" [3%positive] [1%positive] nodeStatic (PStatic panics) 1 2) panics).
  - apply (bool_decide_unpack _). vm_compute. exact I.
  - reflexivity.
  - simpl. lia.
Defined.

(** * A condition that fails *)

(** The ways the body of the condition invoker panics: the function panics,
    or its choice is not an index of [mapper]. *)
Lemma invokeCondition_body_fails w node nd p :
  w_nodes w !! node = Some nd →
  (c_handle p (n_calls nd) = Panics ∨
   ∃ k, c_handle p (n_calls nd) = Returns k ∧ (N.of_nat (length (c_mapper p)) ≤ k)%N) →
  ∃ v wb, invokeCondition_body node p w = (Stop (Panic v), wb) ∧
          e_wq wb = e_wq w ∧ e_wg wb = e_wg w ∧ w_graphs wb = w_graphs w.
Proof.
  intros Hn [Hp | (k & Hk & Hle)].
  - eexists _, _. split; [mrun|]. done.
  - destruct (decide (N.of_nat (length (c_mapper p)) < k)%N) as [Hlt|Hge].
    + destruct (c_handle p (S (n_calls nd))) as [again|] eqn:Hagain.
      * eexists _, _. split; [mrun|]. done.
      * eexists _, _. split; [mrun|]. done.
    + assert (c_mapper p !! N.to_nat k = None) as Hnone.
      { apply lookup_ge_None. lia. }
      eexists _, _. split; [mrun|]. done.
Qed.

Lemma invokeCondition_body_frame node p : keeps frame (invokeCondition_body node p).
Proof. keeps_frame. Qed.

Lemma invokeCondition_deferred_frame node sp r :
  keeps frame (invokeCondition_deferred node sp r).
Proof. keeps_frame. Qed.

Lemma invokeCondition_deferred_returns node sp r nd w :
  no_nil_references w →
  w_nodes w !! node = Some nd →
  (1 ≤ e_wg w)%nat →
  ∃ w', invokeCondition_deferred node sp r w = (Ret tt, w') ∧
        in_flight w' = in_flight w - 1.
Proof.
  intros Hwf Hn Hwg. destruct (Hwf node nd Hn) as ([gr Hg] & Hs & Hd).
  unfold invokeCondition_deferred.
  set (first := match r with Some _ => _ | None => _ end).
  assert (keeps frame first) as KF by (subst first; destruct r; keeps_frame).
  assert (keeps (same e_wg) first) as KW by (subst first; keeps_walk).
  assert (keeps (same in_flight) first) as KI by (subst first; keeps_walk).
  assert (∃ w1, first w = (Ret tt, w1)) as (w1 & E1).
  { subst first. destruct r as [v|]; eexists; mrun. }
  rewrite (run_bind_ret _ _ _ _ _ E1).
  pose proof (keeps_run _ _ _ _ _ KF E1) as F1.
  pose proof (keeps_run _ _ _ _ _ KW E1) as W1.
  pose proof (keeps_run _ _ _ _ _ KI E1) as I1.
  destruct (frame_node _ _ _ _ F1 Hn) as (nd1 & Hn1 & Hb1).
  pose proof (no_nil_references_frame _ _ F1 Hwf) as Hwf1.
  destruct (Hwf1 node nd1 Hn1) as (_ & Hs1 & _).
  destruct (innerNode_drop_returns node nd1 w1 Hn1 Hs1) as (w2 & E2 & B2 & _ & G2).
  rewrite (run_bind_ret _ _ _ _ _ E2).
  assert (frame w1 w2) as F2.
  { split; [exact B2|]. unfold same, graph_view. by rewrite G2. }
  assert (e_wg w2 = e_wg w1) as W2.
  { eapply (keeps_run (same e_wg)); [|exact E2]. keeps_walk. }
  assert (in_flight w2 = in_flight w1) as I2.
  { eapply (keeps_run (same in_flight)); [|exact E2]. keeps_walk. }
  destruct (frame_node _ _ _ _ F2 Hn1) as (nd2 & Hn2 & Hb2).
  pose proof (no_nil_references_frame _ _ F2 Hwf1) as Hwf2.
  destruct (Hwf2 node nd2 Hn2) as ([gr2 Hg2] & _ & Hd2).
  rewrite (run_bind_ret _ _ _ _ _ (getNode_ok _ _ _ Hn2)).
  unfold graph_joinCounter_Decrease.
  rewrite (run_bind_ret _ _ _ _ _ (modGraph_ok _ _ _ _ Hg2)).
  set (w3 := set_graphs _ w2).
  destruct (innerNode_setup_spec node nd2 w3 Hn2 Hd2) as (w4 & E4 & N4 & G4 & Q4).
  rewrite (run_bind_ret _ _ _ _ _ E4).
  assert (e_wg w4 = e_wg w2) as W4.
  { eapply (keeps_run (same e_wg) _ w3); [|exact E4]. keeps_walk. }
  unfold wg_Done, wg_Add. rewrite run_bind.
  rewrite decide_False by (unfold same in W1; lia).
  unfold scheCond_Signal. eexists. split.
  { apply modGraph_ok. world_simpl. rewrite G4. subst w3. world_simpl.
    apply lookup_insert_eq. }
  unfold same, in_flight in *. world_simpl. rewrite Q4. subst w3. world_simpl. lia.
Qed.

Lemma invokeCondition_deferred_latches node sp v nd w :
  w_nodes w !! node = Some nd →
  is_Some (w_graphs w !! n_g nd) →
  latched (n_g nd) (invokeCondition_deferred node sp (Some v) w).2.
Proof.
  intros Hn Hg. unfold invokeCondition_deferred.
  rewrite run_bind, (run_bind_ret _ _ _ _ _ (getNode_ok _ _ _ Hn)).
  destruct (canceled_Store_true (n_g nd) w Hg) as (w1 & E1 & L1 & _).
  rewrite (run_bind_ret _ _ _ _ _ E1), printf_ok.
  match goal with |- latched _ (?m ?w0).2 =>
    assert (keeps latch_kept m) as K by keeps_walk;
    apply (latch_kept_latched w0); [apply K|] end.
  destruct L1 as (gr1 & ? & ?). by exists gr1.
Qed.

(** X13: when the function of a condition panics, or returns a choice that
    is not an index of [mapper], the invoker recovers, latches the flag of
    the owning graph, enqueues nothing and calls [wg.Done()]. *)
Theorem invokeCondition_failure_cancels_the_graph (w : World) (node : positive)
    (parentSpan : option span) (nd : innerNode) (p : Condition) :
  no_nil_references w →
  w_nodes w !! node = Some nd →
  (1 ≤ e_wg w)%nat →
  (c_handle p (n_calls nd) = Panics ∨
   ∃ k, c_handle p (n_calls nd) = Returns k ∧ (N.of_nat (length (c_mapper p)) ≤ k)%N) →
  ∃ w', invokeCondition node parentSpan p w = (Ret tt, w') ∧
        latched (n_g nd) w' ∧
        e_wq w' = e_wq w ∧
        e_wg w' = (e_wg w - 1)%nat.
Proof.
  intros Hwf Hn Hwg Hfail. unfold invokeCondition.
  rewrite (run_bind_ret _ _ _ _ _ (getNode_ok _ _ _ Hn)). cbv zeta.
  set (sp := newSpan _ _). unfold with_defer.
  destruct (invokeCondition_body_fails w node nd p Hn Hfail) as (v & wb & Eb & Qb & Wb & Gb).
  pose proof (keeps_run _ _ _ _ _ (invokeCondition_body_frame node p) Eb) as Fb.
  rewrite Eb.
  destruct (frame_node _ _ _ _ Fb Hn) as (ndb & Hnb & Hbb).
  apply built_inv in Hbb. destruct Hbb as (_ & _ & _ & _ & _ & Hgb & _).
  pose proof (no_nil_references_frame _ _ Fb Hwf) as Hwfb.
  destruct (invokeCondition_deferred_returns node sp (Some v) ndb wb Hwfb Hnb)
    as (w' & E & I); [lia|].
  pose proof (invokeCondition_deferred_latches node sp v ndb wb Hnb) as L.
  rewrite E in L. simpl in L. rewrite Hgb in L.
  assert (e_wq w' = e_wq wb) as Q.
  { eapply (keeps_run (same e_wq)); [|exact E]. apply invokeCondition_deferred_same_wq. }
  exists w'. split; [exact E|]. split.
  { apply L. destruct (Hwfb node ndb Hnb) as (Hg & _). by rewrite <- Hgb. }
  split; [congruence|].
  unfold in_flight in I. rewrite Q in I. lia.
Qed.

(** X13 at [condition_world 3]. *)
Lemma invokeCondition_failure_cancels_the_graph_witness :
  ∃ w', invokeCondition 1 None (chooses 3) (set_wg 1 (condition_world 3)) = (Ret tt, w') ∧
        latched 1 w' ∧
        e_wq w' = e_wq (set_wg 1 (condition_world 3)) ∧
        e_wg w' = (e_wg (set_wg 1 (condition_world 3)) - 1)%nat.
Proof.
  apply (invokeCondition_failure_cancels_the_graph (set_wg 1 (condition_world 3)) 1 None
           (vertex "cond" [2; 3; 4]%positive [] nodeCondition (PCondition (chooses 3)) 1 2)
           (chooses 3)).
  - apply (bool_decide_unpack _). vm_compute. exact I.
  - reflexivity.
  - simpl. lia.
  - right. exists 3%N. split; [reflexivity|]. simpl. lia.
Defined.

(** * A subflow that is instantiated already *)

Lemma invokeSubflow_body_instantiated w node nd p gr :
  w_nodes w !! node = Some nd →
  w_graphs w !! sf_g p = Some gr →
  g_instancelized gr = true →
  invokeSubflow_body node p w =
    (Ret tt,
     set_trace (w_trace w ++ [(node, kNodeStateRunning); (node, kNodeStateFinished)])
       (set_nodes (<[node := node_set_state kNodeStateFinished nd]> (w_nodes w)) w)).
Proof.
  intros Hn Hg Hi. etrans; [mrun|].
  world_simpl. rewrite insert_insert_eq, <- app_assoc.
  rewrite (insert_id (w_graphs w) (sf_g p)); [by destruct w|].
  rewrite Hg. f_equal. destruct gr; simpl in *; by subst.
Qed.

(** X15: when the builder of a subflow has returned, the next run of the
    body does not call it again: the call count, the graphs and the owners
    of the vertices are those the first run left. *)
Theorem invokeSubflow_body_builds_once (w : World) (node : positive) (nd : innerNode)
    (p : Subflow) (gr : eGraph) (u : unit) :
  w_nodes w !! node = Some nd →
  w_graphs w !! sf_g p = Some gr →
  g_instancelized gr = false →
  b_result (sf_handle p (n_calls nd)) = Returns u →
  (∀ x, x ∈ b_pushed (sf_handle p (n_calls nd)) → is_Some (w_nodes w !! x)) →
  ∃ w1 w2,
    invokeSubflow_body node p w = (Ret tt, w1) ∧
    n_calls <$> w_nodes w1 !! node = Some (S (n_calls nd)) ∧
    invokeSubflow_body node p w1 = (Ret tt, w2) ∧
    n_calls <$> w_nodes w2 !! node = Some (S (n_calls nd)) ∧
    w_graphs w2 = w_graphs w1 ∧
    same (node_view n_g) w1 w2.
Proof.
  intros Hn Hg Hi Hres Hpush.
  destruct (invokeSubflow_body_closes_latch w node nd p gr u Hn Hg Hi Hres Hpush)
    as (w1 & E1 & L1).
  pose proof (invokeSubflow_body_calls_builder w node nd p gr Hn Hg Hi) as C1.
  rewrite E1 in C1. simpl in C1.
  destruct (w_nodes w1 !! node) as [nd1|] eqn:Hn1; [|done].
  destruct (w_graphs w1 !! sf_g p) as [gr1|] eqn:Hg1; [|done].
  injection L1 as L1.
  exists w1. eexists. split; [exact E1|]. split; [by rewrite Hn1|].
  split; [by apply (invokeSubflow_body_instantiated w1 node nd1 p gr1)|].
  world_simpl. rewrite lookup_insert_eq. split; [exact C1|]. split; [done|].
  unfold same, node_view. world_simpl. eapply fmap_insert_same; [exact Hn1 | done].
Qed.

(** X15 at [nesting_world]. *)
Lemma invokeSubflow_body_builds_once_witness :
  ∃ w1 w2,
    invokeSubflow_body 2 builds_chain nesting_world = (Ret tt, w1) ∧
    n_calls <$> w_nodes w1 !! 2%positive = Some 1%nat ∧
    invokeSubflow_body 2 builds_chain w1 = (Ret tt, w2) ∧
    n_calls <$> w_nodes w2 !! 2%positive = Some 1%nat ∧
    w_graphs w2 = w_graphs w1 ∧
    same (node_view n_g) w1 w2.
Proof.
  apply (invokeSubflow_body_builds_once nesting_world 2
           (vertex "SF" [3%positive] [1%positive] nodeSubflow (PSubflow builds_chain) 1 2)
           builds_chain (graph "sub" [] false) tt).
  - reflexivity.
  - reflexivity.
  - reflexivity.
  - reflexivity.
  - intros x Hin. simpl in Hin. in_list Hin; by eexists.
Defined.

(** X14: when the choice is above [len(p.mapper)], the diagnostic panic is
    built from a second call of the condition function: the function has
    been called twice when the panic is raised, the state is still running
    and nothing is enqueued. *)
Theorem invokeCondition_diagnostic_calls_the_function_twice (w : World)
    (node : positive) (nd : innerNode) (p : Condition) (k again : N) :
  w_nodes w !! node = Some nd →
  c_handle p (n_calls nd) = Returns k →
  (N.of_nat (length (c_mapper p)) < k)%N →
  c_handle p (S (n_calls nd)) = Returns again →
  let r := invokeCondition_body node p w in
  r.1 = Stop (Panic (ConditionDiag again)) ∧
  n_calls <$> w_nodes r.2 !! node = Some (S (S (n_calls nd))) ∧
  n_state <$> w_nodes r.2 !! node = Some kNodeStateRunning ∧
  e_wq r.2 = e_wq w.
Proof.
  intros Hn Hk Hlt Hagain. cbv zeta.
  assert (∃ wb, invokeCondition_body node p w = (Stop (Panic (ConditionDiag again)), wb) ∧
    n_calls <$> w_nodes wb !! node = Some (S (S (n_calls nd))) ∧
    n_state <$> w_nodes wb !! node = Some kNodeStateRunning ∧
    e_wq wb = e_wq w) as (wb & -> & H).
  { eexists. split; [mrun|]. world_simpl. rewrite !lookup_insert_eq. done. }
  done.
Qed.

(** X14 at [condition_world 5]. *)
Lemma invokeCondition_diagnostic_calls_the_function_twice_witness :
  let r := invokeCondition_body 1 (chooses 5) (condition_world 5) in
  r.1 = Stop (Panic (ConditionDiag 5)) ∧
  n_calls <$> w_nodes r.2 !! 1%positive = Some 2%nat ∧
  n_state <$> w_nodes r.2 !! 1%positive = Some kNodeStateRunning ∧
  e_wq r.2 = e_wq (condition_world 5).
Proof.
  apply (invokeCondition_diagnostic_calls_the_function_twice (condition_world 5) 1
           (vertex "cond" [2; 3; 4]%positive [] nodeCondition (PCondition (chooses 5)) 1 2)
           (chooses 5) 5 5).
  - reflexivity.
  - reflexivity.
  - simpl. lia.
  - reflexivity.
Defined.

(** * The states a vertex goes through *)

(** [schedule] stores waiting on each vertex it enqueues, and stores nothing
    else. *)
Lemma schedule_trace l w :
  ∃ pushed,
    e_wq (schedule l w).2 = e_wq w ++ pushed ∧
    w_trace (schedule l w).2 = w_trace w ++ ((λ n, (n, kNodeStateWaiting)) <$> pushed).
Proof.
  revert w. induction l as [|n l IH]; intros w.
  { exists []. simpl. by rewrite !app_nil_r. }
  destruct (w_nodes w !! n) as [nd|] eqn:Hn.
  2:{ rewrite schedule_nil_node by done. exists []. simpl. by rewrite !app_nil_r. }
  destruct (w_graphs w !! n_g nd) as [gr|] eqn:Hg.
  2:{ erewrite schedule_nil_graph by done. exists []. simpl. by rewrite !app_nil_r. }
  destruct (g_canceled gr) eqn:Hc.
  { erewrite schedule_canceled_head by done. exists []. simpl. by rewrite !app_nil_r. }
  destruct (schedule_step n nd gr l w Hn Hg Hc) as (w1 & -> & _ & _ & Q1 & _ & T1 & _).
  destruct (IH w1) as (pushed & Q & T).
  exists (n :: pushed). rewrite Q, T, Q1, T1, <- !app_assoc. done.
Qed.

(** The body of the condition invoker when the function fails or its choice
    is above the number of successors: running is stored, and the body
    panics. *)
Lemma invokeCondition_body_fails_trace w node nd p :
  w_nodes w !! node = Some nd →
  (c_handle p (n_calls nd) = Panics ∨
   ∃ k, c_handle p (n_calls nd) = Returns k ∧ (N.of_nat (length (c_mapper p)) < k)%N) →
  ∃ v wb, invokeCondition_body node p w = (Stop (Panic v), wb) ∧
          w_trace wb = w_trace w ++ [(node, kNodeStateRunning)].
Proof.
  intros Hn [Hp | (k & Hk & Hlt)].
  - eexists _, _. split; [mrun|]. done.
  - destruct (c_handle p (S (n_calls nd))) as [again|] eqn:Hagain.
    + eexists _, _. split; [mrun|]. done.
    + eexists _, _. split; [mrun|]. done.
Qed.

(** The body when the choice is the index of a successor: running, finished,
    and waiting on the chosen successor unless its graph is cancelled. *)
Lemma invokeCondition_body_in_range_trace w node nd p k chosen ndc grc :
  w_nodes w !! node = Some nd →
  c_handle p (n_calls nd) = Returns k →
  c_mapper p !! N.to_nat k = Some chosen →
  w_nodes w !! chosen = Some ndc →
  w_graphs w !! n_g ndc = Some grc →
  ∃ wb, invokeCondition_body node p w = (Ret tt, wb) ∧
        w_trace wb = w_trace w ++
          [(node, kNodeStateRunning); (node, kNodeStateFinished)] ++
          (if g_canceled grc then [] else [(chosen, kNodeStateWaiting)]).
Proof.
  intros Hn Hk Hm Hc Hg.
  assert (¬ (N.of_nat (length (c_mapper p)) < k)%N) as Hguard.
  { apply lookup_lt_Some in Hm. lia. }
  destruct (g_canceled grc) eqn:Hl.
  - destruct (decide (chosen = node)) as [->|Hne].
    + simplify_eq. eexists. split; [mrun|]. world_simpl. by rewrite <- !app_assoc.
    + eexists. split; [mrun|]. world_simpl. by rewrite <- !app_assoc.
  - destruct (decide (chosen = node)) as [->|Hne].
    + simplify_eq. eexists. split; [mrun|]. world_simpl. by rewrite <- !app_assoc.
    + eexists. split; [mrun|]. world_simpl. by rewrite <- !app_assoc.
Qed.

(** The finalizer of the condition invoker stores idle, and nothing else. *)
Lemma invokeCondition_deferred_trace node sp r nd w :
  w_nodes w !! node = Some nd →
  (∀ s, s ∈ n_successors nd → is_Some (w_nodes w !! s)) →
  is_Some (w_graphs w !! n_g nd) →
  w_trace (invokeCondition_deferred node sp r w).2 = w_trace w ++ [(node, kNodeStateIdle)].
Proof.
  intros Hn Hs Hg. unfold invokeCondition_deferred.
  set (first := match r with Some _ => _ | None => _ end).
  assert (∃ w1, first w = (Ret tt, w1) ∧ w_nodes w1 = w_nodes w ∧
                w_trace w1 = w_trace w ∧ is_Some (w_graphs w1 !! n_g nd))
    as (w1 & E1 & N1 & T1 & G1).
  { subst first. destruct r as [v|].
    - destruct Hg as [gr Hgr].
      eexists. split; [mrun|]. world_simpl. split; [done|]. split; [done|].
      rewrite lookup_insert_eq. by eexists.
    - eexists. split; [mrun|]. done. }
  rewrite (run_bind_ret _ _ _ _ _ E1).
  destruct (innerNode_drop_returns node nd w1) as (w2 & E2 & B2 & T2 & G2).
  { by rewrite N1. }
  { intros s Hin. rewrite N1. by apply Hs. }
  rewrite (run_bind_ret _ _ _ _ _ E2).
  assert (w_nodes w1 !! node = Some nd) as Hn1 by (by rewrite N1).
  destruct (node_view_transport built _ _ _ _ B2 Hn1) as (nd2 & Hn2 & Hb).
  apply built_inv in Hb. destruct Hb as (_ & _ & _ & _ & _ & Hgb & _).
  rewrite (run_bind_ret _ _ _ _ _ (getNode_ok _ _ _ Hn2)), Hgb.
  destruct G1 as [gr1 Hgr1]. rewrite <- G2 in Hgr1.
  unfold graph_joinCounter_Decrease.
  rewrite (run_bind_ret _ _ _ _ _ (modGraph_ok _ _ _ _ Hgr1)).
  set (w3 := set_graphs _ w2).
  assert (w_nodes w3 !! node = Some nd2) as Hn3 by exact Hn2.
  pose proof (innerNode_setup_trace node nd2 w3 Hn3) as T.
  change (w_trace w3) with (w_trace w2) in T. rewrite T2, T1 in T.
  bind_cases a s w4 E4; try rewrite E4 in T; simpl in T; [|exact T].
  rewrite <- T.
  match goal with |- w_trace (?m _).2 = _ =>
    assert (keeps (same w_trace) m) as K by keeps_walk end.
  apply K.
Qed.

(** The condition invoker, seen through the trace of state stores. *)
Lemma invokeCondition_trace w node parentSpan nd p :
  w_nodes w !! node = Some nd →
  (∀ s, s ∈ n_successors nd → is_Some (w_nodes w !! s)) →
  is_Some (w_graphs w !! n_g nd) →
  ((c_handle p (n_calls nd) = Panics ∨
    ∃ k, c_handle p (n_calls nd) = Returns k ∧ (N.of_nat (length (c_mapper p)) < k)%N) →
   w_trace (invokeCondition node parentSpan p w).2 =
     w_trace w ++ [(node, kNodeStateRunning); (node, kNodeStateIdle)]) ∧
  (∀ k chosen ndc grc,
     c_handle p (n_calls nd) = Returns k →
     c_mapper p !! N.to_nat k = Some chosen →
     w_nodes w !! chosen = Some ndc →
     w_graphs w !! n_g ndc = Some grc →
     w_trace (invokeCondition node parentSpan p w).2 =
       w_trace w ++ [(node, kNodeStateRunning); (node, kNodeStateFinished)] ++
       (if g_canceled grc then [] else [(chosen, kNodeStateWaiting)]) ++
       [(node, kNodeStateIdle)]).
Proof.
  intros Hn Hs Hg.
  assert (∀ r wb pre,
    invokeCondition_body node p w = (r, wb) →
    w_trace wb = w_trace w ++ pre →
    w_trace (invokeCondition_deferred node
               (newSpan {| a_typ := nodeCondition; a_name := n_name nd |} parentSpan)
               (match r with Stop (Panic v) => Some v | _ => None end) wb).2
    = w_trace w ++ pre ++ [(node, kNodeStateIdle)]) as Hfin.
  { intros r wb pre Eb Tb.
    pose proof (invokeCondition_body_frame node p w) as F. rewrite Eb in F. simpl in F.
    destruct (frame_node _ _ _ _ F Hn) as (ndb & Hnb & Hb).
    apply built_inv in Hb. destruct Hb as (_ & Hsucc & _ & _ & _ & Hgb & _).
    rewrite (invokeCondition_deferred_trace node _ _ ndb wb Hnb).
    - by rewrite Tb, <- app_assoc.
    - intros s Hin. rewrite Hsucc in Hin. destruct (Hs s Hin) as [sd Hsd].
      destruct (frame_node _ _ _ _ F Hsd) as (? & -> & _). by eexists.
    - rewrite Hgb. by eapply frame_allocated_graph. }
  unfold invokeCondition.
  rewrite (run_bind_ret _ _ _ _ _ (getNode_ok _ _ _ Hn)). cbv zeta.
  unfold with_defer. split.
  - intros Hfail.
    destruct (invokeCondition_body_fails_trace w node nd p Hn Hfail) as (v & wb & Eb & Tb).
    rewrite Eb. apply (Hfin _ _ _ Eb Tb).
  - intros k chosen ndc grc Hk Hm Hc Hgc.
    destruct (invokeCondition_body_in_range_trace w node nd p k chosen ndc grc
                Hn Hk Hm Hc Hgc) as (wb & Eb & Tb).
    rewrite Eb. rewrite (Hfin _ _ _ Eb Tb), <- !app_assoc. reflexivity.
Qed.

(** The body of the subflow invoker: running, then finished, unless the
    builder is run and panics. *)
Lemma invokeSubflow_body_trace w node nd p gr :
  w_nodes w !! node = Some nd →
  w_graphs w !! sf_g p = Some gr →
  (g_instancelized gr = true ∨
   (b_result (sf_handle p (n_calls nd)) = Returns tt ∧
    ∀ x, x ∈ b_pushed (sf_handle p (n_calls nd)) → is_Some (w_nodes w !! x)) →
   ∃ wb, invokeSubflow_body node p w = (Ret tt, wb) ∧
         w_trace wb = w_trace w ++ [(node, kNodeStateRunning); (node, kNodeStateFinished)]) ∧
  (g_instancelized gr = false →
   b_result (sf_handle p (n_calls nd)) = Panics →
   ∃ v wb, invokeSubflow_body node p w = (Stop (Panic v), wb) ∧
           w_trace wb = w_trace w ++ [(node, kNodeStateRunning)]).
Proof.
  intros Hn Hg.
  assert (∃ w1, state_Store node kNodeStateRunning w = (Ret tt, w1) ∧
    w_nodes w1 = <[node := node_set_state kNodeStateRunning nd]> (w_nodes w) ∧
    w_graphs w1 = w_graphs w ∧
    w_trace w1 = w_trace w ++ [(node, kNodeStateRunning)]) as (w1 & E1 & N1 & G1 & T1).
  { eexists. split; [mrun|]. done. }
  assert (w_graphs w1 !! sf_g p = Some gr) as Hg1 by (by rewrite G1).
  assert (w_nodes w1 !! node = Some (node_set_state kNodeStateRunning nd)) as Hn1.
  { rewrite N1. apply lookup_insert_eq. }
  assert (∀ w2, same (node_view (λ _, ())) w1 w2 → same (graph_view (λ _, ())) w1 w2 →
                w_trace w2 = w_trace w1 →
    ∃ wb, (modGraph (sf_g p) (graph_set_instancelized true) ;;
           state_Store node kNodeStateFinished) w2 = (Ret tt, wb) ∧
          w_trace wb = w_trace w ++ [(node, kNodeStateRunning); (node, kNodeStateFinished)])
    as Htail.
  { intros w2 B2 A2 T2.
    destruct (graph_view_transport _ _ _ _ _ A2 Hg1) as (gr2 & Hg2 & _).
    destruct (node_view_transport _ _ _ _ _ B2 Hn1) as (nd2 & Hn2 & _).
    eexists. split; [mrun|]. world_simpl. rewrite T2, T1, <- app_assoc. done. }
  unfold invokeSubflow_body.
  rewrite (run_bind_ret _ _ _ _ _ E1), (run_bind_ret _ _ _ _ _ (getGraph_ok _ _ _ Hg1)).
  split.
  - intros [Hi | [Hr Hp]].
    + rewrite Hi. rewrite (run_bind_ret _ _ _ _ _ (run_ret tt w1)).
      by apply Htail.
    + destruct (g_instancelized gr).
      { rewrite (run_bind_ret _ _ _ _ _ (run_ret tt w1)). by apply Htail. }
      assert (keeps (same (node_view (λ _, ()))) (Subflow_call node p)) as KB by keeps_walk.
      assert (keeps (same (graph_view (λ _, ()))) (Subflow_call node p)) as KG by keeps_walk.
      assert (keeps (same w_trace) (Subflow_call node p)) as KT by keeps_walk.
      assert (∃ w2, Subflow_call node p w1 = (Ret tt, w2)) as (w2 & E2).
      { unfold Subflow_call.
        rewrite (run_bind_ret _ _ _ _ _ (getNode_ok _ _ _ Hn1)).
        rewrite (run_bind_ret _ _ _ _ _ (modNode_ok _ _ _ _ Hn1)).
        cbn [n_calls node_set_state]. rewrite Hr.
        set (w1' := set_nodes _ w1).
        destruct (eGraph_push_ok (sf_g p) gr (b_pushed (sf_handle p (n_calls nd))) w1')
          as (h & E2 & _).
        { subst w1'. by world_simpl. }
        { intros x Hx. subst w1'. world_simpl. destruct (Hp x Hx) as [xd Hxd].
          destruct (decide (x = node)) as [->|Hne].
          - rewrite lookup_insert_eq. by eexists.
          - rewrite lookup_insert_ne by done. rewrite N1.
            rewrite lookup_insert_ne by done. by eexists. }
        rewrite (run_bind_ret _ _ _ _ _ E2). by eexists. }
      specialize (KB w1). specialize (KG w1). specialize (KT w1).
      rewrite E2 in KB, KG, KT. simpl in KB, KG, KT.
      rewrite (run_bind_ret _ _ _ _ _ E2). by apply Htail.
  - intros Hi Hr. rewrite Hi.
    assert (keeps (same w_trace) (Subflow_call node p)) as KT by keeps_walk.
    specialize (KT w1).
    assert (∃ v w2, Subflow_call node p w1 = (Stop (Panic v), w2)) as (v & w2 & E2).
    { unfold Subflow_call.
      rewrite (run_bind_ret _ _ _ _ _ (getNode_ok _ _ _ Hn1)).
      rewrite (run_bind_ret _ _ _ _ _ (modNode_ok _ _ _ _ Hn1)).
      cbn [n_calls node_set_state]. rewrite Hr.
      set (w1' := set_nodes _ w1).
      destruct (eGraph_push (sf_g p) (b_pushed (sf_handle p (n_calls nd))) w1')
        as [[[]|s] w2] eqn:E2.
      - rewrite (run_bind_ret _ _ _ _ _ E2). by eexists _, _.
      - pose proof (eGraph_push_stop _ _ _ _ _ E2) as ->.
        eexists _, w2. by rewrite (run_bind_stop _ _ _ _ _ E2). }
    rewrite E2 in KT. simpl in KT.
    exists v, w2. rewrite (run_bind_stop _ _ _ _ _ E2). split; [done|].
    by rewrite KT, T1.
Qed.

(** When [sche_successors] returns it has stored idle on the finished vertex,
    and then waiting on what it scheduled. *)
Lemma sche_successors_returned_trace node w w' :
  sche_successors node w = (Ret tt, w') →
  ∃ t, w_trace w' = w_trace w ++ (node, kNodeStateIdle) :: t ∧ Forall is_waiting t.
Proof.
  unfold sche_successors. rewrite run_bind. unfold getNode at 1.
  destruct (w_nodes w !! node) as [nd|] eqn:Hn; [|done].
  bind_cases c s1 w1 E1; [|done].
  assert (w_trace w1 = w_trace w) as T1.
  { eapply (keeps_run (same w_trace)); [|exact E1]. keeps_walk. }
  assert (same (node_view built) w w1) as B1.
  { eapply keeps_run; [|exact E1]. keeps_walk. }
  destruct (node_view_transport built _ _ _ _ B1 Hn) as (nd1 & Hn1 & _).
  rewrite run_bind. unfold sortByPriority at 1.
  pose proof (innerNode_setup_trace node nd1 w1 Hn1) as T2.
  bind_cases a2 s2 w2 E2; [|done]. try rewrite E2 in T2. simpl in T2.
  intros E3.
  destruct (schedule_is_waiting (insertionSortCmpFunc w1 c) w2) as (t & Ht & Ft).
  rewrite E3 in Ht. simpl in Ht.
  exists t. split; [|done]. by rewrite Ht, T2, T1, <- app_assoc.
Qed.

(** A subflow invocation that returns has stored running first and idle
    after its sub-graph was run; what lies between is not the state failed. *)
Lemma invokeSubflow_returned_trace rec node parentSpan p w w' :
  (∀ g sp, keeps (trace_adds not_failed) (rec g sp)) →
  invokeSubflow rec node parentSpan p w = (Ret tt, w') →
  ∃ t1 t2,
    w_trace w' = w_trace w ++ (node, kNodeStateRunning) :: t1 ++ (node, kNodeStateIdle) :: t2 ∧
    Forall not_failed t1 ∧ Forall is_waiting t2.
Proof.
  intros Hrec. unfold invokeSubflow. rewrite run_bind. unfold getNode at 1.
  destruct (w_nodes w !! node) as [nd|] eqn:Hn; [|done]. cbv zeta.
  set (sp := newSpan _ _).
  assert (∃ tb, w_trace (invokeSubflow_body node p w).2
                = w_trace w ++ (node, kNodeStateRunning) :: tb ∧ Forall not_failed tb)
    as (tb & Tb & Fb).
  { unfold invokeSubflow_body.
    assert (∃ w1, state_Store node kNodeStateRunning w = (Ret tt, w1) ∧
                  w_trace w1 = w_trace w ++ [(node, kNodeStateRunning)]) as (w1 & E1 & T1).
    { eexists. split; [mrun|]. done. }
    rewrite (run_bind_ret _ _ _ _ _ E1).
    match goal with |- ∃ _, w_trace (?m _).2 = _ ∧ _ =>
      assert (keeps (trace_adds not_failed) m) as K by keeps_walk end.
    destruct (K w1) as (tb & Ht & Ft). exists tb. split; [|done].
    by rewrite Ht, T1, <- app_assoc. }
  assert (∀ r wb, w_trace wb = w_trace w ++ (node, kNodeStateRunning) :: tb →
    invokeSubflow_deferred rec node sp p r wb = (Ret tt, w') →
    ∃ t1 t2,
      w_trace w' = w_trace w ++ (node, kNodeStateRunning) :: t1 ++ (node, kNodeStateIdle) :: t2 ∧
      Forall not_failed t1 ∧ Forall is_waiting t2) as Hfin.
  { intros r wb Twb. unfold invokeSubflow_deferred.
    bind_cases a1 s1 w1 E1; [|done].
    assert (w_trace w1 = w_trace wb) as T1.
    { eapply (keeps_run (same w_trace)); [|exact E1]. keeps_walk. }
    bind_cases a2 s2 w2 E2; [|done].
    destruct (keeps_run _ _ _ _ _ (Hrec (sf_g p) (Some sp)) E2) as (tr & T2 & F2).
    bind_cases a3 s3 w3 E3; [|done].
    assert (w_trace w3 = w_trace w2) as T3.
    { eapply (keeps_run (same w_trace)); [|exact E3]. keeps_walk. }
    bind_cases a4 s4 w4 E4; [|done]. destruct a4.
    destruct (sche_successors_returned_trace _ _ _ E4) as (t & T4 & F4).
    intros E5.
    match type of E5 with ?m _ = _ =>
      assert (keeps (same w_trace) m) as K by keeps_walk end.
    pose proof (keeps_run _ _ _ _ _ K E5) as T5. unfold same in T5.
    exists (tb ++ tr), t. split; [|split; [by apply Forall_app | done]].
    rewrite T5, T4, T3, T2, T1, Twb, <- !app_assoc. simpl. by rewrite <- ?app_assoc. }
  unfold with_defer.
  destruct (invokeSubflow_body node p w) as [[[]|[v| |]] wb]; simpl in Tb; [| |done|done].
  - by apply Hfin.
  - by apply Hfin.
Qed.

Lemma scheduleGraph_not_failed Go fuel g sp :
  pool_keeps (trace_adds not_failed) Go →
  keeps (trace_adds not_failed) (scheduleGraph Go fuel g sp).
Proof.
  intros HGo. pose proof (invokeGraph_not_failed Go HGo fuel).
  unfold scheduleGraph. keeps_walk.
Qed.

(** C7 (as the code has it).  (1) [schedule] stores waiting on every vertex it
    enqueues and stores nothing else.  (2) The static invoker stores running,
    then finished when the payload returns and nothing when it panics, and
    its finalizer then stores idle again (setup on the vertex); the only
    stores that follow are waiting, on the vertices it schedules.  (3) The
    condition invoker stores running; when the function panics or its choice
    is above the number of successors, the finalizer stores idle next; when
    the choice is the index of a successor, finished follows, then waiting on
    the chosen successor unless its graph is cancelled, then idle.  (4) The
    body of the subflow invoker stores running, then finished when the
    sub-graph is instantiated already or the builder returns, and not when
    the builder panics; (5) a subflow invocation that returns has stored
    running first, and idle on the vertex after its sub-graph was run.
    (6) No run, on any pool that stores no failed state itself, stores the
    state failed. *)
Theorem vertex_states_stored_by_a_run :
  (∀ (l : list positive) (w : World),
     ∃ pushed,
       e_wq (schedule l w).2 = e_wq w ++ pushed ∧
       w_trace (schedule l w).2 =
         w_trace w ++ ((λ n, (n, kNodeStateWaiting)) <$> pushed)) ∧
  (∀ (w : World) (node : positive) (parentSpan : option span) (nd : innerNode)
     (p : Static),
     w_nodes w !! node = Some nd →
     (∀ s, s ∈ n_successors nd → is_Some (w_nodes w !! s)) →
     is_Some (w_graphs w !! n_g nd) →
     ∃ t, Forall is_waiting t ∧
          w_trace (invokeStatic node parentSpan p w).2 =
            w_trace w ++
            match s_handle p (n_calls nd) with
            | Returns _ =>
                [(node, kNodeStateRunning); (node, kNodeStateFinished);
                 (node, kNodeStateIdle)]
            | Panics => [(node, kNodeStateRunning); (node, kNodeStateIdle)]
            end ++ t) ∧
  (∀ (w : World) (node : positive) (parentSpan : option span) (nd : innerNode)
     (p : Condition),
     w_nodes w !! node = Some nd →
     (∀ s, s ∈ n_successors nd → is_Some (w_nodes w !! s)) →
     is_Some (w_graphs w !! n_g nd) →
     ((c_handle p (n_calls nd) = Panics ∨
       ∃ k, c_handle p (n_calls nd) = Returns k ∧
            (N.of_nat (length (c_mapper p)) < k)%N) →
      w_trace (invokeCondition node parentSpan p w).2 =
        w_trace w ++ [(node, kNodeStateRunning); (node, kNodeStateIdle)]) ∧
     (∀ k chosen ndc grc,
        c_handle p (n_calls nd) = Returns k →
        c_mapper p !! N.to_nat k = Some chosen →
        w_nodes w !! chosen = Some ndc →
        w_graphs w !! n_g ndc = Some grc →
        w_trace (invokeCondition node parentSpan p w).2 =
          w_trace w ++ [(node, kNodeStateRunning); (node, kNodeStateFinished)] ++
          (if g_canceled grc then [] else [(chosen, kNodeStateWaiting)]) ++
          [(node, kNodeStateIdle)])) ∧
  (∀ (w : World) (node : positive) (nd : innerNode) (p : Subflow) (gr : eGraph),
     w_nodes w !! node = Some nd →
     w_graphs w !! sf_g p = Some gr →
     (g_instancelized gr = true ∨
      (b_result (sf_handle p (n_calls nd)) = Returns tt ∧
       ∀ x, x ∈ b_pushed (sf_handle p (n_calls nd)) → is_Some (w_nodes w !! x)) →
      ∃ wb, invokeSubflow_body node p w = (Ret tt, wb) ∧
            w_trace wb =
              w_trace w ++ [(node, kNodeStateRunning); (node, kNodeStateFinished)]) ∧
     (g_instancelized gr = false →
      b_result (sf_handle p (n_calls nd)) = Panics →
      ∃ v wb, invokeSubflow_body node p w = (Stop (Panic v), wb) ∧
              w_trace wb = w_trace w ++ [(node, kNodeStateRunning)])) ∧
  (∀ (Go : M unit → M unit) (fuel : nat) (node : positive) (parentSpan : option span)
     (p : Subflow) (w w' : World),
     pool_keeps (trace_adds not_failed) Go →
     invokeSubflow (scheduleGraph Go fuel) node parentSpan p w = (Ret tt, w') →
     ∃ t1 t2,
       w_trace w' =
         w_trace w ++ (node, kNodeStateRunning) :: t1 ++ (node, kNodeStateIdle) :: t2 ∧
       Forall not_failed t1 ∧ Forall is_waiting t2) ∧
  (∀ (Go : M unit → M unit) (fuel : nat) (tf : TaskFlow) (w : World),
     pool_keeps (trace_adds not_failed) Go →
     trace_adds not_failed w (Run Go fuel tf w).2).
Proof.
  split; [|split; [|split; [|split; [|split]]]].
  - apply schedule_trace.
  - intros w node parentSpan nd p Hn Hs Hg. by apply invokeStatic_trace.
  - intros w node parentSpan nd p Hn Hs Hg. by apply invokeCondition_trace.
  - intros w node nd p gr Hn Hg. by apply invokeSubflow_body_trace.
  - intros Go fuel node parentSpan p w w' HGo.
    apply invokeSubflow_returned_trace. intros g sp. by apply scheduleGraph_not_failed.
  - intros Go fuel tf w HGo. by apply Run_not_failed.
Qed.

(** C7 at the panicking vertex B of [chain_world], and at the condition of
    [condition_world] with the choices 1 and 5. *)
Lemma vertex_states_stored_by_a_run_witness :
  (∃ t, Forall is_waiting t ∧
        w_trace (invokeStatic 2 None panics chain_world).2 =
          w_trace chain_world ++
          [(2%positive, kNodeStateRunning); (2%positive, kNodeStateIdle)] ++ t) ∧
  w_trace (invokeCondition 1 None (chooses 5) (condition_world 5)).2 =
    w_trace (condition_world 5) ++
    [(1%positive, kNodeStateRunning); (1%positive, kNodeStateIdle)] ∧
  w_trace (invokeCondition 1 None (chooses 1) (condition_world 1)).2 =
    w_trace (condition_world 1) ++
    [(1%positive, kNodeStateRunning); (1%positive, kNodeStateFinished)] ++
    [(3%positive, kNodeStateWaiting)] ++ [(1%positive, kNodeStateIdle)].
Proof.
  destruct vertex_states_stored_by_a_run as (_ & Hstatic & Hcond & _).
  split; [|split].
  - apply (Hstatic chain_world 2%positive None
             (vertex "B" [3%positive] [1%positive] nodeStatic (PStatic panics) 1 2)
             panics).
    + reflexivity.
    + intros s Hs. apply list_elem_of_singleton in Hs. subst s. by eexists.
    + by eexists.
  - apply (Hcond (condition_world 5) 1%positive None
             (vertex "cond" [2; 3; 4]%positive [] nodeCondition
                (PCondition (chooses 5)) 1 2) (chooses 5)).
    + reflexivity.
    + intros s Hs. simpl in Hs. in_list Hs; by eexists.
    + by eexists.
    + right. exists 5%N. split; [reflexivity | vm_compute; reflexivity].
  - refine (proj2 (Hcond (condition_world 1) 1%positive None
                     (vertex "cond" [2; 3; 4]%positive [] nodeCondition
                        (PCondition (chooses 1)) 1 2) (chooses 1) _ _ _)
              1%N 3%positive
              (vertex "Y" [] [1%positive] nodeStatic (PStatic returns) 1 2)
              (graph "g" [1; 2; 3; 4]%positive false) _ _ _ _); try reflexivity.
    + intros s Hs. simpl in Hs. in_list Hs; by eexists.
    + by eexists.
Defined.

(** C7, the claim fails: in a run of the chain, A goes from finished back to
    idle, and B, which panics, goes from running to idle; at the end B is
    idle, not failed. *)
Lemma panicking_vertex_ends_idle :
  let w' := (Run pool_runs 4 single_flow chain_world).2 in
  w_trace w' =
    [(1%positive, kNodeStateIdle); (2%positive, kNodeStateIdle);
     (3%positive, kNodeStateIdle);
     (1%positive, kNodeStateWaiting); (1%positive, kNodeStateRunning);
     (1%positive, kNodeStateFinished); (1%positive, kNodeStateIdle);
     (2%positive, kNodeStateWaiting); (2%positive, kNodeStateRunning);
     (2%positive, kNodeStateIdle)] ∧
  n_state <$> w_nodes w' !! 2%positive = Some kNodeStateIdle ∧
  n_state <$> w_nodes w' !! 2%positive ≠ Some kNodeStateFailed.
Proof. vm_compute. repeat split; discriminate. Qed.

(** * Cancellation is permanent *)

Lemma invokeGraph_latch_kept Go :
  pool_keeps latch_kept Go →
  ∀ fuel g parentSpan, keeps latch_kept (invokeGraph Go fuel g parentSpan).
Proof. intros HGo. keeps_fuel HGo. Qed.

(** X19: no run clears a cancellation flag: a graph that is cancelled
    before Run is cancelled after it. *)
Theorem Run_never_clears_a_cancellation_flag (Go : M unit → M unit) (fuel : nat)
    (tf : TaskFlow) (w : World) (g : positive) :
  pool_keeps latch_kept Go →
  latched g w →
  latched g (Run Go fuel tf w).2.
Proof.
  intros HGo Hl. eapply latch_kept_latched; [|exact Hl].
  pose proof (invokeGraph_latch_kept Go HGo fuel).
  assert (keeps latch_kept (Run Go fuel tf)) as K.
  { unfold Run, scheduleGraph. keeps_walk. }
  apply K.
Qed.

(** X19 at [latched_world]. *)
Lemma Run_never_clears_a_cancellation_flag_witness :
  latched 1 (Run pool_runs 3 single_flow latched_world).2.
Proof.
  apply (Run_never_clears_a_cancellation_flag pool_runs 3 single_flow latched_world 1).
  - apply pool_runs_keeps. apply _.
  - eexists. split; [reflexivity|]. reflexivity.
Defined.

(** * setup, twice *)

Lemma eGraph_setup_frame g : keeps frame (eGraph_setup g).
Proof. keeps_frame. Qed.

Lemma has_no_dependents_same w w' n :
  same (node_view built) w w' → has_no_dependents w' n ↔ has_no_dependents w n.
Proof.
  intros B. unfold has_no_dependents.
  assert (n_dependents <$> w_nodes w' !! n = n_dependents <$> w_nodes w !! n) as ->; [|done].
  unfold same in B. apply (f_equal (λ m, m !! n)) in B. rewrite !node_view_lookup in B.
  destruct (w_nodes w' !! n) as [x'|], (w_nodes w !! n) as [x|]; simpl in *; try done.
  assert (built x' = built x) as Hb by congruence.
  apply built_inv in Hb. f_equal. tauto.
Qed.

(** X6: setup on a graph twice leaves the entries, the graph join-counter
    and the state and join-counter of every vertex as the first setup left
    them. *)
Theorem eGraph_setup_is_idempotent (w : World) (g : positive) (gr : eGraph) :
  w_graphs w !! g = Some gr →
  NoDup (g_nodes gr) →
  (∀ n, n ∈ g_nodes gr →
        ∃ nd, w_nodes w !! n = Some nd ∧
              ∀ d, d ∈ n_dependents nd → is_Some (w_nodes w !! d)) →
  ∃ w1 w2 gr1 gr2,
    eGraph_setup g w = (Ret tt, w1) ∧
    eGraph_setup g w1 = (Ret tt, w2) ∧
    w_graphs w1 !! g = Some gr1 ∧
    w_graphs w2 !! g = Some gr2 ∧
    g_entries gr2 = g_entries gr1 ∧
    g_joinCounter gr2 = g_joinCounter gr1 ∧
    ∀ n, n ∈ g_nodes gr →
      n_state <$> w_nodes w2 !! n = n_state <$> w_nodes w1 !! n ∧
      n_joinCounter <$> w_nodes w2 !! n = n_joinCounter <$> w_nodes w1 !! n.
Proof.
  intros Hg Hdup Hall.
  destruct (eGraph_setup_spec g gr w Hg Hdup Hall)
    as (w1 & gr1 & E1 & Hg1 & J1 & En1 & Nd1 & _ & S1).
  pose proof (keeps_run _ _ _ _ _ (eGraph_setup_frame g) E1) as F1.
  destruct F1 as [B1 _].
  destruct (eGraph_setup_spec g gr1 w1 Hg1) as (w2 & gr2 & E2 & Hg2 & J2 & En2 & _ & _ & S2).
  { by rewrite Nd1. }
  { intros n Hin. rewrite Nd1 in Hin. destruct (Hall n Hin) as (nd & Hn & Hd).
    destruct (node_view_transport built _ _ _ _ B1 Hn) as (nd1 & Hn1 & Hb).
    apply built_inv in Hb. destruct Hb as (_ & _ & Hdep & _).
    exists nd1. split; [done|]. intros d Hdin. rewrite Hdep in Hdin.
    destruct (Hd d Hdin) as [dd Hdd].
    destruct (node_view_transport built _ _ _ _ B1 Hdd) as (? & -> & _). by eexists. }
  exists w1, w2, gr1, gr2. split; [done|]. split; [done|]. split; [done|]. split; [done|].
  split.
  { rewrite En2, En1, Nd1. apply filter_agree. intros n _.
    by apply has_no_dependents_same. }
  split; [congruence|].
  intros n Hin. destruct (Hall n Hin) as (nd & Hn & _).
  destruct (node_view_transport built _ _ _ _ B1 Hn) as (nd1 & Hn1 & Hb).
  apply built_inv in Hb. destruct Hb as (_ & _ & Hdep & _).
  destruct (S1 n nd Hin Hn) as [-> ->].
  destruct (S2 n nd1) as [-> ->]; [by rewrite Nd1 | done|].
  split; [done|]. by rewrite Hdep, (counted_dependents_same w w1).
Qed.

(** X6 at [loop_world]. *)
Lemma eGraph_setup_is_idempotent_witness :
  ∃ w1 w2 gr1 gr2,
    eGraph_setup 1 loop_world = (Ret tt, w1) ∧
    eGraph_setup 1 w1 = (Ret tt, w2) ∧
    w_graphs w1 !! 1%positive = Some gr1 ∧
    w_graphs w2 !! 1%positive = Some gr2 ∧
    g_entries gr2 = g_entries gr1 ∧
    g_joinCounter gr2 = g_joinCounter gr1 ∧
    ∀ n, n ∈ [1; 2; 3; 4]%positive →
      n_state <$> w_nodes w2 !! n = n_state <$> w_nodes w1 !! n ∧
      n_joinCounter <$> w_nodes w2 !! n = n_joinCounter <$> w_nodes w1 !! n.
Proof.
  apply (eGraph_setup_is_idempotent loop_world 1 (graph "g" [1; 2; 3; 4]%positive false)).
  - reflexivity.
  - apply (bool_decide_unpack _). vm_compute. exact I.
  - intros n Hin. simpl in Hin.
    in_list Hin; (eexists; split; [reflexivity|]); simpl; intros d Hd;
      in_list Hd; by eexists.
Defined.

(** * reset *)

(** X7: reset on a graph with allocated vertices returns; it sets the
    join-counter of the graph and of every listed vertex to zero and empties
    the entries, and that is all: the states, the call counts, the
    cancellation flag, the instancelized latch and the executor are as they
    were. *)
Theorem eGraph_reset_zeroes_the_counters_only (w : World) (g : positive) (gr : eGraph) :
  w_graphs w !! g = Some gr →
  (∀ n, n ∈ g_nodes gr → is_Some (w_nodes w !! n)) →
  ∃ w', eGraph_reset g w = (Ret tt, w') ∧
        w_graphs w' = <[g := graph_set_entries [] (graph_set_joinCounter 0 gr)]> (w_graphs w) ∧
        (∀ n, n ∈ g_nodes gr → n_joinCounter <$> w_nodes w' !! n = Some 0) ∧
        same (node_view (λ x, (built x, n_state x, n_calls x))) w w' ∧
        e_wq w' = e_wq w ∧ e_wg w' = e_wg w ∧ w_trace w' = w_trace w.
Proof.
  intros Hg Hall.
  destruct (eGraph_reset_spec g gr w Hg Hall) as (w' & E & G & _ & Q & Z).
  exists w'. split; [exact E|]. split; [exact G|]. split; [exact Z|].
  split; [eapply keeps_run; [|exact E]; keeps_walk|].
  split; [exact Q|].
  split; [eapply (keeps_run (same e_wg)); [|exact E]; keeps_walk|].
  eapply (keeps_run (same w_trace)); [|exact E]; keeps_walk.
Qed.

(** X7 at [loop_world]. *)
Lemma eGraph_reset_zeroes_the_counters_only_witness :
  ∃ w', eGraph_reset 1 loop_world = (Ret tt, w') ∧
        w_graphs w' = <[1%positive := graph_set_entries []
                          (graph_set_joinCounter 0 (graph "g" [1; 2; 3; 4]%positive false))]>
                        (w_graphs loop_world) ∧
        (∀ n, n ∈ [1; 2; 3; 4]%positive → n_joinCounter <$> w_nodes w' !! n = Some 0) ∧
        same (node_view (λ x, (built x, n_state x, n_calls x))) loop_world w' ∧
        e_wq w' = e_wq loop_world ∧ e_wg w' = e_wg loop_world ∧
        w_trace w' = w_trace loop_world.
Proof.
  apply (eGraph_reset_zeroes_the_counters_only loop_world 1
           (graph "g" [1; 2; 3; 4]%positive false)).
  - reflexivity.
  - intros n Hin. simpl in Hin. in_list Hin; by eexists.
Defined.

(** * A static vertex whose payload returns *)

Lemma schedule_same_counters l : keeps (same (node_view counters)) (schedule l).
Proof. induction l as [|n l IH]; cbn [schedule]; keeps_walk. Qed.

Lemma counters_inv nd nd' :
  counters nd' = counters nd →
  built nd' = built nd ∧ n_joinCounter nd' = n_joinCounter nd ∧ n_calls nd' = n_calls nd.
Proof.
  intros H. split; [exact (f_equal (λ q, q.1.1) H)|].
  split; [exact (f_equal (λ q, q.1.2) H) | exact (f_equal snd H)].
Qed.

(** What one invocation of a static vertex does when the payload returns. *)
Lemma invokeStatic_returning w node parentSpan nd p :
  w_nodes w !! node = Some nd →
  n_Typ nd ≠ nodeCondition →
  s_handle p (n_calls nd) = Returns tt →
  is_Some (w_graphs w !! n_g nd) →
  (∀ d, d ∈ n_dependents nd → is_Some (w_nodes w !! d)) →
  (∀ s, s ∈ n_successors nd → schedulable w s) →
  (1 ≤ e_wg w)%nat →
  ∃ w' wd,
    invokeStatic node parentSpan p w = (Ret tt, w') ∧
    same (node_view built) w w' ∧
    same (graph_view g_canceled) w w' ∧
    (* [wd]: the store when [drop] has returned *)
    same (node_view built) w wd ∧
    (∀ v, n_joinCounter <$> w_nodes wd !! v =
          (λ x, n_joinCounter x - occurrences v (n_successors nd)) <$> w_nodes w !! v) ∧
    (∀ v, v ≠ node →
          n_joinCounter <$> w_nodes w' !! v = n_joinCounter <$> w_nodes wd !! v ∧
          n_calls <$> w_nodes w' !! v = n_calls <$> w_nodes w !! v) ∧
    n_calls <$> w_nodes w' !! node = Some (S (n_calls nd)) ∧
    e_wq w' = e_wq w ++ insertionSortCmpFunc wd (filter (ready wd) (n_successors nd)) ∧
    (e_wg w' + 1 = e_wg w
       + length (insertionSortCmpFunc wd (filter (ready wd) (n_successors nd))))%nat ∧
    (∀ g, g_joinCounter <$> w_graphs w' !! g =
          (λ gr, g_joinCounter gr
                 + owned w g (insertionSortCmpFunc wd (filter (ready wd) (n_successors nd)))
                 - (if decide (g = n_g nd) then 1 else 0)) <$> w_graphs w !! g) ∧
    ∃ t, w_trace w' = w_trace w ++ [(node, kNodeStateRunning); (node, kNodeStateFinished);
                                    (node, kNodeStateIdle)] ++ t ∧
         Forall is_waiting t.
Proof.
  intros Hn Htyp Hret [gr Hg] Hdeps Hsucc Hwg.
  (* the trace *)
  destruct (invokeStatic_trace w node parentSpan nd p Hn) as (t & Ft & Tr).
  { intros s Hs. destruct (Hsucc s Hs) as (sd & _ & -> & _). by eexists. }
  { by eexists. }
  rewrite Hret in Tr.
  set (sp := newSpan {| a_typ := nodeStatic; a_name := n_name nd |} parentSpan).
  (* the body, and the span *)
  set (ndb := node_set_state kNodeStateFinished
                (node_set_calls (S (n_calls nd)) (node_set_state kNodeStateRunning nd))).
  set (wb := set_profiler (e_profiler w ++ [sp])
       (set_trace (w_trace w ++ [(node, kNodeStateRunning); (node, kNodeStateFinished)])
         (set_nodes (<[node := ndb]> (w_nodes w)) w))).
  assert (∃ wb0, invokeStatic_body node p w = (Ret tt, wb0) ∧
                 profiler_AddSpan sp wb0 = (Ret tt, wb)) as (wb0 & Eb & Ec).
  { eexists. split; [mrun|]. subst wb ndb. rewrite AddSpan_ok. world_simpl.
    rewrite !insert_insert_eq, <- app_assoc. reflexivity. }
  assert (w_nodes wb !! node = Some ndb) as Hnb by (subst wb; world_simpl; apply lookup_insert_eq).
  assert (same (node_view built) w wb) as Bb.
  { subst wb. unfold same, node_view. world_simpl. eapply fmap_insert_same; [exact Hn | done]. }
  assert (∀ v, v ≠ node → w_nodes wb !! v = w_nodes w !! v) as Ob.
  { intros v Hv. subst wb. world_simpl. by rewrite lookup_insert_ne. }
  assert (∀ v, n_joinCounter <$> w_nodes wb !! v = n_joinCounter <$> w_nodes w !! v) as Jb.
  { intros v. destruct (decide (v = node)) as [->|Hv]; [|by rewrite Ob].
    by rewrite Hnb, Hn. }
  (* drop *)
  destruct (innerNode_drop_ok node ndb wb Hnb Htyp) as (wd & Ed & Jd & Bd & Gd & Qd & WGd & Td).
  { intros s Hs. destruct (Hsucc s Hs) as (sd & _ & Hsd & _).
    destruct (node_view_transport built _ _ _ _ Bb Hsd) as (? & -> & _). by eexists. }
  assert (same (node_view built) wb wd) as Bd'.
  { unfold same, node_view in *.
    apply (f_equal (fmap (λ q : _ * Z * nat, q.1.1))) in Bd.
    by rewrite <- !map_fmap_compose in Bd. }
  assert (same (node_view n_calls) wb wd) as Cd.
  { unfold same, node_view in *.
    apply (f_equal (fmap (λ q : _ * Z * nat, q.2))) in Bd.
    by rewrite <- !map_fmap_compose in Bd. }
  assert (same (node_view built) w wd) as Bwd by (etrans; [exact Bb | exact Bd']).
  destruct (node_view_transport built _ _ _ _ Bwd Hn) as (ndd & Hnd & Hbd).
  apply built_inv in Hbd. destruct Hbd as (_ & Hsd & Hdd & _ & _ & Hgd & _).
  (* sche_successors *)
  set (C := insertionSortCmpFunc wd (filter (ready wd) (n_successors nd))).
  destruct (innerNode_setup_spec node ndd wd Hnd) as (we & Ee & Ne & Ge & Qe).
  { intros d Hd. rewrite Hdd in Hd. destruct (Hdeps d Hd) as [dd Hdx].
    destruct (node_view_transport built _ _ _ _ Bwd Hdx) as (? & -> & _). by eexists. }
  assert (same (node_view built) wd we) as Be.
  { unfold same, node_view. rewrite Ne. eapply fmap_insert_same; [exact Hnd | done]. }
  assert (same (node_view n_calls) wd we) as Ce.
  { unfold same, node_view. rewrite Ne. eapply fmap_insert_same; [exact Hnd | done]. }
  assert (e_wg we = e_wg wd ∧ w_trace we = w_trace wd ++ [(node, kNodeStateIdle)]) as [WGe Te].
  { split.
    - eapply (keeps_run (same e_wg)); [|exact Ee]. keeps_walk.
    - pose proof (innerNode_setup_trace node ndd wd Hnd) as T. by rewrite Ee in T. }
  assert (same (node_view built) w we) as Bwe by (etrans; [exact Bwd | exact Be]).
  assert (same (graph_view g_canceled) w we) as Cwe.
  { unfold same, graph_view. rewrite Ge, Gd. subst wb. done. }
  assert (sche_successors node wd = schedule C we) as Es.
  { unfold sche_successors.
    rewrite (run_bind_ret _ _ _ _ _ (getNode_ok _ _ _ Hnd)), Hsd.
    rewrite (run_bind_ret _ _ _ _ _ (candidates_spec _ _
      ltac:(intros s Hs; destruct (Hsucc s Hs) as (sd & _ & Hsx & _);
            destruct (node_view_transport built _ _ _ _ Bwd Hsx) as (? & -> & _);
            by eexists))).
    rewrite (run_bind_ret _ _ _ _ _ (sortByPriority_ok _ _)).
    rewrite (run_bind_ret _ _ _ _ _ Ee). reflexivity. }
  destruct (schedule_all C we) as [Rf Qf].
  { intros s Hs. subst C. rewrite insertionSortCmpFunc_Permutation in Hs.
    apply list_elem_of_filter in Hs as [_ Hs].
    eapply schedulable_same; [exact Bwe | exact Cwe | by apply Hsucc]. }
  destruct (schedule_accounts C we) as (pushed & _ & Qf' & WGf & Jf & _).
  assert (pushed = C) as -> by (rewrite Qf in Qf'; by apply app_inv_head in Qf').
  pose proof (schedule_same_counters C we) as Kf.
  pose proof (schedule_same_canceled C we) as Cf.
  pose proof (schedule_same_graphs_allocated C we) as Af.
  destruct (schedule C we) as [rf wf] eqn:Ef. simpl in Rf, Qf, WGf, Jf, Kf, Cf, Af. subst rf.
  (* the tail of the finalizer *)
  assert (n_g <$> w_nodes wf !! node = Some (n_g nd) ∧
          n_calls <$> w_nodes wf !! node = Some (S (n_calls nd))) as [Hgf Hcf].
  { pose proof (node_view_at counters _ _ node Kf) as H.
    rewrite Ne, lookup_insert_eq in H.
    destruct (w_nodes wf !! node) as [ndf|]; [|done].
    apply (inj Some) in H. apply counters_inv in H as (H1 & _ & H3).
    apply built_inv in H1. destruct H1 as (_ & _ & _ & _ & _ & H1 & _).
    simpl in H1, H3. simpl. split; f_equal; [congruence|].
    rewrite H3. pose proof (node_view_at n_calls _ _ node Cd) as H4.
    rewrite Hnd, Hnb in H4. simpl in H4. by injection H4. }
  destruct (w_nodes wf !! node) as [ndf|] eqn:Hnf; [|done].
  injection Hgf as Hgf. injection Hcf as Hcf.
  assert (∃ grf, w_graphs wf !! n_g nd = Some grf ∧
                 g_joinCounter grf = g_joinCounter gr + owned we (n_g nd) C) as (grf & Hgrf & Hjf).
  { specialize (Jf (n_g nd)). rewrite Ge, Gd in Jf. subst wb. world_simpl.
    revert Jf. world_simpl. rewrite Hg. simpl.
    destruct (w_graphs wf !! n_g nd) as [grf|]; [|done]. intros [= Jf]. by exists grf. }
  assert (e_wg wf = (e_wg w + length C)%nat) as WGwf.
  { rewrite WGf, WGe, WGd. by subst wb. }
  set (w' := set_graphs (<[n_g nd := graph_set_scheCond (S (g_scheCond grf))
                             (graph_set_joinCounter (g_joinCounter grf - 1) grf)]>
                           (w_graphs wf))
               (set_wg (e_wg wf - 1) wf)).
  assert ((nd0 ← getNode node;
           graph_joinCounter_Decrease (n_g nd0) ;; wg_Done ;; scheCond_Signal (n_g nd0)) wf
          = (Ret tt, w')) as Et.
  { rewrite (run_bind_ret _ _ _ _ _ (getNode_ok _ _ _ Hnf)), Hgf.
    unfold graph_joinCounter_Decrease.
    rewrite (run_bind_ret _ _ _ _ _ (modGraph_ok _ _ _ _ Hgrf)).
    unfold wg_Done, wg_Add. rewrite run_bind. world_simpl.
    rewrite decide_False by lia.
    unfold scheCond_Signal. etrans; [apply modGraph_ok; world_simpl; apply lookup_insert_eq|].
    subst w'. world_simpl. rewrite insert_insert_eq.
    assert (Z.to_nat (Z.of_nat (e_wg wf) + -1) = (e_wg wf - 1)%nat) as -> by lia.
    reflexivity. }
  assert (invokeStatic node parentSpan p w = (Ret tt, w')) as E.
  { unfold invokeStatic.
    rewrite (run_bind_ret _ _ _ _ _ (getNode_ok _ _ _ Hn)). cbv zeta.
    fold sp. unfold with_defer. rewrite Eb. unfold invokeStatic_deferred.
    rewrite (run_bind_ret _ _ _ _ _ Ec), (run_bind_ret _ _ _ _ _ Ed).
    rewrite (run_bind_ret _ _ _ _ _ Es). exact Et. }
  rewrite E in Tr. simpl in Tr.
  assert (∀ g' l, owned we g' l = owned w g' l) as Ow.
  { intros g' l. by apply owned_same, same_built_owner. }
  subst C. exists w', wd. split; [exact E|].
  split.
  { etrans; [exact Bwe|]. subst w'. unfold same, node_view in *. world_simpl.
    apply (f_equal (fmap (λ q : _ * Z * nat, q.1.1))) in Kf.
    by rewrite <- !map_fmap_compose in Kf. }
  split.
  { etrans; [exact Cwe|]. etrans; [exact Cf|]. subst w'.
    unfold same, graph_view. world_simpl. eapply fmap_insert_same; [exact Hgrf | done]. }
  split; [exact Bwd|].
  split.
  { intros v. rewrite Jd. destruct (decide (v = node)) as [->|Hv].
    - by rewrite Hnb, Hn.
    - by rewrite Ob. }
  split.
  { intros v Hv. subst w'. world_simpl.
    pose proof (node_view_at counters _ _ v Kf) as H. rewrite Ne in H.
    rewrite lookup_insert_ne in H by done.
    pose proof (node_view_at n_calls _ _ v Cd) as H4. rewrite Ob in H4 by done.
    destruct (w_nodes wf !! v) as [x|], (w_nodes wd !! v) as [y|],
      (w_nodes w !! v) as [z|]; try done.
    apply (inj Some) in H. apply counters_inv in H as (_ & H2 & H3).
    simpl in H4 |- *. split; f_equal; congruence. }
  split; [subst w'; world_simpl; rewrite Hnf; simpl; by rewrite Hcf|].
  split; [subst w'; world_simpl; rewrite Qf, Qe, Qd; by subst wb|].
  split; [subst w'; world_simpl; lia|].
  split.
  { intros g'. subst w'. world_simpl. rewrite <- Ow.
    destruct (decide (g' = n_g nd)) as [->|Hne].
    - rewrite lookup_insert_eq, Hg. simpl. f_equal. lia.
    - rewrite lookup_insert_ne by done. rewrite Jf, Ge, Gd. subst wb. world_simpl.
      destruct (w_graphs w !! g'); simpl; [|done]. f_equal. lia. }
  exists t. split; [|exact Ft]. subst w'. world_simpl. exact Tr.
Qed.

(** * Running a graph of static vertices *)

Lemma occurrences_nonneg x l : 0 ≤ occurrences x l.
Proof. unfold occurrences. lia. Qed.

Lemma occurrences_pos x l : 0 < occurrences x l ↔ x ∈ l.
Proof.
  induction l as [|y l IH].
  { unfold occurrences. simpl. split; [lia | by intros ?%elem_of_nil]. }
  rewrite occurrences_cons, elem_of_cons. pose proof (occurrences_nonneg x l).
  destruct (decide (y = x)) as [->|Hne].
  - split; [by left | lia].
  - rewrite Z.add_0_l, IH. split; [by right | intros [?|?]; [congruence | done]].
Qed.

(** Finishing [n] takes its occurrences out of what is pending. *)
Lemma pending_after n (done l : list positive) :
  n ∉ done →
  Z.of_nat (length (filter (.∉ done ++ [n]) l))
  = Z.of_nat (length (filter (.∉ done) l)) - occurrences n l.
Proof.
  intros Hn. induction l as [|x l IH].
  { unfold occurrences. simpl. lia. }
  rewrite !filter_cons, occurrences_cons.
  destruct (decide (x = n)) as [->|Hx].
  - rewrite decide_False by (intros H; apply H, elem_of_app; right; left).
    rewrite decide_True by done. simpl length. lia.
  - destruct (decide (x ∈ done)) as [Hd|Hd].
    + rewrite decide_False by (intros H; apply H, elem_of_app; by left).
      rewrite decide_False by (intros H; by apply H). lia.
    + rewrite decide_True.
      2:{ intros [?|?%list_elem_of_singleton]%elem_of_app; done. }
      rewrite decide_True by done. simpl length. lia.
Qed.

Lemma pending_none (done l : list positive) :
  Z.of_nat (length (filter (.∉ done) l)) = 0 ↔ ∀ d, d ∈ l → d ∈ done.
Proof.
  induction l as [|x l IH].
  { simpl. split; [intros _ d ?%elem_of_nil; done | done]. }
  rewrite filter_cons. destruct (decide (x ∉ done)) as [Hx|Hx].
  - simpl length. split; [lia|]. intros H. exfalso. apply Hx, H. left.
  - rewrite IH. apply dec_stable in Hx. split.
    + intros H d [->|?]%elem_of_cons; auto.
    + intros H d Hd. apply H. by right.
Qed.

Section Dag.
Context (w0 : World) (g : positive) (N : list positive) (rank : positive → nat).
Hypothesis Hdag : static_dag w0 g N rank.

(** A vertex of the graph, as a store with the same build-time fields has it. *)
Lemma dag_vertex_now w v :
  same (node_view built) w0 w → v ∈ N →
  ∃ nd p, w_nodes w !! v = Some nd ∧ n_g nd = g ∧ n_Typ nd = nodeStatic ∧
          n_ptr nd = PStatic p ∧ (∀ k, s_handle p k = Returns tt) ∧
          n_successors nd = successorsOf w0 v ∧
          n_dependents nd = dependentsOf w0 v ∧
          NoDup (successorsOf w0 v) ∧
          (∀ s, s ∈ successorsOf w0 v → s ∈ N ∧ (rank v < rank s)%nat) ∧
          (∀ d, d ∈ dependentsOf w0 v → d ∈ N).
Proof.
  intros B Hv. destruct (dag_vertex _ _ _ _ Hdag v Hv)
    as (nd0 & p & Hn0 & Hg & Ht & Hp & Hr & Hnd & Hs & Hd).
  destruct (node_view_transport built _ _ _ _ B Hn0) as (nd & Hn & Hb).
  apply built_inv in Hb. destruct Hb as (_ & Hbs & Hbd & Hbt & Hbp & Hbg & _).
  exists nd, p. unfold successorsOf, dependentsOf. rewrite Hn0. simpl.
  repeat split; try congruence; try done.
  - by apply Hs.
  - by apply Hs.
Qed.

Lemma dag_edge d v :
  d ∈ N → v ∈ N →
  occurrences v (successorsOf w0 d) = occurrences d (dependentsOf w0 v).
Proof.
  intros Hd Hv.
  destruct (dag_vertex_now w0 d ltac:(reflexivity) Hd) as (nd & _ & Hn & _ & _ & _ & _ & Hs & _).
  destruct (dag_vertex_now w0 v ltac:(reflexivity) Hv) as (nv & _ & Hnv & _ & _ & _ & _ & _ & Hdv & _).
  rewrite <- Hs, <- Hdv. by apply (dag_mirrored _ _ _ _ Hdag).
Qed.

Lemma dag_edge_in d v :
  d ∈ N → v ∈ N → v ∈ successorsOf w0 d ↔ d ∈ dependentsOf w0 v.
Proof. intros Hd Hv. by rewrite <- !occurrences_pos, dag_edge. Qed.

End Dag.

Lemma stored_before_app t t' a b : stored_before t a b → stored_before (t ++ t') a b.
Proof.
  intros (t1 & t2 & t3 & ->). exists t1, t2, (t3 ++ t').
  by rewrite <- !app_assoc, <- !app_comm_cons, <- !app_assoc.
Qed.

Lemma stored_before_later t t' a b :
  a ∈ t → stored_before (t ++ b :: t') a b.
Proof.
  intros (t1 & t2 & ->)%list_elem_of_split. exists t1, t2, t'.
  by rewrite <- !app_assoc, <- !app_comm_cons.
Qed.

Section Step.
Context (w0 : World) (g : positive) (N : list positive) (rank : positive → nat).
Hypothesis Hdag : static_dag w0 g N rank.

(** One turn of the dispatcher loop: the head of the queue is executed. *)
Lemma dispatch_step done w n q rec parentSpan :
  running w0 g N done w →
  e_wq w = n :: q →
  ∃ w', invokeNode pool_runs rec n parentSpan (set_wq q w) = (Ret tt, w') ∧
        running w0 g N (done ++ [n]) w'.
Proof.
  intros R Hq.
  destruct R as [B (grw & Hgw & Hcw & Hjw) WG QN DN DI CL QC PE DC (T & HT & TF & TB)].
  assert (n ∈ N ∧ (n ∉ done) ∧ ∀ d, d ∈ dependentsOf w0 n → d ∈ done) as (HnN & Hnd & Hndeps).
  { apply QC. rewrite Hq. left. }
  destruct (dag_vertex_now w0 g N rank Hdag w n B HnN)
    as (nd & p & Hn & Hg & Ht & Hp & Hr & Hs & Hd & HsND & HsN & HdN).
  set (wa := set_wq q w).
  assert (same (node_view built) w0 wa) as Ba by exact B.
  (* the invoker *)
  destruct (invokeStatic_returning wa n parentSpan nd p) as
    (w' & wd & E & B' & C' & Bd & Jd & Jo & Cn & Q' & WG' & G' & (t & T' & Ft)).
  { exact Hn. }
  { rewrite Ht. discriminate. }
  { apply Hr. }
  { rewrite Hg. by eexists. }
  { intros d Hdd. rewrite Hd in Hdd.
    destruct (dag_vertex_now w0 g N rank Hdag w d B (HdN d Hdd)) as (x & ? & Hx & _).
    by exists x. }
  { intros s Hss. rewrite Hs in Hss.
    destruct (dag_vertex_now w0 g N rank Hdag w s B (proj1 (HsN s Hss)))
      as (sd & ? & Hsd & Hsg & _).
    exists sd, grw. split; [exact Hsd|]. rewrite Hsg. done. }
  { subst wa. world_simpl. rewrite WG, Hq. simpl. lia. }
  exists w'. split.
  { unfold invokeNode. rewrite (run_bind_ret _ _ _ _ _ (getNode_ok n nd wa Hn)), Hp.
    unfold pool_runs. by rewrite E. }
  set (C := insertionSortCmpFunc wd (filter (ready wd) (n_successors nd))) in *.
  assert (NoDup (n :: q)) as QN' by (by rewrite <- Hq).
  apply NoDup_cons in QN' as [Hnq QNq].
  (* the join-counters when drop has returned *)
  assert (∀ v, v ∈ N → v ∉ done → v ≠ n →
    n_joinCounter <$> w_nodes wd !! v
    = Some (Z.of_nat (length (filter (.∉ done ++ [n]) (dependentsOf w0 v))))) as Jpend.
  { intros v HvN Hvd Hvn. rewrite Jd. destruct (PE v HvN Hvd) as [Hj _].
    change (w_nodes wa) with (w_nodes w).
    destruct (w_nodes w !! v) as [x|]; [|done]. simpl in Hj |- *. f_equal.
    injection Hj as ->. rewrite pending_after by done.
    rewrite Hs, (dag_edge w0 g N rank Hdag n v) by done. reflexivity. }
  (* the successors of [n] are vertices that have not been executed *)
  assert (∀ s, s ∈ successorsOf w0 n → s ∈ N ∧ (s ∉ done) ∧ s ≠ n) as Hsucc.
  { intros s Hss. destruct (HsN s Hss) as [HsN' Hrk]. split; [done|]. split.
    - intros Hsd. apply Hnd. apply (CL s n Hsd).
      by apply (dag_edge_in w0 g N rank Hdag n s).
    - intros ->. lia. }
  (* what has been enqueued *)
  assert (∀ s, s ∈ C ↔ s ∈ successorsOf w0 n ∧
                        ∀ d, d ∈ dependentsOf w0 s → d ∈ done ++ [n]) as HC.
  { intros s. subst C. rewrite insertionSortCmpFunc_Permutation, list_elem_of_filter, Hs.
    split.
    - intros [Hrdy Hss]. split; [done|].
      destruct (Hsucc s Hss) as (HsN' & Hsd & Hsn).
      destruct (dag_vertex_now w0 g N rank Hdag wd s) as (sd & ? & Hsdl & _ & Hst & _).
      { etrans; [exact Ba | exact Bd]. }
      { done. }
      apply pending_none. destruct Hrdy as [Hz|Hc].
      + rewrite Jpend in Hz by done. by injection Hz.
      + rewrite Hsdl in Hc. simpl in Hc. rewrite Hst in Hc. discriminate.
    - intros [Hss Hall]. split; [|done].
      destruct (Hsucc s Hss) as (HsN' & Hsd & Hsn).
      left. rewrite Jpend by done. f_equal. by apply pending_none. }
  assert (NoDup C) as CN.
  { subst C. rewrite insertionSortCmpFunc_Permutation. apply NoDup_filter. by rewrite Hs. }
  assert (owned wa g C = Z.of_nat (length C)) as HoC.
  { apply owned_all. intros c Hc. apply HC in Hc as [Hc _].
    destruct (Hsucc c Hc) as (HcN & _).
    destruct (dag_vertex_now w0 g N rank Hdag w c B HcN) as (cd & ? & Hcd & Hcg & _).
    change (w_nodes wa) with (w_nodes w). rewrite Hcd. simpl. by rewrite Hcg. }
  assert (∀ v, v ≠ n → n_calls <$> w_nodes w' !! v = n_calls <$> w_nodes w !! v) as Hcalls.
  { intros v Hv. by destruct (Jo v Hv) as [_ ->]. }
  split.
  - (* run_built *) etrans; [exact Ba | exact B'].
  - (* run_graph *)
    specialize (G' g). change (w_graphs wa) with (w_graphs w) in G'.
    rewrite Hgw in G'. simpl in G'. rewrite decide_True in G' by done.
    pose proof (graph_view_at g_canceled _ _ g C') as Hc'.
    change (w_graphs wa) with (w_graphs w) in Hc'. rewrite Hgw in Hc'. simpl in Hc'.
    destruct (w_graphs w' !! g) as [grw'|]; [|done].
    exists grw'. split; [done|]. injection Hc' as Hc'. injection G' as G'.
    split; [congruence|]. rewrite G', HoC, Hjw, Q', Hq, length_app. subst wa. simpl. lia.
  - (* run_wg *)
    rewrite Q', length_app. subst wa. revert WG'. world_simpl. rewrite WG, Hq. simpl. lia.
  - (* run_queue_nodup *)
    rewrite Q'. subst wa. world_simpl. apply NoDup_app. split; [done|]. split; [|done].
    intros x Hxq Hxc. apply HC in Hxc as [Hxs _].
    assert (x ∈ e_wq w) as Hxw by (rewrite Hq; by right).
    apply QC in Hxw as (HxN & _ & Hxd). apply Hnd, Hxd.
    by apply (dag_edge_in w0 g N rank Hdag n x).
  - (* run_done_nodup *)
    apply NoDup_app. split; [done|]. split; [|apply NoDup_singleton].
    intros x Hx ->%list_elem_of_singleton. done.
  - (* run_done_in *)
    intros v [? | ->%list_elem_of_singleton]%elem_of_app; auto.
  - (* run_closed *)
    intros v d [Hv | ->%list_elem_of_singleton]%elem_of_app Hdv; apply elem_of_app; left.
    + by apply (CL v).
    + by apply Hndeps.
  - (* run_queue *)
    intros v. rewrite Q'. subst wa. world_simpl. rewrite elem_of_app. split.
    + intros [Hvq|Hvc].
      * assert (v ∈ e_wq w) as Hvw by (rewrite Hq; by right).
        apply QC in Hvw as (HvN & Hvd & Hvdeps). split; [done|]. split.
        -- intros [? | ->%list_elem_of_singleton]%elem_of_app; done.
        -- intros d Hdv. apply elem_of_app. left. by apply Hvdeps.
      * apply HC in Hvc as [Hvs Hvdeps]. destruct (Hsucc v Hvs) as (HvN & Hvd & Hvn).
        split; [done|]. split; [|done].
        intros [? | ->%list_elem_of_singleton]%elem_of_app; done.
    + intros (HvN & Hvd & Hvdeps). apply not_elem_of_app in Hvd as [Hvd Hvn].
      rewrite list_elem_of_singleton in Hvn.
      destruct (decide (n ∈ dependentsOf w0 v)) as [Hin|Hnin].
      * right. apply HC. split; [|done]. by apply (dag_edge_in w0 g N rank Hdag n v).
      * left. assert (v ∈ e_wq w) as Hvw.
        { apply QC. split; [done|]. split; [done|]. intros d Hdv.
          pose proof (Hvdeps d Hdv) as Hd'.
          apply elem_of_app in Hd' as [? | ->%list_elem_of_singleton]; done. }
        rewrite Hq in Hvw. apply elem_of_cons in Hvw as [?|?]; done.
  - (* run_pending *)
    intros v HvN Hvd. apply not_elem_of_app in Hvd as [Hvd Hvn].
    rewrite list_elem_of_singleton in Hvn.
    destruct (Jo v Hvn) as [-> Hc]. split; [by apply Jpend|].
    rewrite Hc. change (w_nodes wa) with (w_nodes w). by apply PE.
  - (* run_done_calls *)
    intros v [Hv | ->%list_elem_of_singleton]%elem_of_app.
    + rewrite Hcalls by (intros ->; done). by apply DC.
    + rewrite Cn. destruct (PE n HnN Hnd) as [_ Hc]. rewrite <- Hc, Hn. done.
  - (* run_trace *)
    exists (T ++ [(n, kNodeStateRunning); (n, kNodeStateFinished); (n, kNodeStateIdle)] ++ t).
    split; [rewrite T'; subst wa; world_simpl; by rewrite HT, <- !app_assoc|].
    split.
    + intros d [Hdd | ->%list_elem_of_singleton]%elem_of_app.
      * apply elem_of_app. left. by apply TF.
      * apply elem_of_app. right. right. left.
    + intros v d [Hv | ->%list_elem_of_singleton]%elem_of_app Hdv.
      * apply stored_before_app. by apply TB.
      * apply stored_before_later. apply TF. by apply Hndeps.
Qed.

End Step.

Lemma same_counters_joinCounter w w' :
  same (node_view counters) w w' → same (node_view n_joinCounter) w w'.
Proof.
  unfold same, node_view. intros B.
  apply (f_equal (fmap (λ q : _ * Z * nat, q.1.2))) in B.
  by rewrite <- !map_fmap_compose in B.
Qed.

Lemma filter_all {A} (P : A → Prop) `{!∀ x, Decision (P x)} (l : list A) :
  (∀ x, x ∈ l → P x) → filter P l = l.
Proof.
  induction l as [|x l IH]; intros Hall; [done|].
  rewrite filter_cons, decide_True by (apply Hall; left).
  f_equal. apply IH. intros y Hy. apply Hall. by right.
Qed.

Section Run.
Context (w0 : World) (g : positive) (N : list positive) (rank : positive → nat).
Hypothesis Hdag : static_dag w0 g N rank.

(** [scheduleGraph] up to the dispatcher loop: the entries are in the queue. *)
Lemma entries_start gr :
  w_graphs w0 !! g = Some gr →
  g_nodes gr = N →
  g_canceled gr = false →
  e_wq w0 = [] →
  ∃ w1, scheduleGraph_entries g w0 = (Ret tt, w1) ∧ running w0 g N [] w1.
Proof.
  intros Hg HN Hc Hq.
  assert (∀ v, v ∈ N → ∃ nd, w_nodes w0 !! v = Some nd ∧ n_g nd = g ∧
            n_Typ nd = nodeStatic ∧ n_dependents nd = dependentsOf w0 v ∧
            (∀ d, d ∈ dependentsOf w0 v → d ∈ N)) as Hv.
  { intros v HvN.
    destruct (dag_vertex_now w0 g N rank Hdag w0 v ltac:(reflexivity) HvN)
      as (nd & p & Hn & Hgn & Ht & _ & _ & _ & Hd & _ & _ & HdN).
    by exists nd. }
  destruct (eGraph_setup_spec g gr w0 Hg) as (w1 & gr1 & E1 & Hg1 & J1 & En1 & _ & C1 & S1).
  { rewrite HN. apply (dag_nodup _ _ _ _ Hdag). }
  { rewrite HN. intros n Hn. destruct (Hv n Hn) as (nd & Hnd & _ & _ & Hd & HdN).
    exists nd. split; [done|]. intros d Hdd. rewrite Hd in Hdd.
    destruct (Hv d (HdN d Hdd)) as (x & Hx & _). by exists x. }
  rewrite HN in En1, S1.
  set (L := insertionSortCmpFunc w1 (g_entries gr1)).
  set (w2 := set_graphs (<[g := graph_set_entries L gr1]> (w_graphs w1)) w1).
  assert (scheduleGraph_entries g w0 = schedule L w2) as E.
  { unfold scheduleGraph_entries.
    rewrite (run_bind_ret _ _ _ _ _ E1), (run_bind_ret _ _ _ _ _ (getGraph_ok _ _ _ Hg1)).
    rewrite (run_bind_ret _ _ _ _ _ (sortByPriority_ok _ _)).
    rewrite (run_bind_ret _ _ _ _ _ (modGraph_ok _ _ _ _ Hg1)). reflexivity. }
  assert (keeps (same (node_view built)) (scheduleGraph_entries g)) as KB by keeps_walk.
  assert (keeps (same (node_view n_calls)) (scheduleGraph_entries g)) as KC by keeps_walk.
  assert (keeps (same (graph_view g_canceled)) (scheduleGraph_entries g)) as KG by keeps_walk.
  assert (keeps (trace_adds not_failed) (scheduleGraph_entries g)) as KT by keeps_walk.
  specialize (KB w0). specialize (KC w0). specialize (KG w0). specialize (KT w0).
  rewrite E in KB, KC, KG, KT |- *.
  assert (same (node_view built) w0 w1) as B1.
  { eapply keeps_run; [|exact E1]. keeps_walk. }
  assert (same (node_view built) w0 w2) as B2 by exact B1.
  assert (e_wq w1 = [] ∧ e_wg w1 = e_wg w0) as [Q2 WG2].
  { split.
    - rewrite <- Hq. eapply (keeps_run (same e_wq)); [|exact E1]. keeps_walk.
    - eapply (keeps_run (same e_wg)); [|exact E1]. keeps_walk. }
  change (e_wq w1) with (e_wq w2) in Q2. change (e_wg w1) with (e_wg w2) in WG2.
  assert (∀ v, v ∈ L ↔ v ∈ N ∧ dependentsOf w0 v = []) as HL.
  { intros v. subst L. rewrite insertionSortCmpFunc_Permutation, En1, list_elem_of_filter.
    unfold has_no_dependents, dependentsOf. split.
    - intros [-> ?]. done.
    - intros [HvN Hd]. split; [|done]. destruct (Hv v HvN) as (nd & Hnd & _).
      rewrite Hnd in Hd |- *. simpl in *. by rewrite Hd. }
  assert (∀ v, v ∈ N → n_g <$> w_nodes w2 !! v = Some g) as Hown.
  { intros v HvN. destruct (dag_vertex_now w0 g N rank Hdag w2 v B2 HvN)
      as (nd & _ & -> & <- & _). done. }
  destruct (schedule_all L w2) as [Rf Qf].
  { intros v HvL. apply HL in HvL as [HvN _].
    destruct (dag_vertex_now w0 g N rank Hdag w2 v B2 HvN) as (nd & _ & Hnd & Hgn & _).
    exists nd, (graph_set_entries L gr1). split; [done|]. split.
    - rewrite Hgn. subst w2. world_simpl. apply lookup_insert_eq.
    - simpl. congruence. }
  destruct (schedule_accounts L w2) as (pushed & _ & Qf' & WGf & Jf & _).
  assert (pushed = L) as -> by (rewrite Qf in Qf'; by apply app_inv_head in Qf').
  pose proof (schedule_same_counters L w2) as Kf.
  destruct (schedule L w2) as [rf w3]. simpl in *. subst rf.
  exists w3. split; [done|]. split.
  - exact KB.
  - specialize (Jf g). subst w2. revert Jf. world_simpl. rewrite lookup_insert_eq. simpl.
    pose proof (graph_view_at g_canceled _ _ g KG) as Hc3. rewrite Hg in Hc3. simpl in Hc3.
    destruct (w_graphs w3 !! g) as [gr3|]; [|done]. intros [= Jf]. injection Hc3 as Hc3.
    exists gr3. split; [done|]. split; [congruence|].
    rewrite Jf, J1, Qf, Q2. simpl. apply owned_all. intros v HvL. apply Hown, HL, HvL.
  - rewrite WGf, Qf, Q2, WG2. done.
  - rewrite Qf, Q2. simpl. subst L. rewrite insertionSortCmpFunc_Permutation, En1.
    apply NoDup_filter, (dag_nodup _ _ _ _ Hdag).
  - constructor.
  - intros v Hvd. by apply elem_of_nil in Hvd.
  - intros v d Hvd. by apply elem_of_nil in Hvd.
  - intros v. rewrite Qf, Q2. simpl. rewrite HL. split.
    + intros [HvN Hd]. split; [done|]. split; [apply not_elem_of_nil|].
      intros d Hdd. rewrite Hd in Hdd. by apply elem_of_nil in Hdd.
    + intros (HvN & _ & Hd). split; [done|].
      destruct (dependentsOf w0 v) as [|d l]; [done|].
      specialize (Hd d ltac:(left)). by apply elem_of_nil in Hd.
  - intros v HvN _. split.
    + destruct (Hv v HvN) as (nd & Hnd & _ & _ & Hd & HdN).
      destruct (S1 v nd HvN Hnd) as [_ Hj].
      pose proof (node_view_at n_joinCounter _ _ v (same_counters_joinCounter _ _ Kf)) as Hj3.
      rewrite Hj3. change (w_nodes w2) with (w_nodes w1). rewrite Hj. f_equal.
      unfold counted_dependents. rewrite Hd. f_equal. f_equal.
      rewrite !filter_all; [done | intros x _; apply not_elem_of_nil |].
      intros d Hdd. destruct (Hv d (HdN d Hdd)) as (dd & Hdl & _ & Hdt & _).
      unfold not_condition. rewrite Hdl. simpl. rewrite Hdt. discriminate.
    + by apply (node_view_at n_calls).
  - intros v Hvd. by apply elem_of_nil in Hvd.
  - destruct KT as (T & HT & _). exists T. split; [done|]. split.
    + intros d Hd. by apply elem_of_nil in Hd.
    + intros v d Hvd. by apply elem_of_nil in Hvd.
Qed.

(** The dispatcher loop empties the queue. *)
Lemma invokeGraph_empties_the_queue fuel parentSpan :
  ∀ done w,
    running w0 g N done w →
    (length N - length done < fuel)%nat →
    ∃ w' done', invokeGraph pool_runs fuel g parentSpan w = (Ret tt, w') ∧
                running w0 g N done' w' ∧ e_wq w' = [].
Proof.
  induction fuel as [|fuel IH]; intros done w R Hf; [lia|].
  cbn [invokeGraph].
  destruct (run_graph _ _ _ _ _ R) as (grw & Hgw & Hcw & Hjw).
  rewrite run_bind, invokeGraph_poll_spec, Hgw.
  destruct (e_wq w) as [|n q] eqn:Hq.
  - rewrite decide_False by (intros (? & _); simpl in *; lia).
    rewrite decide_True by (left; simpl in *; lia).
    exists w, done. done.
  - rewrite decide_False by (intros (_ & ? & _); done).
    rewrite decide_False by (rewrite Hcw; intros [?|?]; simpl in *; [lia | done]).
    rewrite run_bind. unfold wq_PeakAndTake. rewrite Hq.
    destruct (dispatch_step w0 g N rank Hdag done w n q
                (scheduleGraph_body (invokeGraph pool_runs fuel)) parentSpan R Hq)
      as (w1 & E1 & R1).
    rewrite (run_bind_ret _ _ _ _ _ E1).
    apply (IH (done ++ [n])); [exact R1|].
    pose proof (submseteq_length _ _
      (NoDup_submseteq _ _ (run_done_nodup _ _ _ _ _ R1) (run_done_in _ _ _ _ _ R1))) as Hle.
    rewrite length_app in Hle |- *. simpl in *. lia.
Qed.

(** When the queue is empty, every vertex has been executed. *)
Lemma all_done done w :
  running w0 g N done w → e_wq w = [] → ∀ v, v ∈ N → v ∈ done.
Proof.
  intros R Hq.
  assert (∀ r v, v ∈ N → (rank v < r)%nat → v ∈ done) as H.
  { induction r as [|r IH]; intros v HvN Hr; [lia|].
    destruct (decide (v ∈ done)) as [|Hvd]; [done|]. exfalso.
    assert (v ∈ e_wq w) as Hvq; [|rewrite Hq in Hvq; by apply elem_of_nil in Hvq].
    apply (run_queue _ _ _ _ _ R). split; [done|]. split; [done|].
    intros d Hdv.
    destruct (dag_vertex_now w0 g N rank Hdag w0 v ltac:(reflexivity) HvN)
      as (_ & _ & _ & _ & _ & _ & _ & _ & _ & _ & _ & HdN).
    pose proof (HdN d Hdv) as HdN'.
    destruct (dag_vertex_now w0 g N rank Hdag w0 d ltac:(reflexivity) HdN')
      as (_ & _ & _ & _ & _ & _ & _ & _ & _ & _ & Hrk & _).
    apply IH; [done|].
    destruct (Hrk v) as [_ Hlt]; [|lia].
    by apply (dag_edge_in w0 g N rank Hdag d v). }
  intros v HvN. apply (H (S (rank v))); [done | lia].
Qed.

End Run.

(** X21: Run, with a pool that has run each closure to its end when [Go]
    returns, on a graph of static vertices whose payloads return and whose
    edges form a directed acyclic graph: Run returns, the queue is empty and
    the wait counter is back where it was (so Wait returns when it was zero);
    every vertex has been called exactly once; and for every edge the
    predecessor was stored finished before the successor was stored running. *)
Theorem Run_executes_every_vertex_once_in_order (fuel : nat) (tf : TaskFlow)
    (w : World) (gr : eGraph) (rank : positive → nat) :
  w_graphs w !! tf_graph tf = Some gr →
  g_canceled gr = false →
  e_wq w = [] →
  static_dag w (tf_graph tf) (g_nodes gr) rank →
  (length (g_nodes gr) < fuel)%nat →
  ∃ w' T,
    Run pool_runs fuel tf w = (Ret tt, w') ∧
    e_wq w' = [] ∧
    e_wg w' = e_wg w ∧
    (e_wg w = 0%nat → Wait w' = (Ret tt, w')) ∧
    (∀ v, v ∈ g_nodes gr →
          n_calls <$> w_nodes w' !! v = S <$> (n_calls <$> w_nodes w !! v)) ∧
    w_trace w' = w_trace w ++ T ∧
    (∀ v d, v ∈ g_nodes gr → d ∈ dependentsOf w v →
            stored_before T (d, kNodeStateFinished) (v, kNodeStateRunning)).
Proof.
  intros Hg Hc Hq Hdag Hf.
  destruct (entries_start w (tf_graph tf) (g_nodes gr) rank Hdag gr Hg eq_refl Hc Hq)
    as (w1 & E1 & R1).
  destruct (invokeGraph_empties_the_queue w (tf_graph tf) (g_nodes gr) rank Hdag fuel None
              [] w1 R1) as (w2 & done & E2 & R2 & Q2).
  { simpl. lia. }
  pose proof (all_done w (tf_graph tf) (g_nodes gr) rank Hdag done w2 R2 Q2) as Hall.
  destruct R2 as [B (grw & Hgw & Hcw & Hjw) WG QN DN DI CL QC PE DC (T & HT & TF & TB)].
  exists (set_graphs (<[tf_graph tf := graph_set_scheCond (S (g_scheCond grw)) grw]>
                        (w_graphs w2)) w2), T.
  split.
  { unfold Run, scheduleGraph, scheduleGraph_body.
    rewrite (run_bind_ret _ _ _ _ _ E1), (run_bind_ret _ _ _ _ _ E2).
    unfold scheCond_Signal. etrans; [apply modGraph_ok; exact Hgw | reflexivity]. }
  world_simpl. split; [done|]. split; [rewrite WG, Q2; simpl; lia|].
  split.
  { intros Hz. unfold Wait, wg_Wait. world_simpl.
    rewrite decide_True; [done|]. rewrite WG, Q2. simpl. lia. }
  split; [intros v Hv; by apply DC, Hall|]. split; [done|].
  intros v d Hv Hd. apply TB; [by apply Hall | done].
Qed.

Ltac by_computation := apply (bool_decide_unpack _); vm_compute; exact I.

Ltac static_vertex nd :=
  exists nd, returns;
  split; [reflexivity|]; split; [reflexivity|]; split; [reflexivity|];
  split; [reflexivity|]; split; [done|]; split; [by_computation|];
  split;
  [ let s := fresh "s" in let Hs := fresh "Hs" in
    intros s Hs; simpl in Hs; in_list Hs; (split; [by_computation | vm_compute; lia])
  | let d := fresh "d" in let Hd := fresh "Hd" in
    intros d Hd; simpl in Hd; in_list Hd; by_computation ].

(** [diamond_world] is a directed acyclic graph of static vertices. *)
Lemma diamond_world_is_a_static_dag :
  static_dag diamond_world 1 [1; 2; 3; 4]%positive Pos.to_nat.
Proof.
  split.
  - by_computation.
  - by_computation.
  - intros n Hin. in_list Hin.
    + static_vertex (vertex "A" [2; 3]%positive [] nodeStatic (PStatic returns) 1 2).
    + static_vertex (vertex "B" [4%positive] [1%positive] nodeStatic (PStatic returns) 1 2).
    + static_vertex (vertex "C" [4%positive] [1%positive] nodeStatic (PStatic returns) 1 1).
    + static_vertex (vertex "D" [] [2; 3]%positive nodeStatic (PStatic returns) 1 2).
Qed.

(** X21 at [diamond_world], ranked by the vertex number. *)
Lemma Run_executes_every_vertex_once_in_order_witness :
  ∃ w' T,
    Run pool_runs 5 single_flow diamond_world = (Ret tt, w') ∧
    e_wq w' = [] ∧
    e_wg w' = e_wg diamond_world ∧
    (e_wg diamond_world = 0%nat → Wait w' = (Ret tt, w')) ∧
    (∀ v, v ∈ [1; 2; 3; 4]%positive →
          n_calls <$> w_nodes w' !! v = S <$> (n_calls <$> w_nodes diamond_world !! v)) ∧
    w_trace w' = w_trace diamond_world ++ T ∧
    (∀ v d, v ∈ [1; 2; 3; 4]%positive → d ∈ dependentsOf diamond_world v →
            stored_before T (d, kNodeStateFinished) (v, kNodeStateRunning)).
Proof.
  apply (Run_executes_every_vertex_once_in_order 5 single_flow diamond_world
           (graph "g" [1; 2; 3; 4]%positive false) Pos.to_nat).
  - reflexivity.
  - reflexivity.
  - reflexivity.
  - exact diamond_world_is_a_static_dag.
  - simpl. lia.
Defined.

(** The diamond runs A, then C (priority 1), then B, then D. *)
Example diamond_world_run :
  let r := Run pool_runs 5 single_flow diamond_world in
  r.1 = Ret tt ∧
  filter (λ e, e.2 = kNodeStateRunning) (w_trace r.2)
    = [(1, kNodeStateRunning); (3, kNodeStateRunning); (2, kNodeStateRunning);
       (4, kNodeStateRunning)]%positive.
Proof. vm_compute. split; reflexivity. Qed.

(** A panics first, the dispatcher leaves the loop, and B stays in the queue:
    Wait blocks. *)
Example siblings_world_run :
  let r := Run pool_runs 4 single_flow siblings_world in
  r.1 = Ret tt ∧
  e_wq r.2 = [2%positive] ∧ e_wg r.2 = 1%nat ∧
  n_calls <$> w_nodes r.2 !! 2%positive = Some 0%nat ∧
  (Wait r.2).1 = Stop Hang.
Proof. vm_compute. repeat split. Qed.

(** * The scenarios, run *)

(** S1: each vertex runs once, in order, and three spans without parent are
    recorded. *)
Example line_world_run :
  let r := Run pool_runs 5 single_flow line_world in
  r.1 = Ret tt ∧
  e_profiler r.2 = [RootSpan {| a_typ := nodeStatic; a_name := "A" |};
                    RootSpan {| a_typ := nodeStatic; a_name := "B" |};
                    RootSpan {| a_typ := nodeStatic; a_name := "C" |}] ∧
  e_wq r.2 = [] ∧ e_wg r.2 = 0%nat.
Proof. vm_compute. repeat split. Qed.

(** S3: the condition returns 1; Y runs, X and Z do not. *)
Example condition_world_run :
  let r := Run pool_runs 5 single_flow (condition_world 1) in
  r.1 = Ret tt ∧
  n_calls <$> w_nodes r.2 !! 2%positive = Some 0%nat ∧
  n_calls <$> w_nodes r.2 !! 3%positive = Some 1%nat ∧
  n_calls <$> w_nodes r.2 !! 4%positive = Some 0%nat.
Proof. vm_compute. repeat split. Qed.

(** S5: the spans of S1 and S2 have the span of SF as parent. *)
Example nesting_world_run :
  let r := Run pool_runs 8 single_flow nesting_world in
  let sf := RootSpan {| a_typ := nodeSubflow; a_name := "SF" |} in
  r.1 = Ret tt ∧
  e_profiler r.2 = [RootSpan {| a_typ := nodeStatic; a_name := "P1" |};
                    sf;
                    ChildSpan {| a_typ := nodeStatic; a_name := "S1" |} sf;
                    ChildSpan {| a_typ := nodeStatic; a_name := "S2" |} sf;
                    RootSpan {| a_typ := nodeStatic; a_name := "P2" |}] ∧
  g_instancelized <$> w_graphs r.2 !! 2%positive = Some true.
Proof. vm_compute. repeat split. Qed.

(** S6: B panics; C is not run, B leaves no span, the flag is latched and
    the wait counter is back at zero. *)
Example chain_world_run :
  let r := Run pool_runs 4 single_flow chain_world in
  r.1 = Ret tt ∧
  n_calls <$> w_nodes r.2 !! 3%positive = Some 0%nat ∧
  e_profiler r.2 = [RootSpan {| a_typ := nodeStatic; a_name := "A" |}] ∧
  g_canceled <$> w_graphs r.2 !! 1%positive = Some true ∧
  e_wg r.2 = 0%nat.
Proof. vm_compute. repeat split. Qed.
